(** * aptidude/frontend-astro: SEO generator, question fetcher and sitemap

    A shallow embedding of [src/utils/seoGenerator.ts],
    [src/utils/dataFetcher.ts] and the question part of
    [src/pages/sitemap.xml.ts], with the properties of the specification
    stated and settled on it.

    Conventions of the embedding.
    - A JavaScript string is the list of its code units.  The code units are
      those of Latin-1 (one [ascii] each), on which [toLowerCase], [\s] and
      [trim] are modelled exactly and on which [toLowerCase] keeps the
      length.
    - [questionNumber] and the other integral numbers are in [Z]; a number
      is printed as JavaScript prints an integer below 10^21, in decimal
      with a leading [-] when negative.
    - An optional field is an [option]; [undefined] is [None].
    - A [Map] is an association list in insertion order: [set] on a present
      key replaces the value in place, on an absent key it appends.
    - Arrays that are shared between the fetcher, its cache and its callers
      live in a heap and are passed by address. *)

From Stdlib Require Import Ascii String.
From Stdlib Require Import List ZArith NArith Bool Lia.
From Stdlib Require Import Permutation Sorted.
Import ListNotations.

Local Open Scope Z_scope.

(* ================================================================== *)
(** * JavaScript strings *)
(* ================================================================== *)

Definition jsstring : Type := list ascii.

(** A string literal of the source. *)
Definition lit (s : string) : jsstring := list_ascii_of_string s.

Definition jsstring_eq_dec : forall a b : jsstring, {a = b} + {a <> b} :=
  list_eq_dec ascii_dec.

Definition streq (a b : jsstring) : bool :=
  if jsstring_eq_dec a b then true else false.

Definition code (c : ascii) : N := N_of_ascii c.

Definition inRange (lo hi : N) (c : ascii) : bool :=
  ((lo <=? code c) && (code c <=? hi))%N.

(** The character classes of the regular expressions of the source. *)
Definition isLowerAZ (c : ascii) : bool := inRange 97 122 c.   (* [a-z] *)
Definition isDigit (c : ascii) : bool := inRange 48 57 c.      (* [0-9] *)
Definition isHyphen (c : ascii) : bool := (code c =? 45)%N.    (* \-   *)

(** [\s], and the characters [trim] removes: TAB, LF, VT, FF, CR, SP and
    NBSP are the white space and line terminators below U+0100. *)
Definition isSpace (c : ascii) : bool :=
  (inRange 9 13 c || (code c =? 32) || (code c =? 160))%N.

(** [a-z0-9\s] and [a-z0-9\-] *)
Definition isAlnumSpace (c : ascii) : bool := isLowerAZ c || isDigit c || isSpace c.
Definition isSlugChar (c : ascii) : bool := isLowerAZ c || isDigit c || isHyphen c.

(** [String.prototype.toLowerCase] on one code unit: A-Z, and the Latin-1
    capitals U+00C0..U+00DE but the multiplication sign U+00D7. *)
Definition lowerChar (c : ascii) : ascii :=
  if inRange 65 90 c then ascii_of_N (code c + 32)
  else if inRange 192 222 c && negb (code c =? 215)%N then ascii_of_N (code c + 32)
  else c.

Definition toLowerCase (s : jsstring) : jsstring := map lowerChar s.

(** [s.replace(/[^...]/g, '')] keeps the characters of the class. *)
Definition removeOutside (keep : ascii -> bool) (s : jsstring) : jsstring :=
  filter keep s.

(** [s.replace(/[^...]/g, r)] puts [r] for each character outside the class. *)
Definition replaceOutside (keep : ascii -> bool) (r : ascii) (s : jsstring) : jsstring :=
  map (fun c => if keep c then c else r) s.

(** [s.replace(/C+/g, r)]: each maximal run of characters of the class [p]
    becomes the one character [r]. *)
Fixpoint replaceRuns (p : ascii -> bool) (r : ascii) (s : jsstring) : jsstring :=
  match s with
  | [] => []
  | c :: rest =>
      if p c then
        match rest with
        | c' :: _ => if p c' then replaceRuns p r rest else r :: replaceRuns p r rest
        | [] => [r]
        end
      else c :: replaceRuns p r rest
  end.

(** [s.split(/\s+/)]: the pieces between the maximal runs of white space;
    a run at either end leaves an empty piece there, and the empty string
    splits into one empty piece. *)
Fixpoint splitSpaces (s : jsstring) : list jsstring :=
  match s with
  | [] => [[]]
  | c :: rest =>
      if isSpace c then
        match rest with
        | c' :: _ => if isSpace c' then splitSpaces rest else [] :: splitSpaces rest
        | [] => [[]; []]
        end
      else
        match splitSpaces rest with
        | w :: ws => (c :: w) :: ws
        | [] => [[c]]
        end
  end.

Fixpoint dropWhile (p : ascii -> bool) (s : jsstring) : jsstring :=
  match s with
  | [] => []
  | c :: rest => if p c then dropWhile p rest else s
  end.

Definition trim (s : jsstring) : jsstring :=
  rev (dropWhile isSpace (rev (dropWhile isSpace s))).

(** [s.replace(/^-|-$/g, '')]: one hyphen off the front, then one off the
    end of what is left. *)
Definition dropFirstHyphen (s : jsstring) : jsstring :=
  match s with
  | c :: rest => if isHyphen c then rest else s
  | [] => []
  end.

Definition stripEndHyphens (s : jsstring) : jsstring :=
  rev (dropFirstHyphen (rev (dropFirstHyphen s))).

Fixpoint join (sep : jsstring) (parts : list jsstring) : jsstring :=
  match parts with
  | [] => []
  | [p] => p
  | p :: rest => p ++ sep ++ join sep rest
  end.

(** An index argument of [substring]: below 0 it is 0, above the length it
    is the length. *)
Definition clampIndex (len : nat) (i : Z) : nat :=
  Z.to_nat (Z.min (Z.max i 0) (Z.of_nat len)).

(** [s.substring(a, b)]: both ends clamped, and swapped when [a > b]. *)
Definition substring (s : jsstring) (a b : Z) : jsstring :=
  let a' := clampIndex (length s) a in
  let b' := clampIndex (length s) b in
  firstn (Nat.max a' b' - Nat.min a' b') (skipn (Nat.min a' b') s).

(** [arr.slice(0, e)]: a negative [e] counts from the end. *)
Definition slice0 {A : Type} (l : list A) (e : Z) : list A :=
  let len := Z.of_nat (length l) in
  firstn (Z.to_nat (if e <? 0 then Z.max (len + e) 0 else Z.min e len)) l.

Fixpoint startsWith (s p : jsstring) {struct p} : bool :=
  match p, s with
  | [], _ => true
  | c :: p', d :: s' => Ascii.eqb c d && startsWith s' p'
  | _ :: _, [] => false
  end.

Fixpoint includes (s p : jsstring) : bool :=
  startsWith s p || match s with [] => false | _ :: rest => includes rest p end.

Fixpoint lastIndexOfFrom (c : ascii) (s : jsstring) (i found : Z) : Z :=
  match s with
  | [] => found
  | x :: rest => lastIndexOfFrom c rest (i + 1) (if Ascii.eqb x c then i else found)
  end.

(** [s.lastIndexOf(c)], -1 when [c] does not occur. *)
Definition lastIndexOf (s : jsstring) (c : ascii) : Z := lastIndexOfFrom c s 0 (-1).

(** [.filter(Boolean)] on values that may be missing. *)
Fixpoint keepSome {A : Type} (l : list (option A)) : list A :=
  match l with
  | [] => []
  | Some x :: rest => x :: keepSome rest
  | None :: rest => keepSome rest
  end.

Definition jslength (s : jsstring) : Z := Z.of_nat (length s).

Definition arrayLength {A : Type} (l : list A) : Z := Z.of_nat (length l).

(** ** Numbers printed in a template literal *)

Definition digitChar (d : N) : ascii := ascii_of_N (48 + d).

(** The decimal digits of [n], least significant first. *)
Fixpoint digitsRev (fuel : nat) (n : N) : jsstring :=
  match fuel with
  | O => []
  | S f => digitChar (n mod 10) :: (if (n <? 10)%N then [] else digitsRev f (n / 10))
  end.

Definition natToString (n : N) : jsstring :=
  rev (digitsRev (S (N.to_nat (N.size n))) n).

(** The number a string of digits stands for, least significant first. *)
Definition digitValue (c : ascii) : N := (code c - 48)%N.

Fixpoint valueLE (l : jsstring) : N :=
  match l with
  | [] => 0%N
  | c :: rest => (digitValue c + 10 * valueLE rest)%N
  end.

(** The digits of a number without the zeros at their end. *)
Definition isZeroDigit (c : ascii) : bool := Ascii.eqb c "0"%char.

Definition significantDigits (digits : jsstring) : jsstring :=
  rev (dropWhile isZeroDigit (rev digits)).

(** The first digit, and a point before the others when there are any. *)
Definition mantissa (significant : jsstring) : jsstring :=
  match significant with
  | [] => []
  | d :: [] => [d]
  | d :: more => d :: "."%char :: more
  end.

(** The exponent form of a number with more than 21 digits: its
    significant digits, then [e+] and the number of digits after the
    first. *)
Definition exponentForm (n : N) : jsstring :=
  let digits := natToString n in
  mantissa (significantDigits digits)
  ++ lit "e+" ++ natToString (N.of_nat (length digits - 1)).

(** 10^21, from where on a number is printed in exponent form. *)
Definition exponentFrom : N := 1000000000000000000000.

Definition posToString (n : N) : jsstring :=
  if (n <? exponentFrom)%N then natToString n else exponentForm n.

(** [String(n)] for an integer [n]: its decimal digits below 10^21, the
    exponent form from there on ([1e+21]), and a minus sign before a
    negative number.  The digits are those of the integer itself: what
    JavaScript prints for every integer up to 2^53, and beyond for the
    integers of at most 15 significant digits that a number holds. *)
Definition numToString (n : Z) : jsstring :=
  if n <? 0 then lit "-" ++ posToString (Z.to_N (- n)) else posToString (Z.to_N n).

(** [`${x}`] for an optional string: [undefined] prints as its name. *)
Definition tmpl (x : option jsstring) : jsstring :=
  match x with Some s => s | None => lit "undefined" end.

(** Truthiness of a string and of an optional string. *)
Definition nonEmpty (s : jsstring) : bool :=
  match s with [] => false | _ => true end.

Definition truthy (x : option jsstring) : bool :=
  match x with Some s => nonEmpty s | None => false end.

(* ================================================================== *)
(** * [Map] *)
(* ================================================================== *)

Section JsMap.
Context {K V : Type}.
Variable eqk : K -> K -> bool.

Definition JsMap : Type := list (K * V).

Fixpoint Map_get (m : JsMap) (k : K) : option V :=
  match m with
  | [] => None
  | (k', v) :: rest => if eqk k' k then Some v else Map_get rest k
  end.

Definition Map_has (m : JsMap) (k : K) : bool :=
  match Map_get m k with Some _ => true | None => false end.

Fixpoint Map_set (m : JsMap) (k : K) (v : V) : JsMap :=
  match m with
  | [] => [(k, v)]
  | (k', v') :: rest =>
      if eqk k' k then (k', v) :: rest else (k', v') :: Map_set rest k v
  end.

Definition Map_keys (m : JsMap) : list K := map fst m.
End JsMap.

Arguments JsMap : clear implicits.

Definition sameString : jsstring -> jsstring -> bool := streq.

(** [if (!m.has(k)) m.set(k, []); m.get(k).push(x)] on a map of arrays. *)
Definition pushInto {A : Type} (m : JsMap jsstring (list A)) (k : jsstring) (x : A)
  : JsMap jsstring (list A) :=
  let m := if negb (Map_has sameString m k) then Map_set sameString m k [] else m in
  match Map_get sameString m k with
  | Some bucket => Map_set sameString m k (bucket ++ [x])
  | None => m
  end.

(* ================================================================== *)
(** * [types.ts] *)
(* ================================================================== *)

Record QuestionOption : Type := mkOption {
  optType : option jsstring;
  optContent : jsstring
}.

Record Question : Type := mkQuestion {
  questionNumber : Z;
  statement : jsstring;
  qtype : jsstring;
  options : option (list QuestionOption);
  exam : option jsstring;
  subExam : option jsstring;
  section : option jsstring;
  difficulty : option jsstring;
  tags : option (list jsstring);
  category : option jsstring;
  topic : option jsstring;
  updatedAt : jsstring;
  createdAt : jsstring
}.

(* ================================================================== *)
(** * [seoGenerator.ts] *)
(* ================================================================== *)

(** [createSlug] *)
Definition createSlug (text : jsstring) : jsstring :=
  removeOutside isSlugChar (replaceRuns isSpace "-"%char (toLowerCase text)).

(** Comparison of one character under the [i] flag, for a pattern character
    in ASCII. *)
Definition asciiLower (c : ascii) : ascii :=
  if inRange 65 90 c then ascii_of_N (code c + 32) else c.

Fixpoint startsWithCI (s p : jsstring) {struct p} : bool :=
  match p, s with
  | [], _ => true
  | c :: p', d :: s' => Ascii.eqb (asciiLower c) (asciiLower d) && startsWithCI s' p'
  | _ :: _, [] => false
  end.

Definition imageExtensions : list jsstring :=
  map lit ["jpg"; "jpeg"; "png"; "gif"; "webp"; "svg"; "bmp"]%string.

(** [(jpg|jpeg|png|gif|webp|svg|bmp)(\?|$)] matched at the front of [s]. *)
Definition extensionAt (s : jsstring) : bool :=
  existsb (fun e =>
             startsWithCI s e &&
             match skipn (length e) s with
             | [] => true
             | c :: _ => Ascii.eqb c "?"%char
             end) imageExtensions.

(** [/\.(jpg|jpeg|png|gif|webp|svg|bmp)(\?|$)/i.test(s)] *)
Fixpoint hasImageExtension (s : jsstring) : bool :=
  match s with
  | [] => false
  | c :: rest => (Ascii.eqb c "."%char && extensionAt rest) || hasImageExtension rest
  end.

(** [isImageUrl]; the statement is a string by its type. *)
Definition isImageUrl (text : jsstring) : bool :=
  let lower := toLowerCase text in
  if startsWith lower (lit "http://") || startsWith lower (lit "https://") then true
  else if hasImageExtension lower then true
  else if includes lower (lit "cloudinary.com") || includes lower (lit "res.cloudinary.com") then true
  else false.

Definition questionFallback (q : Question) : jsstring :=
  lit "question-" ++ numToString (questionNumber q).

Definition statementSlugOf (statementText : jsstring) : jsstring :=
  substring
    (join (lit "-")
       (slice0 (splitSpaces (trim (removeOutside isAlnumSpace (toLowerCase statementText)))) 8))
    0 50.

Definition examSlugOf (e : jsstring) : jsstring :=
  substring (replaceRuns isSpace "-"%char (toLowerCase e)) 0 30.

Definition topicSlugOf (t : jsstring) : jsstring :=
  substring (replaceRuns isSpace "-"%char (removeOutside isAlnumSpace (toLowerCase t))) 0 30.

(** The parts of the slug, joined: [slug] before the test of its length. *)
Definition joinedSlug (q : Question) : jsstring :=
  let statementText :=
    if isImageUrl (statement q) then lit "visual-question" else statement q in
  let statementSlug := statementSlugOf statementText in
  let examSlug := examSlugOf (match exam q with Some e => e | None => [] end) in
  let subExamSlug :=
    match subExam q with
    | Some s =>
        if nonEmpty s && negb (streq s (lit "General"))
        then substring (replaceRuns isSpace "-"%char (toLowerCase s)) 0 30
        else []
    | None => []
    end in
  let topicSlug := topicSlugOf (match topic q with Some t => t | None => [] end) in
  let parts := [statementSlug; examSlug] in
  let parts := if nonEmpty subExamSlug then parts ++ [subExamSlug] else parts in
  let parts := if nonEmpty topicSlug then parts ++ [topicSlug] else parts in
  join (lit "-") parts.

(** The final sanitization of [buildBaseSlug]. *)
Definition sanitizeSlug (slug : jsstring) : jsstring :=
  stripEndHyphens (replaceRuns isHyphen "-"%char (replaceOutside isSlugChar "-"%char slug)).

(** [buildBaseSlug] *)
Definition buildBaseSlug (q : Question) : jsstring :=
  if negb (nonEmpty (statement q)) || negb (truthy (exam q)) || negb (truthy (topic q))
  then questionFallback q
  else
    let slug := joinedSlug q in
    let slug :=
      if jslength slug >? 200
      then substring slug 0 180 ++ lit "-q" ++ numToString (questionNumber q)
      else slug in
    let slug := sanitizeSlug slug in
    if nonEmpty slug then slug else questionFallback q.

(** [generateQuickSlug] *)
Definition generateQuickSlug (question : Question) : jsstring :=
  if negb (nonEmpty (statement question)) || negb (truthy (exam question))
     || negb (truthy (topic question))
  then questionFallback question
  else buildBaseSlug question.

(** ** Collision resolution *)

(** [a.sort(cmp)]: the sort of an array is stable, so for a comparator that
    orders the elements its result is the one stable sorted arrangement,
    computed here by insertion. *)
Fixpoint insertBy {A : Type} (cmp : A -> A -> Z) (x : A) (l : list A) : list A :=
  match l with
  | [] => [x]
  | y :: rest => if cmp x y <=? 0 then x :: l else y :: insertBy cmp x rest
  end.

Fixpoint sortBy {A : Type} (cmp : A -> A -> Z) (l : list A) : list A :=
  match l with
  | [] => []
  | x :: rest => insertBy cmp x (sortBy cmp rest)
  end.

Fixpoint indexOfFrom (l : list Z) (x : Z) (i : Z) : Z :=
  match l with
  | [] => -1
  | y :: rest => if y =? x then i else indexOfFrom rest x (i + 1)
  end.

(** [arr.indexOf(x)], -1 when [x] does not occur. *)
Definition indexOf (l : list Z) (x : Z) : Z := indexOfFrom l x 0.

(** One turn of the first loop of [generateAllSlugs]. *)
Definition recordBaseSlug (baseSlugCounts : JsMap jsstring (list Z)) (question : Question)
  : JsMap jsstring (list Z) :=
  let baseSlug := buildBaseSlug question in
  pushInto baseSlugCounts baseSlug (questionNumber question).

(** One turn of the second loop.  The base slug of a question of the list
    is always in [baseSlugCounts]; were it not, the source would fail on
    [questionNumbers.length], and the embedding leaves the map as it is. *)
Definition assignSlug (baseSlugCounts : JsMap jsstring (list Z))
  (slugMap : JsMap Z jsstring) (question : Question) : JsMap Z jsstring :=
  let baseSlug := buildBaseSlug question in
  match Map_get sameString baseSlugCounts baseSlug with
  | Some questionNumbers =>
      if (length questionNumbers =? 1)%nat
      then Map_set Z.eqb slugMap (questionNumber question) baseSlug
      else
        let sortedNumbers := sortBy (fun a b => a - b) questionNumbers in
        let index := indexOf sortedNumbers (questionNumber question) + 1 in
        Map_set Z.eqb slugMap (questionNumber question)
          (baseSlug ++ lit "-" ++ numToString index)
  | None => slugMap
  end.

(** [generateAllSlugs] *)
Definition generateAllSlugs (questions : list Question) : JsMap Z jsstring :=
  let baseSlugCounts := fold_left recordBaseSlug questions [] in
  fold_left (assignSlug baseSlugCounts) questions [].

(** [generateSlug] *)
Definition generateSlug (question : Question) (slugMap : option (JsMap Z jsstring)) : jsstring :=
  match slugMap with
  | Some m =>
      match Map_get Z.eqb m (questionNumber question) with
      | Some s => if nonEmpty s then s else questionFallback question
      | None => questionFallback question
      end
  | None =>
      if negb (nonEmpty (statement question)) || negb (truthy (exam question))
         || negb (truthy (topic question))
      then questionFallback question
      else buildBaseSlug question
  end.

(** ** Title *)

(** The body of [generateTitle] after the choice of [statementText]. *)
Definition titleFrom (statementText : jsstring) (question : Question) : jsstring :=
  let examPart := tmpl (exam question) ++ lit " " ++ tmpl (difficulty question) in
  let topicPart := tmpl (topic question) in
  let suffixLength := jslength (lit " | " ++ examPart ++ lit " | " ++ topicPart) in
  let maxStatementLength := 120 - suffixLength - 4 in
  let truncatedStatement :=
    if jslength statementText >? maxStatementLength then
      let truncatedStatement := substring statementText 0 maxStatementLength in
      let lastSpace := lastIndexOf truncatedStatement " "%char in
      let truncatedStatement :=
        if lastSpace >? 0 then substring truncatedStatement 0 lastSpace
        else truncatedStatement in
      truncatedStatement ++ lit "..."
    else statementText in
  substring (truncatedStatement ++ lit " | " ++ examPart ++ lit " | " ++ topicPart) 0 120.

(** The string put for a statement that is taken to be an image. *)
Definition synthesizedStatement (question : Question) : jsstring :=
  tmpl (topic question) ++ lit " Question".

(** [generateTitle]; the statement is a string by its type. *)
Definition generateTitle (question : Question) : jsstring :=
  let statementText :=
    if negb (startsWith (statement question) (lit "http"))
    then statement question
    else synthesizedStatement question in
  titleFrom statementText question.

(** ** Keywords *)

(** What a property access on the keyword table can give: the table is an
    object literal, so besides its own entries it has the members of
    [Object.prototype]. *)
Inductive TableValue : Type :=
| Undefined
| Null
| KeywordList (keywords : list jsstring)
| SubExamTable (table : list (jsstring * list jsstring))
| InheritedMethod
| ObjectPrototype.

Definition EXAM_KEYWORD_MAP : list (jsstring * TableValue) :=
  [ (lit "CAT", KeywordList (map lit
       ["cat pyq"; "cat previous year questions"; "cat quant questions";
        "cat aptitude practice"; "cat exam preparation"]%string));
    (lit "Placements", KeywordList (map lit
       ["placement aptitude questions"; "campus placement practice";
        "placement papers"; "aptitude for placements"]%string));
    (lit "SSC", SubExamTable
       [ (lit "CGL Tier 1", map lit ["ssc cgl pyq"; "ssc cgl tier 1 questions"]%string);
         (lit "CGL Tier 2", map lit ["ssc cgl tier 2 questions"; "ssc cgl tier 2 pyq"]%string);
         (lit "CHSL", map lit ["ssc chsl questions"; "ssc chsl pyq"]%string);
         (lit "_default", map lit ["ssc aptitude questions"; "ssc previous year papers"]%string) ]);
    (lit "Banking", SubExamTable
       [ (lit "IBPS PO", map lit ["ibps po questions"; "ibps po pyq"]%string);
         (lit "SBI PO", map lit ["sbi po questions"; "sbi po quant"]%string);
         (lit "RBI Grade B", map lit ["rbi grade b questions"]%string);
         (lit "_default", map lit ["bank exam aptitude"; "bank pyq"]%string) ]);
    (lit "Railways", KeywordList (map lit
       ["railway exam aptitude"; "rrb ntpc questions"; "rrb pyq"]%string));
    (lit "CUET", KeywordList (map lit
       ["cuet gat questions"; "cuet aptitude practice"; "cuet pyq"]%string)) ].

Definition UNIVERSAL_KEYWORDS : list jsstring :=
  map lit ["aptitude questions"; "aptitude practice"; "previous year questions";
           "quantitative aptitude"; "logical reasoning questions";
           "competitive exam questions"; "pyq"]%string.

(** The methods every object inherits from [Object.prototype]. *)
Definition objectPrototypeMethods : list jsstring :=
  map lit ["constructor"; "hasOwnProperty"; "isPrototypeOf"; "propertyIsEnumerable";
           "toLocaleString"; "toString"; "valueOf"; "__defineGetter__";
           "__defineSetter__"; "__lookupGetter__"; "__lookupSetter__"]%string.

Definition isInheritedMethod (key : jsstring) : bool :=
  existsb (sameString key) objectPrototypeMethods.

(** [obj[key]] when [obj] has no own property [key]. *)
Definition inheritedMember (key : jsstring) : TableValue :=
  if isInheritedMethod key then InheritedMethod
  else if sameString key (lit "__proto__") then ObjectPrototype
  else Undefined.

(** [Object.prototype[key]] *)
Definition prototypeMember (key : jsstring) : TableValue :=
  if isInheritedMethod key then InheritedMethod
  else if sameString key (lit "__proto__") then Null
  else Undefined.

(** [EXAM_KEYWORD_MAP[exam]] *)
Definition examEntry (exam : jsstring) : TableValue :=
  match Map_get sameString EXAM_KEYWORD_MAP exam with
  | Some v => v
  | None => inheritedMember exam
  end.

(** [examData[key]] for a nested table. *)
Definition subExamEntry (table : list (jsstring * list jsstring)) (key : jsstring)
  : TableValue :=
  match Map_get sameString table key with
  | Some kws => KeywordList kws
  | None => inheritedMember key
  end.

Definition isFalsy (v : TableValue) : bool :=
  match v with Undefined | Null => true | _ => false end.

(** [a || b] *)
Definition orElse (a b : TableValue) : TableValue := if isFalsy a then b else a.

(** [getExamSpecificKeywords]: the value it returns, which is an array but
    when an inherited member is found. *)
Definition getExamSpecificKeywords (exam : jsstring) (subExam : option jsstring)
  : TableValue :=
  let examData := examEntry exam in
  if isFalsy examData then KeywordList []
  else
    let key := if truthy subExam then tmpl subExam else lit "_default" in
    match examData with
    | SubExamTable table =>
        orElse (subExamEntry table key)
          (orElse (subExamEntry table (lit "_default")) (KeywordList []))
    | ObjectPrototype =>
        orElse (prototypeMember key)
          (orElse (prototypeMember (lit "_default")) (KeywordList []))
    | _ => examData
    end.

(** [.filter(Boolean)] on strings that may be undefined. *)
Fixpoint filterBoolean (l : list (option jsstring)) : list jsstring :=
  match l with
  | [] => []
  | Some s :: rest => if nonEmpty s then s :: filterBoolean rest else filterBoolean rest
  | None :: rest => filterBoolean rest
  end.

(** [[...new Set(l)]]: a set keeps its elements in the order of their first
    insertion. *)
Definition Set_add (set : list jsstring) (x : jsstring) : list jsstring :=
  if existsb (sameString x) set then set else set ++ [x].

Definition uniqueInOrder (l : list jsstring) : list jsstring := fold_left Set_add l [].

Definition hierarchicalKeywords (question : Question) : list jsstring :=
  filterBoolean
    ([ option_map toLowerCase (exam question);
       option_map toLowerCase (subExam question);
       option_map toLowerCase (section question);
       option_map toLowerCase (category question);
       option_map toLowerCase (topic question);
       Some (toLowerCase (qtype question));
       option_map toLowerCase (difficulty question) ]
     ++ map (fun t => Some (toLowerCase t))
            (match tags question with Some ts => ts | None => [] end)).

Definition examKeywordsOf (question : Question) : TableValue :=
  match exam question with
  | Some e => if nonEmpty e then getExamSpecificKeywords e (subExam question) else KeywordList []
  | None => KeywordList []
  end.

(** [generateKeywords]; [None] is the [TypeError] of spreading a value that
    is not iterable. *)
Definition generateKeywords (question : Question) : option (list jsstring) :=
  match examKeywordsOf question with
  | KeywordList examKeywords =>
      Some (uniqueInOrder (hierarchicalKeywords question ++ examKeywords ++ UNIVERSAL_KEYWORDS))
  | _ => None
  end.

(** ** The SEO record *)

(** [QuestionSEO], without the description, the image and the schema, which
    nothing below reads. *)
Record QuestionSEO : Type := mkSEO {
  slug : jsstring;
  title : jsstring;
  keywords : list jsstring;
  canonical : jsstring
}.

(** [generateQuestionSEO]; [None] when [generateKeywords] throws. *)
Definition generateQuestionSEO (question : Question) (slugMap : option (JsMap Z jsstring))
  : option QuestionSEO :=
  let slug := generateSlug question slugMap in
  match generateKeywords question with
  | Some kws =>
      Some (mkSEO slug (generateTitle question) kws
              (lit "https://aptidude.in/questions/" ++ slug))
  | None => None
  end.

(** [generateAllQuestionSEO] *)
Definition generateAllQuestionSEO (questions : list Question)
  : option (JsMap Z QuestionSEO) :=
  let slugMap := generateAllSlugs questions in
  fold_left
    (fun seoMap question =>
       match seoMap, generateQuestionSEO question (Some slugMap) with
       | Some m, Some seo => Some (Map_set Z.eqb m (questionNumber question) seo)
       | _, _ => None
       end)
    questions (Some []).

(* ================================================================== *)
(** * [dataFetcher.ts] *)
(* ================================================================== *)

(** ** The question indexes *)

Record Indexes : Type := mkIndexes {
  byTopic : JsMap jsstring (list Question);
  byCategory : JsMap jsstring (list Question);
  byExam : JsMap jsstring (list Question);
  byExamAndTopic : JsMap jsstring (list Question);
  byQuestionNumber : JsMap Z Question
}.

(** One turn of the loop of [buildQuestionIndexes]. *)
Definition indexQuestion (ix : Indexes) (q : Question) : Indexes :=
  let byQuestionNumber := Map_set Z.eqb (byQuestionNumber ix) (questionNumber q) q in
  let byTopic :=
    if truthy (topic q) then pushInto (byTopic ix) (tmpl (topic q)) q else byTopic ix in
  let byCategory :=
    if truthy (category q) then pushInto (byCategory ix) (tmpl (category q)) q
    else byCategory ix in
  let byExam :=
    if truthy (exam q) then pushInto (byExam ix) (tmpl (exam q)) q else byExam ix in
  let byExamAndTopic :=
    if truthy (exam q) && truthy (topic q)
    then pushInto (byExamAndTopic ix) (tmpl (exam q) ++ lit "::" ++ tmpl (topic q)) q
    else byExamAndTopic ix in
  mkIndexes byTopic byCategory byExam byExamAndTopic byQuestionNumber.

(** [buildQuestionIndexes] *)
Definition buildQuestionIndexes (questions : list Question) : Indexes :=
  fold_left indexQuestion questions (mkIndexes [] [] [] [] []).

(** ** The question fetcher *)

(** What one request for a page gives. *)
Inductive Body : Type :=
| NotJson                                  (* [response.json()] rejects *)
| JsonNull                                 (* the body is [null] *)
| NoQuestionArray                          (* [questions] missing or not an array *)
| QuestionArray (questions : list Question).

Inductive Response : Type :=
| NetworkFailure                           (* [fetch] rejects *)
| Reply (ok : bool) (status : Z) (body : Body).

Inductive Error : Type :=
| NetworkError
| HttpError (status : Z)                   (* [HTTP <status>: <statusText>] *)
| JsonError
| InvalidFormat                            (* [Invalid API response format] *)
| TypeError.

(** How an awaited call ends; [Unsettled] when it has not ended within the
    requests allowed to it, or waits for a promise that is pending. *)
Inductive Outcome (A : Type) : Type :=
| Returned (a : A)
| Thrown (e : Error)
| Unsettled.

Arguments Returned {A} a.
Arguments Thrown {A} e.
Arguments Unsettled {A}.

Definition addr : Type := nat.

Inductive Promise : Type :=
| Pending
| Fulfilled (a : addr)
| Rejected (e : Error).

(** The arrays of questions that have been handed out, and the two
    variables of the module. *)
Record State : Type := mkState {
  heap : list (list Question);
  questionsCache : option addr;
  fetchPromise : option Promise
}.

Definition initialState : State := mkState [] None None.

Definition alloc (st : State) (arr : list Question) : addr * State :=
  (length (heap st), mkState (heap st ++ [arr]) (questionsCache st) (fetchPromise st)).

Definition readArray (st : State) (a : addr) : list Question := nth a (heap st) [].

Fixpoint replaceNth {A : Type} (n : nat) (x : A) (l : list A) {struct l} : list A :=
  match l, n with
  | [], _ => []
  | _ :: rest, O => x :: rest
  | y :: rest, S n' => y :: replaceNth n' x rest
  end.

Definition writeArray (st : State) (a : addr) (arr : list Question) : State :=
  mkState (replaceNth a arr (heap st)) (questionsCache st) (fetchPromise st).

Definition setCache (st : State) (c : option addr) : State :=
  mkState (heap st) c (fetchPromise st).

Definition setPromise (st : State) (p : option Promise) : State :=
  mkState (heap st) (questionsCache st) p.

(** [maxQuestions] is a cap when it is a number other than 0. *)
Definition isCap (maxQuestions : option Z) : bool :=
  match maxQuestions with Some m => negb (m =? 0) | None => false end.

Definition capOf (maxQuestions : option Z) : Z :=
  match maxQuestions with Some m => m | None => 0 end.

Definition limit : Z := 1000.

(** The [while (hasMore)] loop of [fetchLogic] from page [page] on, with
    [allQuestions] fetched so far; [fuel] bounds the requests.  The
    questions of a page are pushed as the arguments of one call, which a
    page of up to [limit] questions never fails to be. *)
Fixpoint fetchPages (backend : Z -> Response) (maxQuestions : option Z)
  (fuel : nat) (page : Z) (allQuestions : list Question) : Outcome (list Question) :=
  match fuel with
  | O => Unsettled
  | S fuel' =>
      match backend page with
      | NetworkFailure => Thrown NetworkError
      | Reply ok status body =>
          if negb ok then Thrown (HttpError status)
          else
            match body with
            | NotJson => Thrown JsonError
            | JsonNull => Thrown TypeError
            | NoQuestionArray => Thrown InvalidFormat
            | QuestionArray questions =>
                let allQuestions := allQuestions ++ questions in
                if isCap maxQuestions && (arrayLength allQuestions >=? capOf maxQuestions)
                then Returned allQuestions
                else if arrayLength questions =? limit
                then fetchPages backend maxQuestions fuel' (page + 1) allQuestions
                else Returned allQuestions
            end
      end
  end.

(** [fetchLogic]: the array it returns enters the heap when it leaves the
    function. *)
Definition fetchLogic (backend : Z -> Response) (maxQuestions : option Z)
  (fuel : nat) (st : State) : Outcome addr * State :=
  match fetchPages backend maxQuestions fuel 1 [] with
  | Returned allQuestions =>
      let finalQuestions :=
        if isCap maxQuestions then slice0 allQuestions (capOf maxQuestions)
        else allQuestions in
      let (a, st) := alloc st finalQuestions in
      let st := if negb (isCap maxQuestions) then setCache st (Some a) else st in
      (Returned a, st)
  | Thrown e => (Thrown e, st)
  | Unsettled => (Unsettled, st)
  end.

Definition await (p : Promise) : Outcome addr :=
  match p with
  | Pending => Unsettled
  | Fulfilled a => Returned a
  | Rejected e => Thrown e
  end.

(** [fetchAllQuestions], awaited. *)
Definition fetchAllQuestions (backend : Z -> Response) (maxQuestions : option Z)
  (fuel : nat) (st : State) : Outcome addr * State :=
  match questionsCache st, isCap maxQuestions with
  | Some cached, false => (Returned cached, st)
  | _, _ =>
      match fetchPromise st, isCap maxQuestions with
      | Some p, false => (await p, st)
      | _, _ =>
          if negb (isCap maxQuestions) then
            match fetchLogic backend maxQuestions fuel st with
            | (Returned a, st) => (Returned a, setPromise st (Some (Fulfilled a)))
            | (Thrown e, st) => (Thrown e, setPromise st None)
            | (Unsettled, st) => (Unsettled, setPromise st (Some Pending))
            end
          else fetchLogic backend maxQuestions fuel st
      end
  end.

(* ================================================================== *)
(** * [sitemap.xml.ts] *)
(* ================================================================== *)

Section Sitemap.
(** [new Date(s).getTime()], [None] for an invalid date. *)
Variable getTime : jsstring -> option Z.

(** The comparator of the sort of [GET].  Between valid dates it is the
    difference of their times.  With an invalid date the difference is
    [NaN], which a sort takes as 0; the comparator is then not consistent
    and the order the sort leaves is the engine's own, so what is proved
    of the order takes the dates to be valid. *)
Definition byUpdatedAtDesc (a b : Question) : Z :=
  match getTime (updatedAt b), getTime (updatedAt a) with
  | Some tb, Some ta => tb - ta
  | _, _ => 0
  end.

(** A question entry of the sitemap: the slug of its [<loc>] and the time
    its [<lastmod>] is printed from. *)
Definition questionEntry (seoMap : JsMap Z QuestionSEO) (q : Question)
  : option (jsstring * Z) :=
  match Map_get Z.eqb seoMap (questionNumber q), getTime (updatedAt q) with
  | Some seo, Some t => Some (slug seo, t)
  | _, _ => None
  end.

(** The part of [GET] that works on the questions: it fetches them,
    builds the indexes and the SEO map, lists the exam pages, sorts the
    array of questions where it is, and lists the question entries.  The
    static pages, the pages of [meta.json], the topic pages and the
    printing of the XML do not touch the array of questions. *)
Definition GET (backend : Z -> Response) (fuel : nat) (st : State)
  : Outcome (list jsstring * list (jsstring * Z)) * State :=
  match fetchAllQuestions backend None fuel st with
  | (Returned questions, st) =>
      let indexes := buildQuestionIndexes (readArray st questions) in
      match generateAllQuestionSEO (readArray st questions) with
      | Some seoMap =>
          let examUrls := map createSlug (Map_keys (byExam indexes)) in
          let st := writeArray st questions
                      (sortBy byUpdatedAtDesc (readArray st questions)) in
          let questionUrls :=
            keepSome (map (questionEntry seoMap) (readArray st questions)) in
          (Returned (examUrls, questionUrls), st)
      | None => (Thrown TypeError, st)
      end
  | (Thrown e, st) => (Thrown e, st)
  | (Unsettled, st) => (Unsettled, st)
  end.
End Sitemap.

(* ================================================================== *)
(** * More of [dataFetcher.ts] *)
(* ================================================================== *)

(** ** Related questions *)

(** [Array.from(new Map(candidates.map(q => [q.questionNumber, q])).values())]:
    one question for each number, at the place of the first candidate with
    the number, and the last candidate with it. *)
Definition uniqueByNumber (candidates : list Question) : list Question :=
  map snd (fold_left (fun m q => Map_set Z.eqb m (questionNumber q) q) candidates []).

(** [q => q.questionNumber !== question.questionNumber] *)
Definition otherThan (question q : Question) : bool :=
  negb (questionNumber q =? questionNumber question).

(** [indexes.byTopic.get(key) || []] *)
Definition bucketOrEmpty (m : JsMap jsstring (list Question)) (key : jsstring)
  : list Question :=
  match Map_get sameString m key with Some bucket => bucket | None => [] end.

(** The candidates of [getRelatedQuestions]. *)
Definition relatedCandidates (question : Question) (indexes : Indexes) : list Question :=
  let candidates := [] in
  let candidates :=
    if truthy (topic question)
    then candidates
         ++ filter (otherThan question)
              (bucketOrEmpty (byTopic indexes) (tmpl (topic question)))
    else candidates in
  if truthy (category question)
  then candidates
       ++ filter (otherThan question)
            (bucketOrEmpty (byCategory indexes) (tmpl (category question)))
  else candidates.

(** [getRelatedQuestions]; without a [limit] it is 6. *)
Definition getRelatedQuestions (question : Question) (indexes : Indexes)
  (limit : option Z) : list Question :=
  let limit := match limit with Some l => l | None => 6 end in
  slice0 (uniqueByNumber (relatedCandidates question indexes)) limit.

(** ** The learning content *)

Section Learning.
(** The courses and topics are passed on as the JSON values they come
    as. *)
Variable Course Topic : Type.

(** What a request to a learning endpoint gives; the value of a JSON body
    is [None] when it is [null]. *)
Inductive LearningBody (J : Type) : Type :=
| BodyNotJson
| BodyJson (value : option J).

Inductive LearningResponse (J : Type) : Type :=
| NoResponse
| Answer (ok : bool) (status : Z) (body : LearningBody J).

(** [coursesCache] and [topicsCache]; a course of the list is [None] where
    the backend answered [null]. *)
Record LearningState : Type := mkLearningState {
  coursesCache : option (list (option Course));
  topicsCache : option (list Topic)
}.

Definition coreCoursesSlugs : list jsstring :=
  map lit ["quantitative-aptitude"; "logical-reasoning"; "reading-comprehension";
           "verbal-ability"; "data-interpretation"]%string.

(** One turn of the loop of [fetchAllCourses]: a response that is not [ok]
    is passed over, as is a request or a body that fails; the value of a
    body is pushed before its title is read, so [null] is pushed too. *)
Definition fetchCourse (backend : jsstring -> LearningResponse Course)
  (courses : list (option Course)) (slug : jsstring) : list (option Course) :=
  match backend slug with
  | NoResponse _ => courses
  | Answer _ ok status body =>
      if negb ok then courses
      else match body with
           | BodyNotJson _ => courses
           | BodyJson _ course => courses ++ [course]
           end
  end.

(** [fetchAllCourses], awaited. *)
Definition fetchAllCourses (backend : jsstring -> LearningResponse Course)
  (st : LearningState) : list (option Course) * LearningState :=
  match coursesCache st with
  | Some cached => (cached, st)
  | None =>
      let courses := fold_left (fetchCourse backend) coreCoursesSlugs [] in
      (courses, mkLearningState (Some courses) (topicsCache st))
  end.

(** [fetchAllTopics], awaited: every failure, also that of reading the
    length of [null], gives the empty list. *)
Definition fetchAllTopics (backend : LearningResponse (list Topic))
  (st : LearningState) : list Topic * LearningState :=
  match topicsCache st with
  | Some cached => (cached, st)
  | None =>
      match backend with
      | NoResponse _ => ([], st)
      | Answer _ ok status body =>
          if negb ok then ([], st)
          else match body with
               | BodyNotJson _ => ([], st)
               | BodyJson _ None => ([], st)
               | BodyJson _ (Some topics) =>
                   (topics, mkLearningState (coursesCache st) (Some topics))
               end
      end
  end.
End Learning.

Arguments BodyNotJson {J}.
Arguments BodyJson {J} value.
Arguments NoResponse {J}.
Arguments Answer {J} ok status body.
Arguments mkLearningState {Course Topic} _ _.
Arguments coursesCache {Course Topic} _.
Arguments topicsCache {Course Topic} _.
Arguments fetchCourse {Course} backend courses slug.
Arguments fetchAllCourses {Course Topic} backend st.
Arguments fetchAllTopics {Course Topic} backend st.

(* ================================================================== *)
(** * Notions of the specification *)
(* ================================================================== *)

(** The questions of the examples. *)
Definition q7 : Question :=
  mkQuestion 7 (lit "Find HCF of 12 and 18") (lit "Integer") None
    (Some (lit "SSC")) None None (Some (lit "Easy")) None None
    (Some (lit "Number System")) (lit "2024-01-01T00:00:00.000Z")
    (lit "2024-01-01T00:00:00.000Z").

(** A statement, an exam and a topic of symbols only. *)
Definition qSymbols : Question :=
  mkQuestion 42 (lit "!!!") (lit "MCQ") None
    (Some (lit "???")) None None (Some (lit "Easy")) None None
    (Some (lit "***")) (lit "2024-01-01T00:00:00.000Z")
    (lit "2024-01-01T00:00:00.000Z").

(** A statement that is the address of an image, and one that is the name
    of an image file. *)
Definition qImageUrl : Question :=
  mkQuestion 11 (lit "https://res.cloudinary.com/aptidude/q11.png") (lit "MCQ") None
    (Some (lit "CAT")) None None (Some (lit "Easy")) None None
    (Some (lit "Geometry")) (lit "2024-01-01T00:00:00.000Z")
    (lit "2024-01-01T00:00:00.000Z").

Definition qImageName : Question :=
  mkQuestion 12 (lit "diagram.png") (lit "MCQ") None
    (Some (lit "CAT")) None None (Some (lit "Easy")) None None
    (Some (lit "Geometry")) (lit "2024-01-01T00:00:00.000Z")
    (lit "2024-01-01T00:00:00.000Z").

Definition qCat (n : Z) : Question :=
  mkQuestion n (lit "What is 2+2?") (lit "MCQ") None
    (Some (lit "CAT")) None None (Some (lit "Easy")) None None
    (Some (lit "Arithmetic")) (lit "2024-01-01T00:00:00.000Z")
    (lit "2024-01-01T00:00:00.000Z").

(** An integer of magnitude below 10^21: a number that is printed in
    plain decimal digits. *)
Definition plainInteger (n : Z) : Prop :=
  - 1000000000000000000000 < n < 1000000000000000000000.

(** A question without a topic whose number is 10^21. *)
Definition qHuge : Question :=
  mkQuestion 1000000000000000000000 (lit "What is 2+2?") (lit "MCQ") None
    (Some (lit "CAT")) None None (Some (lit "Easy")) None None
    None (lit "2024-01-01T00:00:00.000Z")
    (lit "2024-01-01T00:00:00.000Z").

(** The keys under which [buildQuestionIndexes] files a question. *)
Definition topicKey (q : Question) : option jsstring :=
  if truthy (topic q) then topic q else None.

Definition categoryKey (q : Question) : option jsstring :=
  if truthy (category q) then category q else None.

Definition examKey (q : Question) : option jsstring :=
  if truthy (exam q) then exam q else None.

Definition examTopicKey (q : Question) : option jsstring :=
  if truthy (exam q) && truthy (topic q)
  then Some (tmpl (exam q) ++ lit "::" ++ tmpl (topic q)) else None.

Definition hasKey {T : Type} (key : T -> option jsstring) (k : jsstring) (t : T) : bool :=
  match key t with Some k' => sameString k' k | None => false end.

(** A table groups [items] by [key]: its keys are the keys of the items in
    the order of their first occurrence, and the bucket of a key holds the
    values of the items with this key in the order of the items. *)
Definition groupedBy {T A : Type} (key : T -> option jsstring) (val : T -> A)
  (items : list T) (table : JsMap jsstring (list A)) : Prop :=
  Map_keys table = uniqueInOrder (keepSome (map key items))
  /\ forall k, Map_get sameString table k =
               match map val (filter (hasKey key k) items) with
               | [] => None
               | bucket => Some bucket
               end.

(** One turn of a loop that files each item under its key, as the loops of
    [buildQuestionIndexes] and the first loop of [generateAllSlugs] do. *)
Definition fileItem {T A : Type} (key : T -> option jsstring) (val : T -> A)
  (m : JsMap jsstring (list A)) (t : T) : JsMap jsstring (list A) :=
  match key t with
  | Some k => pushInto m k (val t)
  | None => m
  end.

(** The bucket of a key that may be in the map already, with more values. *)
Definition extendBucket {A : Type} (old : option (list A)) (more : list A)
  : option (list A) :=
  match old, more with
  | None, [] => None
  | _, _ => Some (match old with Some b => b | None => [] end ++ more)
  end.

(** A page that is answered with success and an array of questions. *)
Definition servesPage (backend : Z -> Response) (page : Z) (questions : list Question)
  : Prop :=
  exists status, backend page = Reply true status (QuestionArray questions).

(** The error with which a response makes the fetch fail: no response, a
    status that is no success, a body that is no JSON, or one without an
    array of questions. *)
Definition failureOf (r : Response) : option Error :=
  match r with
  | NetworkFailure => Some NetworkError
  | Reply ok status body =>
      if negb ok then Some (HttpError status)
      else match body with
           | NotJson => Some JsonError
           | JsonNull => Some TypeError
           | NoQuestionArray => Some InvalidFormat
           | QuestionArray _ => None
           end
  end.

(** [Requests backend maxQuestions page allQuestions]: a run of
    [fetchLogic] requests [page], with [allQuestions] fetched before it.
    It requests page 1, and the page after a full page that did not reach
    the cap. *)
Inductive Requests (backend : Z -> Response) (maxQuestions : option Z)
  : Z -> list Question -> Prop :=
| Requests_first : Requests backend maxQuestions 1 []
| Requests_next page allQuestions questions :
    Requests backend maxQuestions page allQuestions ->
    servesPage backend page questions ->
    isCap maxQuestions
      && (arrayLength (allQuestions ++ questions) >=? capOf maxQuestions) = false ->
    arrayLength questions = limit ->
    Requests backend maxQuestions (page + 1) (allQuestions ++ questions).

(** A call of [fetchAllQuestions] requests pages itself when it has a cap,
    or when nothing is cached and no fetch is under way. *)
Definition fetchesItself (maxQuestions : option Z) (st : State) : Prop :=
  isCap maxQuestions = true \/ (questionsCache st = None /\ fetchPromise st = None).

(** C3 as it is stated: whenever a page that a run requests fails, the
    call throws, and afterwards both [questionsCache] and [fetchPromise]
    are null. *)
Definition failedFetchLeavesCachesNull : Prop :=
  forall backend maxQuestions fuel st page allQuestions e,
    fetchesItself maxQuestions st ->
    Requests backend maxQuestions page allQuestions ->
    failureOf (backend page) = Some e ->
    (Z.to_nat page <= fuel)%nat ->
    fst (fetchAllQuestions backend maxQuestions fuel st) = Thrown e
    /\ questionsCache (snd (fetchAllQuestions backend maxQuestions fuel st)) = None
    /\ fetchPromise (snd (fetchAllQuestions backend maxQuestions fuel st)) = None.

(** The outcome of a fetch that starts at page 1, with the address its
    array gets. *)
Definition freshFetchOutcome (backend : Z -> Response) (maxQuestions : option Z)
  (fuel : nat) (a : addr) : Outcome addr :=
  match fetchPages backend maxQuestions fuel 1 [] with
  | Returned _ => Returned a
  | Thrown e => Thrown e
  | Unsettled => Unsettled
  end.

(** A backend with one short page, one with full pages only, and one that
    is down. *)
Definition onePageBackend (questions : list Question) (page : Z) : Response :=
  Reply true 200 (QuestionArray (if page =? 1 then questions else [])).

Definition fullPagesBackend (page : Z) : Response :=
  Reply true 200 (QuestionArray (repeat q7 1000)).

Definition downBackend (page : Z) : Response := Reply false 500 NotJson.

(** Two questions, the first one updated before the second. *)
Definition qOld : Question :=
  mkQuestion 1 (lit "What is 2+2?") (lit "MCQ") None
    (Some (lit "CAT")) None None (Some (lit "Easy")) None None
    (Some (lit "Arithmetic")) (lit "2024-01-01T00:00:00.000Z")
    (lit "2023-01-01T00:00:00.000Z").

Definition qNew : Question :=
  mkQuestion 2 (lit "What is 3+3?") (lit "MCQ") None
    (Some (lit "CAT")) None None (Some (lit "Easy")) None None
    (Some (lit "Arithmetic")) (lit "2024-06-01T00:00:00.000Z")
    (lit "2023-01-01T00:00:00.000Z").

(** A backend with a full first page and two questions on every other
    page. *)
Definition twoPagesBackend (page : Z) : Response :=
  Reply true 200 (QuestionArray (if page =? 1 then repeat q7 1000 else [qOld; qNew])).

(** The state after a first call without a cap against a backend with the
    one page [[q7]], from the initial state. *)
Definition stateAfterFetch : State :=
  snd (fetchAllQuestions (onePageBackend [q7]) None 1 initialState).

(** The same with the page [[qOld; qNew]]. *)
Definition stateWithTwo : State :=
  snd (fetchAllQuestions (onePageBackend [qOld; qNew]) None 1 initialState).

(** The times of the two dates of the example, in milliseconds. *)
Definition exampleTime (s : jsstring) : option Z :=
  if sameString s (lit "2024-01-01T00:00:00.000Z") then Some 1704067200000
  else if sameString s (lit "2024-06-01T00:00:00.000Z") then Some 1717200000000
  else None.

(** The numbers of the questions of the list whose base slug is [b], in the
    order of the list. *)
Definition sharers (questions : list Question) (b : jsstring) : list Z :=
  map questionNumber (filter (hasKey (fun q => Some (buildBaseSlug q)) b) questions).

(** The 1-based position of [n] in the ascending arrangement of [numbers]:
    one more than the number of numbers below [n]. *)
Definition rankIn (numbers : list Z) (n : Z) : Z :=
  1 + Z.of_nat (length (filter (fun m => m <? n) numbers)).

(** [n] is at the 1-based position [r] of the ascending arrangement of
    [numbers]. *)
Definition positionInSorted (numbers : list Z) (n r : Z) : Prop :=
  exists sorted,
    Permutation sorted numbers
    /\ StronglySorted Z.le sorted
    /\ 1 <= r
    /\ nth_error sorted (Z.to_nat (r - 1)) = Some n.

(** The slug [generateAllSlugs] gives to the question with number [n] and
    base slug [base] when [numbers] share the base slug. *)
Definition slugFor (numbers : list Z) (base : jsstring) (n : Z) : jsstring :=
  if (length numbers =? 1)%nat then base
  else base ++ lit "-" ++ numToString (indexOf (sortBy (fun a b => a - b) numbers) n + 1).


(** No hyphen at the front, none at the end, no two in a row. *)
Definition headNotHyphen (s : jsstring) : Prop :=
  forall c rest, s = c :: rest -> isHyphen c = false.

Definition lastNotHyphen (s : jsstring) : Prop :=
  forall front c, s = front ++ [c] -> isHyphen c = false.

Definition noDoubleHyphen (s : jsstring) : Prop :=
  forall l1 c d l2, s = l1 ++ c :: d :: l2 ->
                    isHyphen c = true -> isHyphen d = true -> False.


(** A question whose statement is an address written in capitals. *)
Definition qImageUpper : Question :=
  mkQuestion 13 (lit "HTTPS://EXAMPLE.COM/Q13") (lit "MCQ") None
    (Some (lit "CAT")) None None (Some (lit "Easy")) None None
    (Some (lit "Geometry")) (lit "2024-01-01T00:00:00.000Z")
    (lit "2024-01-01T00:00:00.000Z").







(** C6 as it is stated: for every question the base slug has at most 200
    characters, all of them in [a-z0-9-], and no hyphen at either end. *)
Definition everyBaseSlugWellformed : Prop :=
  forall q,
    (length (buildBaseSlug q) <= 200)%nat
    /\ Forall (fun c => isSlugChar c = true) (buildBaseSlug q)
    /\ headNotHyphen (buildBaseSlug q)
    /\ lastNotHyphen (buildBaseSlug q).

(** ** Notions of the further properties *)

Definition prefixOf (pre s : jsstring) : Prop := exists rest, s = pre ++ rest.

(** The end of a title: [ | <exam> <difficulty> | <topic>]. *)
Definition titleSuffix (question : Question) : jsstring :=
  lit " | " ++ (tmpl (exam question) ++ lit " " ++ tmpl (difficulty question))
  ++ lit " | " ++ tmpl (topic question).

(** The statement text [generateTitle] starts from. *)
Definition titleStatement (question : Question) : jsstring :=
  if negb (startsWith (statement question) (lit "http"))
  then statement question
  else synthesizedStatement question.

(** A question with the statement [x], the exam [cat] and a topic. *)
Definition qTopic (n : Z) (t : string) : Question :=
  mkQuestion n (lit "x") (lit "MCQ") None
    (Some (lit "cat")) None None (Some (lit "Easy")) None None
    (Some (lit t)) (lit "2024-01-01T00:00:00.000Z")
    (lit "2024-01-01T00:00:00.000Z").

(** All values of a map are non-empty strings. *)
Definition valuesNonEmpty (m : JsMap Z jsstring) : Prop :=
  forall k v, Map_get Z.eqb m k = Some v -> v <> [].

(** The exam and the sub-exam of a question are no names of members that
    every object inherits. *)
Definition plainNames (q : Question) : Prop :=
  forall e, exam q = Some e ->
    isInheritedMethod e = false
    /\ forall s, subExam q = Some s ->
         isInheritedMethod s = false /\ s <> lit "__proto__".

(** A question of the exam [constructor]. *)
Definition qConstructor : Question :=
  mkQuestion 5 (lit "What is 2+2?") (lit "MCQ") None
    (Some (lit "constructor")) None None (Some (lit "Easy")) None None
    (Some (lit "Arithmetic")) (lit "2024-01-01T00:00:00.000Z")
    (lit "2024-01-01T00:00:00.000Z").

(** One turn of the loop of [generateAllQuestionSEO]. *)
Definition recordSEO (slugMap : JsMap Z jsstring) (seoMap : option (JsMap Z QuestionSEO))
  (question : Question) : option (JsMap Z QuestionSEO) :=
  match seoMap, generateQuestionSEO question (Some slugMap) with
  | Some m, Some seo => Some (Map_set Z.eqb m (questionNumber question) seo)
  | _, _ => None
  end.

(** All the values of a table of buckets, bucket after bucket. *)
Definition allBuckets {A : Type} (table : JsMap jsstring (list A)) : list A :=
  concat (map snd table).

(** The item has a key. *)
Definition keyed {T : Type} (key : T -> option jsstring) (t : T) : bool :=
  match key t with Some _ => true | None => false end.

(** Every entry of a map of questions is a question of [candidates] under
    its own number. *)
Definition entriesFrom (candidates : list Question) (m : JsMap Z Question) : Prop :=
  Forall (fun kv => fst kv = questionNumber (snd kv) /\ In (snd kv) candidates) m.

(** The time of a question whose date is valid. *)
Definition timeOf (getTime : jsstring -> option Z) (q : Question) : Z :=
  match getTime (updatedAt q) with Some t => t | None => 0 end.

(* ================================================================== *)
(** * The examples of the specification *)
(* ================================================================== *)

Example buildBaseSlug_q7 :
  buildBaseSlug q7 = lit "find-hcf-of-12-and-18-ssc-number-system".
Proof. vm_compute. reflexivity. Qed.

Example generateAllSlugs_3_9 :
  generateAllSlugs [qCat 9; qCat 3] =
  [(9, lit "what-is-22-cat-arithmetic-2"); (3, lit "what-is-22-cat-arithmetic-1")].
Proof. vm_compute. reflexivity. Qed.

Example generateTitle_q7 :
  generateTitle q7 = lit "Find HCF of 12 and 18 | SSC Easy | Number System".
Proof. vm_compute. reflexivity. Qed.

Example generateKeywords_q7 :
  generateKeywords q7 =
  Some (map lit ["ssc"; "number system"; "integer"; "easy"; "ssc aptitude questions";
        "ssc previous year papers"; "aptitude questions"; "aptitude practice";
        "previous year questions"; "quantitative aptitude"; "logical reasoning questions";
        "competitive exam questions"; "pyq"]%string).
Proof. vm_compute. reflexivity. Qed.

(* ================================================================== *)
(** * Basic facts on strings, numbers and maps *)
(* ================================================================== *)

Lemma streq_true_iff (a b : jsstring) : streq a b = true <-> a = b.
Proof.
  unfold streq. destruct (jsstring_eq_dec a b); split; intros; congruence.
Qed.

Lemma streq_refl (a : jsstring) : streq a a = true.
Proof. now apply streq_true_iff. Qed.

Lemma streq_false_iff (a b : jsstring) : streq a b = false <-> a <> b.
Proof.
  unfold streq. destruct (jsstring_eq_dec a b); split; intros; congruence.
Qed.

Section MapFacts.
Context {K V : Type}.
Variable eqk : K -> K -> bool.
Hypothesis eqk_spec : forall a b, eqk a b = true <-> a = b.

Lemma eqk_refl a : eqk a a = true.
Proof. now apply eqk_spec. Qed.

Lemma eqk_neq a b : a <> b -> eqk a b = false.
Proof.
  intros H. destruct (eqk a b) eqn:E; [|reflexivity].
  apply eqk_spec in E. contradiction.
Qed.

Lemma Map_get_set_same (m : JsMap K V) k v :
  Map_get eqk (Map_set eqk m k v) k = Some v.
Proof.
  induction m as [|[k' v'] m IH]; simpl.
  - now rewrite eqk_refl.
  - destruct (eqk k' k) eqn:E; simpl; rewrite E; auto.
Qed.

Lemma Map_get_set_other (m : JsMap K V) k k' v :
  k <> k' -> Map_get eqk (Map_set eqk m k v) k' = Map_get eqk m k'.
Proof.
  intros Hne. induction m as [|[k0 v0] m IH]; simpl.
  - now rewrite eqk_neq.
  - destruct (eqk k0 k) eqn:E; simpl.
    + apply eqk_spec in E. subst k0. now rewrite eqk_neq.
    + now rewrite IH.
Qed.

Lemma Map_keys_set (m : JsMap K V) k v :
  Map_keys (Map_set eqk m k v) =
  if Map_has eqk m k then Map_keys m else Map_keys m ++ [k].
Proof.
  unfold Map_has, Map_keys. induction m as [|[k0 v0] m IH]; simpl; [reflexivity|].
  destruct (eqk k0 k) eqn:E; simpl; [reflexivity|].
  rewrite IH. now destruct (Map_get eqk m k).
Qed.

Lemma Map_get_In_keys (m : JsMap K V) k :
  Map_has eqk m k = true <-> In k (Map_keys m).
Proof.
  unfold Map_has, Map_keys. induction m as [|[k0 v0] m IH]; simpl.
  - split; [discriminate | tauto].
  - destruct (eqk k0 k) eqn:E.
    + apply eqk_spec in E. split; auto.
    + rewrite IH. split; [tauto|]. intros [H|H]; [|assumption].
      subst. rewrite eqk_refl in E. discriminate.
Qed.
End MapFacts.

Lemma Zeqb_spec (a b : Z) : (a =? b) = true <-> a = b.
Proof. apply Z.eqb_eq. Qed.

(** ** Printed numbers *)

Lemma code_digitChar d : (d < 10)%N -> code (digitChar d) = (48 + d)%N.
Proof. intros H. unfold code, digitChar. apply N_ascii_embedding. lia. Qed.

Lemma isDigit_digitChar d : (d < 10)%N -> isDigit (digitChar d) = true.
Proof.
  intros H. unfold isDigit, inRange. rewrite code_digitChar by assumption.
  apply andb_true_intro. split; apply N.leb_le; lia.
Qed.

Lemma digitsRev_digits f n : Forall (fun c => isDigit c = true) (digitsRev f n).
Proof.
  revert n. induction f as [|f IH]; intros n; simpl; constructor.
  - apply isDigit_digitChar. apply N.mod_lt. lia.
  - destruct (n <? 10)%N; [constructor | apply IH].
Qed.

Lemma valueLE_digitsRev f n :
  (n < 2 ^ N.of_nat f)%N -> valueLE (digitsRev f n) = n.
Proof.
  revert n. induction f as [|f IH]; intros n H.
  - simpl in *. lia.
  - cbn [digitsRev valueLE]. unfold digitValue.
    rewrite code_digitChar by (apply N.mod_lt; lia).
    destruct (n <? 10)%N eqn:E.
    + apply N.ltb_lt in E. cbn [valueLE]. rewrite N.mod_small by lia. lia.
    + apply N.ltb_ge in E. rewrite IH.
      * pose proof (N.div_mod n 10 ltac:(lia)) as H0.
        set (a := (n / 10)%N) in *. set (b := (n mod 10)%N) in *. clearbody a b. lia.
      * rewrite Nat2N.inj_succ, N.pow_succ_r' in H.
        apply N.Div0.div_lt_upper_bound; lia.
Qed.

Lemma length_digitsRev f n k :
  (n < 10 ^ N.of_nat k)%N -> (1 <= k)%nat -> (length (digitsRev f n) <= k)%nat.
Proof.
  revert n k. induction f as [|f IH]; intros n k Hn Hk; simpl; [lia|].
  destruct (n <? 10)%N eqn:E; simpl; [lia|].
  apply N.ltb_ge in E.
  destruct k as [|[|k]]; [lia| simpl in Hn; lia |].
  apply le_n_S. apply IH; [|lia].
  rewrite Nat2N.inj_succ, N.pow_succ_r' in Hn.
  apply N.Div0.div_lt_upper_bound; lia.
Qed.

Lemma natToString_digits n : Forall (fun c => isDigit c = true) (natToString n).
Proof.
  unfold natToString. apply Forall_rev. apply digitsRev_digits.
Qed.

Lemma natToString_nonempty n : natToString n <> [].
Proof.
  unfold natToString. simpl. intros H.
  apply (f_equal (@length ascii)) in H. rewrite length_app in H. simpl in H. lia.
Qed.

Lemma natToString_inj n m : natToString n = natToString m -> n = m.
Proof.
  unfold natToString. intros H.
  apply (f_equal (@rev ascii)) in H. rewrite !rev_involutive in H.
  rewrite <- (valueLE_digitsRev (S (N.to_nat (N.size n))) n),
          <- (valueLE_digitsRev (S (N.to_nat (N.size m))) m).
  - now rewrite H.
  - rewrite Nat2N.inj_succ, N2Nat.id, N.pow_succ_r'. pose proof (N.size_gt m). lia.
  - rewrite Nat2N.inj_succ, N2Nat.id, N.pow_succ_r'. pose proof (N.size_gt n). lia.
Qed.

Lemma length_natToString n k :
  (n < 10 ^ N.of_nat k)%N -> (1 <= k)%nat -> (length (natToString n) <= k)%nat.
Proof.
  intros. unfold natToString. rewrite length_rev. now apply length_digitsRev.
Qed.

Lemma isDigit_not_hyphen c : isDigit c = true -> isHyphen c = false.
Proof.
  unfold isDigit, inRange, isHyphen. intros H.
  apply andb_prop in H. destruct H as [H1 H2].
  apply N.leb_le in H1. apply N.eqb_neq. lia.
Qed.

Lemma isDigit_slugChar c : isDigit c = true -> isSlugChar c = true.
Proof. unfold isSlugChar. intros ->. now rewrite orb_true_r. Qed.

Lemma isHyphen_slugChar c : isHyphen c = true -> isSlugChar c = true.
Proof. unfold isSlugChar. intros ->. now rewrite orb_true_r. Qed.

(** *** The exponent form *)

Lemma dropWhile_split (p : ascii -> bool) (l : jsstring) :
  exists z, l = z ++ dropWhile p l /\ Forall (fun c => p c = true) z.
Proof.
  induction l as [|c l (z & E & Hz)]; simpl.
  - exists []. split; [reflexivity | constructor].
  - destruct (p c) eqn:Hc.
    + exists (c :: z). split; [simpl; now f_equal | now constructor].
    + exists []. split; [reflexivity | constructor].
Qed.

Lemma zeros_repeat (z : jsstring) :
  Forall (fun c => isZeroDigit c = true) z -> z = repeat "0"%char (length z).
Proof.
  induction 1 as [|c z Hc _ IH]; simpl; [reflexivity|].
  unfold isZeroDigit in Hc. apply Ascii.eqb_eq in Hc. now f_equal.
Qed.

(** The digits are the significant digits and zeros after them. *)
Lemma significantDigits_split (digits : jsstring) :
  digits = significantDigits digits
           ++ repeat "0"%char (length digits - length (significantDigits digits)).
Proof.
  unfold significantDigits.
  destruct (dropWhile_split isZeroDigit (rev digits)) as (z & E & Hz).
  apply (f_equal (@rev ascii)) in E. rewrite rev_involutive, rev_app_distr in E.
  assert (Hl : (length digits - length (rev (dropWhile isZeroDigit (rev digits)))
                = length (rev z))%nat).
  { rewrite E at 1. rewrite length_app. lia. }
  rewrite Hl. rewrite <- zeros_repeat; [exact E|].
  apply Forall_rev. exact Hz.
Qed.

Lemma significantDigits_Forall (P : ascii -> Prop) (digits : jsstring) :
  Forall P digits -> Forall P (significantDigits digits).
Proof.
  intros H. rewrite (significantDigits_split digits) in H.
  apply Forall_app in H. tauto.
Qed.

Lemma mantissa_Forall (P : ascii -> Prop) (significant : jsstring) :
  P "."%char -> Forall P significant -> Forall P (mantissa significant).
Proof.
  intros Hp H. destruct H as [|d more Hd Hmore]; [constructor|].
  destruct Hmore as [|d' more Hd' Hmore]; simpl; repeat constructor; assumption.
Qed.

Lemma mantissa_inj (s1 s2 : jsstring) : mantissa s1 = mantissa s2 -> s1 = s2.
Proof.
  destruct s1 as [|d1 [|c1 m1]]; destruct s2 as [|d2 [|c2 m2]]; simpl;
    intros E; try discriminate E; try reflexivity.
  - now injection E as ->.
  - now injection E as -> -> ->.
Qed.

(** Two strings that agree up to the first [h] of each agree before and
    after it. *)
Lemma first_split (p : ascii -> bool) (a a' b b' : jsstring) h :
  p h = true ->
  Forall (fun c => p c = false) a ->
  Forall (fun c => p c = false) a' ->
  a ++ h :: b = a' ++ h :: b' -> a = a' /\ b = b'.
Proof.
  intros Hh Ha. revert a'. induction Ha as [|c a Hc Ha IH]; intros a' Ha' E.
  - destruct Ha' as [|c' a' Hc' Ha']; simpl in E.
    + injection E as E. auto.
    + injection E as E _. congruence.
  - destruct Ha' as [|c' a' Hc' Ha']; simpl in E.
    + injection E as E _. congruence.
    + injection E as E1 E2. destruct (IH a' Ha' E2). subst. auto.
Qed.

Lemma isDigit_not_e c : isDigit c = true -> Ascii.eqb c "e"%char = false.
Proof.
  intros H. destruct (Ascii.eqb c "e"%char) eqn:E; [|reflexivity].
  apply Ascii.eqb_eq in E. subst c. discriminate H.
Qed.

Lemma mantissa_no_e (n : N) :
  Forall (fun c => Ascii.eqb c "e"%char = false)
    (mantissa (significantDigits (natToString n))).
Proof.
  apply mantissa_Forall; [reflexivity|].
  apply significantDigits_Forall.
  eapply Forall_impl; [|apply natToString_digits]. apply isDigit_not_e.
Qed.

Lemma exponentForm_has_e (n : N) : In "e"%char (exponentForm n).
Proof. unfold exponentForm. apply in_or_app. right. now left. Qed.

Lemma exponentForm_inj (n m : N) : exponentForm n = exponentForm m -> n = m.
Proof.
  unfold exponentForm. cbv zeta. intros E.
  change (lit "e+") with ["e"%char; "+"%char] in E. simpl in E.
  apply (first_split (fun c => Ascii.eqb c "e"%char)) in E;
    [|reflexivity | apply mantissa_no_e | apply mantissa_no_e].
  destruct E as [Em Ee]. apply mantissa_inj in Em.
  injection Ee as Ee. apply natToString_inj, Nat2N.inj in Ee.
  assert (Hn : natToString n <> []) by apply natToString_nonempty.
  assert (Hm : natToString m <> []) by apply natToString_nonempty.
  assert (El : length (natToString n) = length (natToString m)).
  { destruct (natToString n); [congruence|]. destruct (natToString m); [congruence|].
    simpl in *. lia. }
  apply natToString_inj.
  rewrite (significantDigits_split (natToString n)),
          (significantDigits_split (natToString m)).
  now rewrite Em, El.
Qed.

Lemma exponentForm_hyphenFree (n : N) :
  Forall (fun c => isHyphen c = false) (exponentForm n).
Proof.
  unfold exponentForm. cbv zeta. apply Forall_app. split.
  - apply mantissa_Forall; [reflexivity|].
    apply significantDigits_Forall.
    eapply Forall_impl; [|apply natToString_digits]. apply isDigit_not_hyphen.
  - apply Forall_app. split; [repeat constructor|].
    eapply Forall_impl; [|apply natToString_digits]. apply isDigit_not_hyphen.
Qed.

(** *** A number without its sign *)

Lemma posToString_nonempty (n : N) : posToString n <> [].
Proof.
  unfold posToString. destruct (n <? exponentFrom)%N; [apply natToString_nonempty|].
  intros E. pose proof (exponentForm_has_e n) as H. rewrite E in H. destruct H.
Qed.

Lemma posToString_hyphenFree (n : N) :
  Forall (fun c => isHyphen c = false) (posToString n).
Proof.
  unfold posToString. destruct (n <? exponentFrom)%N; [|apply exponentForm_hyphenFree].
  eapply Forall_impl; [|apply natToString_digits]. apply isDigit_not_hyphen.
Qed.

Lemma natToString_not_exponentForm (n m : N) : natToString n <> exponentForm m.
Proof.
  intros E. pose proof (exponentForm_has_e m) as H. rewrite <- E in H.
  pose proof (natToString_digits n) as Hd. rewrite Forall_forall in Hd.
  apply Hd in H. discriminate H.
Qed.

Lemma posToString_inj (n m : N) : posToString n = posToString m -> n = m.
Proof.
  unfold posToString.
  destruct (n <? exponentFrom)%N; destruct (m <? exponentFrom)%N; intros E.
  - now apply natToString_inj.
  - now apply natToString_not_exponentForm in E.
  - symmetry in E. now apply natToString_not_exponentForm in E.
  - now apply exponentForm_inj.
Qed.

(** *** Printed integers *)

Lemma numToString_nonneg n : 0 <= n -> numToString n = posToString (Z.to_N n).
Proof.
  intros H. unfold numToString. destruct (n <? 0) eqn:E; [|reflexivity].
  apply Z.ltb_lt in E. lia.
Qed.

Lemma numToString_neg n :
  n < 0 -> numToString n = "-"%char :: posToString (Z.to_N (- n)).
Proof.
  intros H. unfold numToString. destruct (n <? 0) eqn:E; [reflexivity|].
  apply Z.ltb_ge in E. lia.
Qed.

(** A printed number has no hyphen after its first character. *)
Lemma numToString_shape n :
  exists c t, numToString n = c :: t /\ Forall (fun c => isHyphen c = false) t.
Proof.
  destruct (Z.lt_ge_cases n 0) as [H|H].
  - rewrite (numToString_neg n H). exists "-"%char, (posToString (Z.to_N (- n))).
    split; [reflexivity | apply posToString_hyphenFree].
  - rewrite (numToString_nonneg n H).
    pose proof (posToString_hyphenFree (Z.to_N n)) as Hd.
    pose proof (posToString_nonempty (Z.to_N n)) as Hne.
    destruct (posToString (Z.to_N n)) as [|c t]; [congruence|].
    exists c, t. inversion Hd; subst. split; auto.
Qed.

Lemma numToString_inj n m : numToString n = numToString m -> n = m.
Proof.
  intros H.
  destruct (Z.lt_ge_cases n 0) as [Hn|Hn]; destruct (Z.lt_ge_cases m 0) as [Hm|Hm].
  - rewrite (numToString_neg n Hn), (numToString_neg m Hm) in H.
    injection H as H. apply posToString_inj in H. lia.
  - rewrite (numToString_neg n Hn), (numToString_nonneg m Hm) in H.
    pose proof (posToString_hyphenFree (Z.to_N m)) as Hd. rewrite <- H in Hd.
    inversion Hd; subst. discriminate.
  - rewrite (numToString_nonneg n Hn), (numToString_neg m Hm) in H.
    pose proof (posToString_hyphenFree (Z.to_N n)) as Hd. rewrite H in Hd.
    inversion Hd; subst. discriminate.
  - rewrite (numToString_nonneg n Hn), (numToString_nonneg m Hm) in H.
    apply posToString_inj in H. lia.
Qed.

(** *** Integers printed in plain digits *)

Lemma posToString_plain (n : N) :
  (n < exponentFrom)%N -> posToString n = natToString n.
Proof.
  intros H. unfold posToString. apply N.ltb_lt in H. now rewrite H.
Qed.

(** Below 10^21 a printed number is a digit or a hyphen, and digits after
    it. *)
Lemma numToString_plain_shape n :
  plainInteger n ->
  exists c t, numToString n = c :: t
              /\ (isDigit c = true \/ isHyphen c = true)
              /\ Forall (fun c => isDigit c = true) t.
Proof.
  unfold plainInteger, exponentFrom. intros Hp.
  destruct (Z.lt_ge_cases n 0) as [H|H].
  - rewrite (numToString_neg n H), posToString_plain by (unfold exponentFrom; lia).
    exists "-"%char, (natToString (Z.to_N (- n))).
    repeat split; [now right | apply natToString_digits].
  - rewrite (numToString_nonneg n H), posToString_plain by (unfold exponentFrom; lia).
    pose proof (natToString_digits (Z.to_N n)) as Hd.
    pose proof (natToString_nonempty (Z.to_N n)) as Hne.
    destruct (natToString (Z.to_N n)) as [|c t]; [congruence|].
    exists c, t. inversion Hd; subst. repeat split; auto.
Qed.

Lemma numToString_slugChars n :
  plainInteger n -> Forall (fun c => isSlugChar c = true) (numToString n).
Proof.
  intros Hp. destruct (numToString_plain_shape n Hp) as (c & t & -> & Hc & Ht).
  constructor.
  - destruct Hc; [now apply isDigit_slugChar | now apply isHyphen_slugChar].
  - eapply Forall_impl; [|exact Ht]. intros a. apply isDigit_slugChar.
Qed.

(** Below 10^21 a printed number ends with a digit. *)
Lemma numToString_last n :
  plainInteger n ->
  forall front c, numToString n = front ++ [c] -> isDigit c = true.
Proof.
  intros Hp front c H.
  destruct (numToString_plain_shape n Hp) as (c0 & t & E & Hc & Ht).
  rewrite E in H. destruct front as [|f front]; simpl in H.
  - injection H as <- Ht0. subst t. destruct Hc as [Hc|Hc]; [exact Hc|].
    exfalso. unfold plainInteger in Hp.
    destruct (Z.lt_ge_cases n 0) as [Hn|Hn].
    + rewrite (numToString_neg n Hn) in E. injection E as _ E.
      now apply posToString_nonempty in E.
    + rewrite (numToString_nonneg n Hn), posToString_plain in E
        by (unfold exponentFrom; lia).
      pose proof (natToString_digits (Z.to_N n)) as Hd. rewrite E in Hd.
      inversion Hd as [|? ? Hd0 _]; subst.
      apply isDigit_not_hyphen in Hd0. congruence.
  - injection H as _ H. rewrite H in Ht. apply Forall_app in Ht.
    destruct Ht as [_ Ht]. now inversion Ht.
Qed.

Lemma length_numToString n :
  plainInteger n -> (length (numToString n) <= 22)%nat.
Proof.
  unfold plainInteger. intros Hp.
  assert (Hpow : (10 ^ N.of_nat 21)%N = exponentFrom) by reflexivity.
  destruct (Z.lt_ge_cases n 0) as [H|H].
  - rewrite (numToString_neg n H), posToString_plain by (unfold exponentFrom; lia).
    simpl. apply le_n_S.
    apply (length_natToString _ 21); [|lia]. rewrite Hpow. unfold exponentFrom. lia.
  - rewrite (numToString_nonneg n H), posToString_plain by (unfold exponentFrom; lia).
    transitivity 21%nat; [|lia].
    apply (length_natToString _ 21); [|lia]. rewrite Hpow. unfold exponentFrom. lia.
Qed.

(** ** The pieces of a slug *)

Lemma substring_0_firstn s n :
  0 <= n -> substring s 0 n = firstn (Z.to_nat n) s.
Proof.
  intros Hn. unfold substring, clampIndex.
  replace (Z.to_nat (Z.min (Z.max 0 0) (Z.of_nat (length s)))) with 0%nat by lia.
  rewrite Nat.max_0_l, Nat.min_0_l, Nat.sub_0_r. simpl skipn.
  destruct (Z_le_gt_dec n (Z.of_nat (length s))) as [Hle|Hgt].
  - f_equal. lia.
  - replace (Z.to_nat (Z.min (Z.max n 0) (Z.of_nat (length s)))) with (length s) by lia.
    rewrite firstn_all. symmetry. apply firstn_all2. lia.
Qed.

Lemma substring_0_all s n :
  Z.of_nat (length s) <= n -> substring s 0 n = s.
Proof.
  intros H. rewrite substring_0_firstn by lia. apply firstn_all2. lia.
Qed.

Lemma substring_0_none s n : n <= 0 -> substring s 0 n = [].
Proof.
  intros H. unfold substring, clampIndex.
  replace (Z.to_nat (Z.min (Z.max 0 0) (Z.of_nat (length s)))) with 0%nat by lia.
  replace (Z.to_nat (Z.min (Z.max n 0) (Z.of_nat (length s)))) with 0%nat by lia.
  reflexivity.
Qed.

Lemma length_substring_0 s n :
  0 <= n -> (length (substring s 0 n) <= Z.to_nat n)%nat.
Proof.
  intros Hn. unfold substring, clampIndex.
  rewrite length_firstn, length_skipn. lia.
Qed.

Lemma length_substring_le s a b : (length (substring s a b) <= length s)%nat.
Proof.
  unfold substring. rewrite length_firstn, length_skipn. lia.
Qed.

Lemma length_statementSlugOf s : (length (statementSlugOf s) <= 50)%nat.
Proof. unfold statementSlugOf. apply (length_substring_0 _ 50). lia. Qed.

Lemma length_examSlugOf s : (length (examSlugOf s) <= 30)%nat.
Proof. unfold examSlugOf. apply (length_substring_0 _ 30). lia. Qed.

Lemma length_topicSlugOf s : (length (topicSlugOf s) <= 30)%nat.
Proof. unfold topicSlugOf. apply (length_substring_0 _ 30). lia. Qed.

(** The joined parts take at most 50 + 30 + 30 + 30 characters and three
    hyphens. *)
Lemma length_joinedSlug q : (length (joinedSlug q) <= 143)%nat.
Proof.
  unfold joinedSlug.
  set (st := statementSlugOf _). set (ex := examSlugOf _). set (tp := topicSlugOf _).
  set (sub := match subExam q with Some _ => _ | None => _ end).
  assert (Hst : (length st <= 50)%nat) by apply length_statementSlugOf.
  assert (Hex : (length ex <= 30)%nat) by apply length_examSlugOf.
  assert (Htp : (length tp <= 30)%nat) by apply length_topicSlugOf.
  assert (Hsub : (length sub <= 30)%nat).
  { subst sub. destruct (subExam q) as [s|]; [|simpl; lia].
    destruct (nonEmpty s && negb (streq s (lit "General"))); [|simpl; lia].
    apply (length_substring_0 _ 30). lia. }
  clearbody st ex tp sub.
  destruct (nonEmpty sub); destruct (nonEmpty tp); cbn [join app];
    repeat rewrite length_app; change (length (lit "-")) with 1%nat; lia.
Qed.

Lemma joinedSlug_short q : (jslength (joinedSlug q) >? 200) = false.
Proof.
  unfold jslength. pose proof (length_joinedSlug q).
  rewrite Z.gtb_ltb. apply Z.ltb_ge. lia.
Qed.

(** [buildBaseSlug] without the branch that is never taken. *)
Lemma buildBaseSlug_eq q :
  buildBaseSlug q =
  if negb (nonEmpty (statement q)) || negb (truthy (exam q)) || negb (truthy (topic q))
  then questionFallback q
  else if nonEmpty (sanitizeSlug (joinedSlug q)) then sanitizeSlug (joinedSlug q)
       else questionFallback q.
Proof.
  unfold buildBaseSlug. now rewrite joinedSlug_short.
Qed.

(** ** The final sanitization *)

Lemma replaceOutside_class keep r s :
  keep r = true -> Forall (fun c => keep c = true) (replaceOutside keep r s).
Proof.
  intros Hr. unfold replaceOutside. induction s as [|c s IH]; simpl; constructor; auto.
  destruct (keep c) eqn:E; auto.
Qed.

Lemma replaceRuns_Forall (P : ascii -> Prop) p r s :
  P r -> Forall P s -> Forall P (replaceRuns p r s).
Proof.
  intros Hr Hs. induction Hs as [|c s Hc Hs IH]; simpl; [constructor|].
  destruct (p c).
  - destruct s as [|c' s']; [repeat constructor; auto|].
    destruct (p c'); [exact IH | constructor; auto].
  - constructor; auto.
Qed.

Lemma length_replaceRuns p r s : (length (replaceRuns p r s) <= length s)%nat.
Proof.
  induction s as [|c s IH]; simpl; [lia|].
  destruct (p c).
  - destruct s as [|c' s']; [simpl; lia|].
    destruct (p c'); simpl in *; lia.
  - simpl. lia.
Qed.

Lemma replaceRuns_noDoubleHyphen s :
  noDoubleHyphen (replaceRuns isHyphen "-"%char s).
Proof.
  induction s as [|c s IH]; intros l1 x y l2 E Hx Hy.
  - destruct l1; discriminate.
  - simpl in E. destruct (isHyphen c) eqn:Hc.
    + destruct s as [|c' s'].
      * destruct l1 as [|? [|? ?]]; discriminate.
      * destruct (isHyphen c') eqn:Hc'.
        -- exact (IH l1 x y l2 E Hx Hy).
        -- destruct l1 as [|a l1].
           ++ simpl in E. rewrite Hc' in E. injection E as _ E _. congruence.
           ++ injection E as _ E. exact (IH l1 x y l2 E Hx Hy).
    + destruct l1 as [|a l1].
      * injection E as E _. congruence.
      * injection E as _ E. exact (IH l1 x y l2 E Hx Hy).
Qed.

Lemma dropFirstHyphen_Forall (P : ascii -> Prop) s :
  Forall P s -> Forall P (dropFirstHyphen s).
Proof.
  intros H. destruct H as [|c s Hc Hs]; simpl; [constructor|].
  destruct (isHyphen c); [assumption | now constructor].
Qed.

Lemma length_dropFirstHyphen s : (length (dropFirstHyphen s) <= length s)%nat.
Proof. destruct s as [|c s]; simpl; [lia|]. destruct (isHyphen c); simpl; lia. Qed.

Lemma dropFirstHyphen_head s :
  noDoubleHyphen s -> headNotHyphen (dropFirstHyphen s).
Proof.
  intros H c r E. destruct s as [|a s]; simpl in E; [discriminate|].
  destruct (isHyphen a) eqn:Ha.
  - subst s. destruct (isHyphen c) eqn:Hc; [|reflexivity].
    exfalso. exact (H [] a c r eq_refl Ha Hc).
  - injection E as -> _. exact Ha.
Qed.

Lemma dropFirstHyphen_noDouble s :
  noDoubleHyphen s -> noDoubleHyphen (dropFirstHyphen s).
Proof.
  intros H. destruct s as [|a s]; simpl; [assumption|].
  destruct (isHyphen a); [|assumption].
  intros l1 x y l2 E. apply (H (a :: l1) x y l2). now rewrite E.
Qed.

Lemma dropFirstHyphen_last s :
  lastNotHyphen s -> lastNotHyphen (dropFirstHyphen s).
Proof.
  intros H. destruct s as [|a s]; simpl; [assumption|].
  destruct (isHyphen a); [|assumption].
  intros l c E. apply (H (a :: l) c). now rewrite E.
Qed.

Lemma rev_noDouble s : noDoubleHyphen s -> noDoubleHyphen (rev s).
Proof.
  intros H l1 x y l2 E Hx Hy.
  apply (f_equal (@rev ascii)) in E. rewrite rev_involutive in E.
  rewrite rev_app_distr in E. simpl in E. rewrite <- !app_assoc in E. simpl in E.
  exact (H (rev l2) y x (rev l1) E Hy Hx).
Qed.

Lemma rev_head_last s : headNotHyphen s -> lastNotHyphen (rev s).
Proof.
  intros H l c E. apply (f_equal (@rev ascii)) in E.
  rewrite rev_involutive, rev_app_distr in E. simpl in E. exact (H c (rev l) E).
Qed.

Lemma rev_last_head s : lastNotHyphen s -> headNotHyphen (rev s).
Proof.
  intros H c r E. apply (f_equal (@rev ascii)) in E.
  rewrite rev_involutive in E. simpl in E. exact (H (rev r) c E).
Qed.

Lemma stripEndHyphens_ends s :
  noDoubleHyphen s ->
  headNotHyphen (stripEndHyphens s) /\ lastNotHyphen (stripEndHyphens s).
Proof.
  intros H. unfold stripEndHyphens.
  assert (H1 := dropFirstHyphen_head s H).
  assert (N1 := dropFirstHyphen_noDouble s H).
  assert (L2 := rev_head_last _ H1).
  assert (N2 := rev_noDouble _ N1).
  assert (H3 := dropFirstHyphen_head _ N2).
  assert (L3 := dropFirstHyphen_last _ L2).
  split; [now apply rev_last_head | now apply rev_head_last].
Qed.

Lemma sanitizeSlug_chars s : Forall (fun c => isSlugChar c = true) (sanitizeSlug s).
Proof.
  unfold sanitizeSlug, stripEndHyphens.
  apply Forall_rev, dropFirstHyphen_Forall, Forall_rev, dropFirstHyphen_Forall.
  apply replaceRuns_Forall; [reflexivity|].
  now apply replaceOutside_class.
Qed.

Lemma sanitizeSlug_ends s :
  headNotHyphen (sanitizeSlug s) /\ lastNotHyphen (sanitizeSlug s).
Proof.
  unfold sanitizeSlug. apply stripEndHyphens_ends, replaceRuns_noDoubleHyphen.
Qed.

Lemma length_sanitizeSlug s : (length (sanitizeSlug s) <= length s)%nat.
Proof.
  unfold sanitizeSlug, stripEndHyphens.
  rewrite length_rev.
  etransitivity; [apply length_dropFirstHyphen|]. rewrite length_rev.
  etransitivity; [apply length_dropFirstHyphen|].
  etransitivity; [apply length_replaceRuns|].
  unfold replaceOutside. now rewrite length_map.
Qed.

Lemma questionFallback_chars q :
  plainInteger (questionNumber q) ->
  Forall (fun c => isSlugChar c = true) (questionFallback q).
Proof.
  intros Hp. unfold questionFallback. apply Forall_app. split.
  - repeat constructor.
  - now apply numToString_slugChars.
Qed.

Lemma questionFallback_ends q :
  plainInteger (questionNumber q) ->
  headNotHyphen (questionFallback q) /\ lastNotHyphen (questionFallback q).
Proof.
  intros Hp. unfold questionFallback. split.
  - intros c r E. simpl in E. injection E as <- _. reflexivity.
  - intros l c E.
    destruct (numToString_shape (questionNumber q)) as (c0 & t & En & _).
    assert (Hne : numToString (questionNumber q) <> []) by (rewrite En; discriminate).
    destruct (exists_last Hne) as (l' & c' & El).
    rewrite El, app_assoc in E. apply app_inj_tail in E. destruct E as [_ <-].
    apply isDigit_not_hyphen. eapply numToString_last; [exact Hp | exact El].
Qed.

Lemma questionFallback_nonempty q : questionFallback q <> [].
Proof. unfold questionFallback. discriminate. Qed.

Lemma nonEmpty_true_iff s : nonEmpty s = true <-> s <> [].
Proof. destruct s; simpl; split; congruence. Qed.

(* ================================================================== *)
(** * The base slug *)
(* ================================================================== *)

(** C6, as the code has it. The parts of the slug that [buildBaseSlug]
    joins never pass 200 characters (they take at most 143), so the
    truncation to 180 characters and [-q<questionNumber>] is never needed.
    For a question whose number is an integer of magnitude below 10^21,
    the string [buildBaseSlug] returns has at most 200 characters, all of
    them in [a-z0-9-], and neither starts nor ends with a hyphen. *)
Theorem buildBaseSlug_wellformed (q : Question)
  (Hplain : plainInteger (questionNumber q)) :
  jslength (joinedSlug q) <= 200
  /\ (length (buildBaseSlug q) <= 200)%nat
  /\ Forall (fun c => isSlugChar c = true) (buildBaseSlug q)
  /\ headNotHyphen (buildBaseSlug q)
  /\ lastNotHyphen (buildBaseSlug q).
Proof.
  pose proof (length_joinedSlug q) as Hj.
  assert (Hf : (length (questionFallback q) <= 200)%nat).
  { unfold questionFallback. rewrite length_app.
    pose proof (length_numToString _ Hplain).
    change (length (lit "question-")) with 9%nat. lia. }
  pose proof (questionFallback_chars q Hplain) as Hc.
  pose proof (questionFallback_ends q Hplain) as [Hh Hl].
  split; [unfold jslength; lia|].
  rewrite buildBaseSlug_eq.
  destruct (negb (nonEmpty (statement q)) || negb (truthy (exam q))
            || negb (truthy (topic q))).
  - repeat split; assumption.
  - destruct (nonEmpty (sanitizeSlug (joinedSlug q))).
    + repeat split; auto using sanitizeSlug_chars; try apply sanitizeSlug_ends.
      pose proof (length_sanitizeSlug (joinedSlug q)). lia.
    + repeat split; assumption.
Qed.

Lemma buildBaseSlug_wellformed_witness :
  buildBaseSlug qSymbols = lit "question-42"
  /\ (length (buildBaseSlug qSymbols) <= 200)%nat
  /\ Forall (fun c => isSlugChar c = true) (buildBaseSlug qSymbols)
  /\ headNotHyphen (buildBaseSlug q7)
  /\ lastNotHyphen (buildBaseSlug q7).
Proof.
  assert (H42 : plainInteger (questionNumber qSymbols)).
  { unfold plainInteger. simpl. lia. }
  assert (H7 : plainInteger (questionNumber q7)).
  { unfold plainInteger. simpl. lia. }
  destruct (buildBaseSlug_wellformed qSymbols H42) as (_ & Hlen & Hchars & _).
  destruct (buildBaseSlug_wellformed q7 H7) as (_ & _ & _ & Hhead & Hlast).
  split; [vm_compute; reflexivity|].
  split; [exact Hlen|]. split; [exact Hchars|]. split; assumption.
Defined.

(** C6, as stated, fails: from 10^21 on a number is printed in exponent
    form, and for the question without a topic whose number is 10^21
    [buildBaseSlug] returns [question-1e+21], with a plus sign. *)
Lemma buildBaseSlug_exponent_counterexample :
  buildBaseSlug qHuge = lit "question-1e+21"
  /\ ~ Forall (fun c => isSlugChar c = true) (buildBaseSlug qHuge)
  /\ ~ everyBaseSlugWellformed.
Proof.
  assert (E : buildBaseSlug qHuge = lit "question-1e+21") by (vm_compute; reflexivity).
  assert (H : ~ Forall (fun c => isSlugChar c = true) (buildBaseSlug qHuge)).
  { rewrite E. intros H. rewrite Forall_forall in H.
    assert (Hplus : isSlugChar "+"%char = true).
    { apply H. vm_compute. tauto. }
    discriminate Hplus. }
  split; [exact E|]. split; [exact H|].
  intros Hall. apply H. exact (proj1 (proj2 (Hall qHuge))).
Qed.

(** C10. For a question with statement, exam and topic all present,
    [buildBaseSlug], and with it [generateQuickSlug], never returns the
    empty string: when the sanitization leaves no character of the joined
    parts, the function returns [question-<questionNumber>]. *)
Theorem buildBaseSlug_never_empty (q : Question)
  (Hs : nonEmpty (statement q) = true)
  (He : truthy (exam q) = true)
  (Ht : truthy (topic q) = true) :
  buildBaseSlug q <> []
  /\ generateQuickSlug q = buildBaseSlug q
  /\ generateQuickSlug q <> []
  /\ (sanitizeSlug (joinedSlug q) = [] ->
      buildBaseSlug q = lit "question-" ++ numToString (questionNumber q)).
Proof.
  assert (Hq : generateQuickSlug q = buildBaseSlug q).
  { unfold generateQuickSlug. now rewrite Hs, He, Ht. }
  assert (Hne : buildBaseSlug q <> []).
  { rewrite buildBaseSlug_eq, Hs, He, Ht. cbn [negb orb].
    destruct (nonEmpty (sanitizeSlug (joinedSlug q))) eqn:E.
    - now apply nonEmpty_true_iff.
    - apply questionFallback_nonempty. }
  repeat split; auto.
  - now rewrite Hq.
  - intros E. rewrite buildBaseSlug_eq, Hs, He, Ht, E. reflexivity.
Qed.

Lemma buildBaseSlug_never_empty_witness :
  sanitizeSlug (joinedSlug qSymbols) = []
  /\ buildBaseSlug qSymbols = lit "question-42"
  /\ generateQuickSlug qSymbols <> [].
Proof.
  destruct (buildBaseSlug_never_empty qSymbols eq_refl eq_refl eq_refl)
    as (_ & _ & H3 & H4).
  assert (E : sanitizeSlug (joinedSlug qSymbols) = []) by (vm_compute; reflexivity).
  split; [exact E|]. split; [exact (H4 E) | exact H3].
Defined.

(* ================================================================== *)
(** * The title *)
(* ================================================================== *)

(** C8. The string [generateTitle] returns has at most 120 characters. *)
Theorem generateTitle_length (q : Question) :
  (length (generateTitle q) <= 120)%nat.
Proof.
  unfold generateTitle, titleFrom.
  apply (length_substring_0 _ 120). lia.
Qed.

Lemma startsWith_map (f : ascii -> ascii) s p :
  startsWith s p = true -> startsWith (map f s) (map f p) = true.
Proof.
  revert s. induction p as [|c p IH]; intros s H; [reflexivity|].
  destruct s as [|d s]; [discriminate|]. simpl in *.
  apply andb_prop in H. destruct H as [H1 H2].
  apply Ascii.eqb_eq in H1. subst d. rewrite Ascii.eqb_refl. simpl. auto.
Qed.

Lemma startsWith_app s p1 p2 :
  startsWith s (p1 ++ p2) = true -> startsWith s p1 = true.
Proof.
  revert s. induction p1 as [|c p1 IH]; intros s H; [reflexivity|].
  destruct s as [|d s]; [discriminate|]. simpl in *.
  apply andb_prop in H. destruct H as [H1 H2]. rewrite H1. simpl. eauto.
Qed.

(** A statement that starts with [http://] or [https://] in lower case
    is an image reference for the classifier and starts with [http]. *)
Lemma lowercase_address_is_image (s : jsstring) :
  startsWith s (lit "http://") = true \/ startsWith s (lit "https://") = true ->
  isImageUrl s = true /\ startsWith s (lit "http") = true.
Proof.
  intros H. split.
  - unfold isImageUrl.
    destruct H as [H|H]; apply (startsWith_map lowerChar) in H;
      change (map lowerChar s) with (toLowerCase s) in H.
    + change (map lowerChar (lit "http://")) with (lit "http://") in H.
      now rewrite H.
    + change (map lowerChar (lit "https://")) with (lit "https://") in H.
      rewrite H. now rewrite orb_true_r.
  - destruct H as [H|H].
    + apply (startsWith_app _ (lit "http") (lit "://")). exact H.
    + apply (startsWith_app _ (lit "http") (lit "s://")). exact H.
Qed.





(** The same holds for an address written in capitals, which the
    classifier reads in lower case and [generateTitle] as it is. *)
Lemma generateTitle_capitals_example :
  isImageUrl (statement qImageUpper) = true
  /\ startsWith (statement qImageUpper) (lit "http") = false
  /\ generateTitle qImageUpper = lit "HTTPS://EXAMPLE.COM/Q13 | CAT Easy | Geometry".
Proof. repeat split; vm_compute; reflexivity. Qed.

(* ================================================================== *)
(** * The keywords *)
(* ================================================================== *)

Lemma existsb_sameString x l : existsb (sameString x) l = true <-> In x l.
Proof.
  rewrite existsb_exists. split.
  - intros (y & Hy & E). apply streq_true_iff in E. now subst.
  - intros H. exists x. split; [assumption | apply streq_refl].
Qed.





Lemma filter_filter {A : Type} (f g : A -> bool) l :
  filter f (filter g l) = filter (fun x => g x && f x) l.
Proof.
  induction l as [|x l IH]; simpl; [reflexivity|].
  destruct (g x); simpl; [destruct (f x)|]; now rewrite IH.
Qed.








Lemma falsy_orElse a b : isFalsy (orElse a b) = isFalsy a && isFalsy b.
Proof. unfold orElse. destruct a; simpl; try reflexivity. Qed.

Lemma inheritedMember_cases k :
  (inheritedMember k = InheritedMethod /\ isInheritedMethod k = true)
  \/ (inheritedMember k = ObjectPrototype /\ k = lit "__proto__")
  \/ inheritedMember k = Undefined.
Proof.
  unfold inheritedMember. destruct (isInheritedMethod k); [now left|].
  destruct (sameString k (lit "__proto__")) eqn:E; [|now right; right].
  apply streq_true_iff in E. right; left. now split.
Qed.

Lemma prototypeMember_cases k :
  (prototypeMember k = InheritedMethod /\ isInheritedMethod k = true)
  \/ isFalsy (prototypeMember k) = true.
Proof.
  unfold prototypeMember. destruct (isInheritedMethod k); [now left|].
  right. now destruct (sameString k (lit "__proto__")).
Qed.

Lemma subExamEntry_cases table k :
  (exists kws, subExamEntry table k = KeywordList kws)
  \/ subExamEntry table k = inheritedMember k.
Proof.
  unfold subExamEntry. destruct (Map_get sameString table k); [left; eauto | now right].
Qed.

Lemma Map_get_value {K V : Type} (eqk : K -> K -> bool) (m : JsMap K V) k v :
  Map_get eqk m k = Some v -> In v (map snd m).
Proof.
  induction m as [|[k' v'] m IH]; simpl; [discriminate|].
  destruct (eqk k' k); [intros [= ->]; now left | auto].
Qed.

Lemma examEntry_cases e :
  (exists kws, examEntry e = KeywordList kws)
  \/ (exists table, examEntry e = SubExamTable table)
  \/ examEntry e = inheritedMember e.
Proof.
  unfold examEntry. destruct (Map_get sameString EXAM_KEYWORD_MAP e) as [v|] eqn:E.
  - apply Map_get_value in E. simpl in E.
    repeat (destruct E as [E|E]; [subst v; eauto|]). destruct E.
  - now right; right.
Qed.

(** What [examKeywordsOf] gives when it is not an array. *)
Lemma examKeywordsOf_cases q :
  (exists kws, examKeywordsOf q = KeywordList kws)
  \/ (exists e, exam q = Some e /\
       (isInheritedMethod e = true
        \/ exists s, subExam q = Some s /\
           (isInheritedMethod s = true \/ s = lit "__proto__"))).
Proof.
  unfold examKeywordsOf. destruct (exam q) as [e|]; [|left; eauto].
  destruct (nonEmpty e); [|left; eauto].
  unfold getExamSpecificKeywords.
  set (key := if truthy (subExam q) then tmpl (subExam q) else lit "_default").
  assert (Hkey : isInheritedMethod key = true \/ key = lit "__proto__" ->
                 exists s, subExam q = Some s /\
                   (isInheritedMethod s = true \/ s = lit "__proto__")).
  { subst key. destruct (subExam q) as [s|]; simpl.
    - destruct (nonEmpty s); [eauto|].
      intros [H|H]; [vm_compute in H; discriminate | inversion H].
    - intros [H|H]; [vm_compute in H; discriminate | inversion H]. }
  assert (Hdef : forall table,
            (exists kws, orElse (subExamEntry table (lit "_default")) (KeywordList [])
                         = KeywordList kws)).
  { intros table. destruct (subExamEntry_cases table (lit "_default")) as [(kws & ->)| ->].
    - eexists. reflexivity.
    - eexists. reflexivity. }
  destruct (examEntry_cases e) as [(kws & ->) | [(table & ->) | -> ]].
  - left. eexists. reflexivity.
  - simpl. destruct (subExamEntry_cases table key) as [(kws & ->)| ->].
    + left. eexists. reflexivity.
    + destruct (inheritedMember_cases key) as [(-> & H)|[(-> & H)| ->]].
      * right. exists e. split; [reflexivity|]. right. apply Hkey. now left.
      * right. exists e. split; [reflexivity|]. right. apply Hkey. now right.
      * left. apply Hdef.
  - destruct (inheritedMember_cases e) as [(-> & H)|[(-> & H)| ->]].
    + right. exists e. split; [reflexivity|]. now left.
    + simpl. destruct (prototypeMember_cases key) as [(-> & H')|H'].
      * right. exists e. split; [reflexivity|]. right. apply Hkey. now left.
      * left. unfold orElse at 1. rewrite H'. eexists. reflexivity.
    + left. eexists. reflexivity.
Qed.








(* ================================================================== *)
(** * Maps of buckets *)
(* ================================================================== *)

Lemma Map_has_keys {V : Type} (m : JsMap jsstring V) k :
  Map_has sameString m k = existsb (sameString k) (Map_keys m).
Proof.
  unfold Map_has, Map_keys. induction m as [|[k' v] m IH]; simpl; [reflexivity|].
  unfold sameString in *.
  destruct (streq k' k) eqn:E.
  - apply streq_true_iff in E. subst. now rewrite streq_refl.
  - apply streq_false_iff in E.
    assert (E' : streq k k' = false) by (apply streq_false_iff; congruence).
    now rewrite E', IH.
Qed.

Lemma pushInto_get {A : Type} (m : JsMap jsstring (list A)) k x k' :
  Map_get sameString (pushInto m k x) k' =
  if sameString k k'
  then Some (match Map_get sameString m k with Some b => b | None => [] end ++ [x])
  else Map_get sameString m k'.
Proof.
  unfold pushInto, Map_has.
  destruct (Map_get sameString m k) as [b|] eqn:E; simpl.
  - rewrite E. destruct (sameString k k') eqn:Ek.
    + apply streq_true_iff in Ek. subst k'.
      apply (Map_get_set_same sameString streq_true_iff).
    + apply streq_false_iff in Ek.
      now apply (Map_get_set_other sameString streq_true_iff).
  - rewrite (Map_get_set_same sameString streq_true_iff).
    destruct (sameString k k') eqn:Ek.
    + apply streq_true_iff in Ek. subst k'.
      apply (Map_get_set_same sameString streq_true_iff).
    + apply streq_false_iff in Ek.
      rewrite !(Map_get_set_other sameString streq_true_iff) by assumption.
      reflexivity.
Qed.

Lemma pushInto_keys {A : Type} (m : JsMap jsstring (list A)) k x :
  Map_keys (pushInto m k x) = Set_add (Map_keys m) k.
Proof.
  unfold pushInto, Set_add. rewrite <- Map_has_keys. unfold Map_has.
  destruct (Map_get sameString m k) as [b|] eqn:E; simpl.
  - rewrite E. rewrite (Map_keys_set sameString). unfold Map_has. now rewrite E.
  - rewrite (Map_get_set_same sameString streq_true_iff).
    rewrite !(Map_keys_set sameString). unfold Map_has.
    rewrite (Map_get_set_same sameString streq_true_iff). now rewrite E.
Qed.

Section Grouping.
Context {T A : Type}.
Variable key : T -> option jsstring.
Variable val : T -> A.

Lemma extendBucket_assoc (old : option (list A)) (x : A) more :
  extendBucket (Some (match old with Some b => b | None => [] end ++ [x])) more =
  extendBucket old (x :: more).
Proof.
  unfold extendBucket. destruct old; simpl; rewrite <- ?app_assoc; reflexivity.
Qed.

Lemma fileItems_get items : forall m k,
  Map_get sameString (fold_left (fileItem key val) items m) k =
  extendBucket (Map_get sameString m k) (map val (filter (hasKey key k) items)).
Proof.
  induction items as [|t items IH]; intros m k; simpl.
  - unfold extendBucket. destruct (Map_get sameString m k); simpl;
      now rewrite ?app_nil_r.
  - rewrite IH. unfold fileItem, hasKey.
    destruct (key t) as [k'|]; [|reflexivity].
    rewrite pushInto_get. destruct (sameString k' k) eqn:E; [|reflexivity].
    apply streq_true_iff in E. subst k'. simpl. apply extendBucket_assoc.
Qed.

Lemma fileItems_keys items : forall m,
  Map_keys (fold_left (fileItem key val) items m) =
  fold_left Set_add (keepSome (map key items)) (Map_keys m).
Proof.
  induction items as [|t items IH]; intros m; simpl; [reflexivity|].
  rewrite IH. unfold fileItem. destruct (key t) as [k|]; simpl; [|reflexivity].
  now rewrite pushInto_keys.
Qed.

Lemma fileItems_groupedBy items :
  groupedBy key val items (fold_left (fileItem key val) items []).
Proof.
  split.
  - now rewrite fileItems_keys.
  - intros k. rewrite fileItems_get. simpl.
    now destruct (map val (filter (hasKey key k) items)).
Qed.
End Grouping.

(* ================================================================== *)
(** * The question indexes *)
(* ================================================================== *)

Lemma fold_left_projection {S M X : Type} (step : S -> X -> S) (proj : S -> M)
  (stepM : M -> X -> M) :
  (forall s x, proj (step s x) = stepM (proj s) x) ->
  forall xs s, proj (fold_left step xs s) = fold_left stepM xs (proj s).
Proof.
  intros H xs. induction xs as [|x xs IH]; intros s; simpl; [reflexivity|].
  now rewrite IH, H.
Qed.

Lemma indexQuestion_byTopic ix q :
  byTopic (indexQuestion ix q) = fileItem topicKey (fun q => q) (byTopic ix) q.
Proof.
  unfold indexQuestion, fileItem, topicKey. simpl.
  destruct (topic q) as [t|]; simpl; [|reflexivity]. now destruct (nonEmpty t).
Qed.

Lemma indexQuestion_byCategory ix q :
  byCategory (indexQuestion ix q) = fileItem categoryKey (fun q => q) (byCategory ix) q.
Proof.
  unfold indexQuestion, fileItem, categoryKey. simpl.
  destruct (category q) as [t|]; simpl; [|reflexivity]. now destruct (nonEmpty t).
Qed.

Lemma indexQuestion_byExam ix q :
  byExam (indexQuestion ix q) = fileItem examKey (fun q => q) (byExam ix) q.
Proof.
  unfold indexQuestion, fileItem, examKey. simpl.
  destruct (exam q) as [t|]; simpl; [|reflexivity]. now destruct (nonEmpty t).
Qed.

Lemma indexQuestion_byExamAndTopic ix q :
  byExamAndTopic (indexQuestion ix q) =
  fileItem examTopicKey (fun q => q) (byExamAndTopic ix) q.
Proof.
  unfold indexQuestion, fileItem, examTopicKey. simpl.
  now destruct (truthy (exam q) && truthy (topic q)).
Qed.

Lemma indexQuestion_byQuestionNumber ix q :
  byQuestionNumber (indexQuestion ix q) =
  Map_set Z.eqb (byQuestionNumber ix) (questionNumber q) q.
Proof. reflexivity. Qed.

Lemma fold_Map_set_get (qs : list Question) : forall (m : JsMap Z Question) n,
  Map_get Z.eqb
    (fold_left (fun m q => Map_set Z.eqb m (questionNumber q) q) qs m) n =
  match find (fun q => questionNumber q =? n) (rev qs) with
  | Some q => Some q
  | None => Map_get Z.eqb m n
  end.
Proof.
  induction qs as [|q qs IH] using rev_ind; intros m n; simpl; [reflexivity|].
  rewrite fold_left_app, rev_app_distr. simpl.
  destruct (questionNumber q =? n) eqn:E.
  - apply Z.eqb_eq in E. subst n. apply (Map_get_set_same Z.eqb Zeqb_spec).
  - apply Z.eqb_neq in E.
    rewrite (Map_get_set_other Z.eqb Zeqb_spec) by assumption. apply IH.
Qed.

(** C9. Two applications of [buildQuestionIndexes] to one list of
    questions give the same five tables, keys and buckets in the same
    order, because the list alone determines them: each of the four
    grouping tables has as keys the keys of the questions in the order of
    their first occurrence and as the bucket of a key the questions with
    this key in the order of the list, and [byQuestionNumber] gives for a
    number the last question of the list with this number. *)
Theorem buildQuestionIndexes_deterministic (questions : list Question) :
  let first := buildQuestionIndexes questions in
  let second := buildQuestionIndexes questions in
  first = second
  /\ groupedBy topicKey (fun q => q) questions (byTopic first)
  /\ groupedBy categoryKey (fun q => q) questions (byCategory first)
  /\ groupedBy examKey (fun q => q) questions (byExam first)
  /\ groupedBy examTopicKey (fun q => q) questions (byExamAndTopic first)
  /\ (forall n, Map_get Z.eqb (byQuestionNumber first) n =
                find (fun q => questionNumber q =? n) (rev questions)).
Proof.
  cbv zeta. unfold buildQuestionIndexes.
  split; [reflexivity|].
  rewrite (fold_left_projection indexQuestion byTopic _ indexQuestion_byTopic).
  rewrite (fold_left_projection indexQuestion byCategory _ indexQuestion_byCategory).
  rewrite (fold_left_projection indexQuestion byExam _ indexQuestion_byExam).
  rewrite (fold_left_projection indexQuestion byExamAndTopic _
             indexQuestion_byExamAndTopic).
  rewrite (fold_left_projection indexQuestion byQuestionNumber
             (fun m q => Map_set Z.eqb m (questionNumber q) q)
             indexQuestion_byQuestionNumber).
  simpl.
  repeat split; try apply fileItems_groupedBy.
  intros n. rewrite fold_Map_set_get. simpl.
  now destruct (find _ _).
Qed.

(* ================================================================== *)
(** * Sorting and ranks *)
(* ================================================================== *)

Lemma insertBy_perm {A : Type} (cmp : A -> A -> Z) x l :
  Permutation (insertBy cmp x l) (x :: l).
Proof.
  induction l as [|y l IH]; simpl; [reflexivity|].
  destruct (cmp x y <=? 0); [reflexivity|].
  rewrite IH. apply perm_swap.
Qed.

Lemma sortBy_perm {A : Type} (cmp : A -> A -> Z) l :
  Permutation (sortBy cmp l) l.
Proof.
  induction l as [|x l IH]; simpl; [reflexivity|].
  rewrite insertBy_perm. now constructor.
Qed.

Lemma insertBy_sorted x l :
  StronglySorted Z.le l -> StronglySorted Z.le (insertBy (fun a b => a - b) x l).
Proof.
  induction 1 as [|y l Hs IH Hall]; simpl; [repeat constructor|].
  destruct (x - y <=? 0) eqn:E.
  - apply Z.leb_le in E. constructor; [now constructor|].
    constructor; [lia|]. eapply Forall_impl; [|exact Hall]. intros; simpl in *; lia.
  - apply Z.leb_gt in E. constructor; [assumption|].
    eapply Permutation_Forall; [symmetry; apply insertBy_perm|].
    constructor; [lia | assumption].
Qed.

Lemma sortBy_sorted l : StronglySorted Z.le (sortBy (fun a b => a - b) l).
Proof.
  induction l as [|x l IH]; simpl; [constructor | now apply insertBy_sorted].
Qed.

Lemma filter_below_none n l :
  Forall (Z.le n) l -> filter (fun m => m <? n) l = [].
Proof.
  induction 1 as [|y l Hy Hl IH]; simpl; [reflexivity|].
  destruct (y <? n) eqn:E; [apply Z.ltb_lt in E; lia | assumption].
Qed.

Lemma indexOfFrom_sorted l : forall n i,
  StronglySorted Z.le l -> In n l ->
  indexOfFrom l n i = i + Z.of_nat (length (filter (fun m => m <? n) l)).
Proof.
  induction l as [|y l IH]; intros n i Hs Hin; [destruct Hin|].
  inversion Hs as [|? ? Hs' Hall]; subst. simpl.
  destruct (y =? n) eqn:E.
  - apply Z.eqb_eq in E. subst y. rewrite Z.ltb_irrefl.
    rewrite filter_below_none by assumption. simpl. lia.
  - apply Z.eqb_neq in E. destruct Hin as [Hin|Hin]; [contradiction|].
    assert (Hy : y <= n) by (rewrite Forall_forall in Hall; auto).
    assert (Hlt : (y <? n) = true) by (apply Z.ltb_lt; lia).
    rewrite Hlt. simpl length. rewrite IH by assumption. lia.
Qed.

Lemma nth_error_sorted l : forall n,
  StronglySorted Z.le l -> In n l ->
  nth_error l (length (filter (fun m => m <? n) l)) = Some n.
Proof.
  induction l as [|y l IH]; intros n Hs Hin; [destruct Hin|].
  inversion Hs as [|? ? Hs' Hall]; subst. simpl.
  destruct (Z.eq_dec y n) as [->|Hne].
  - rewrite Z.ltb_irrefl. now rewrite filter_below_none by assumption.
  - destruct Hin as [Hin|Hin]; [contradiction|].
    assert (Hy : y <= n) by (rewrite Forall_forall in Hall; auto).
    assert (Hlt : (y <? n) = true) by (apply Z.ltb_lt; lia).
    rewrite Hlt. simpl. now apply IH.
Qed.

Lemma filter_length_perm {A : Type} (f : A -> bool) l l' :
  Permutation l l' -> length (filter f l) = length (filter f l').
Proof.
  induction 1 as [|x l l' _ IH|x y l|l l' l'' _ IH1 _ IH2]; simpl.
  - reflexivity.
  - destruct (f x); simpl; now rewrite IH.
  - destruct (f x); destruct (f y); reflexivity.
  - now rewrite IH1.
Qed.

(** The index the second loop computes is the rank. *)
Lemma indexOf_sorted_rank numbers n :
  In n numbers ->
  indexOf (sortBy (fun a b => a - b) numbers) n + 1 = rankIn numbers n.
Proof.
  intros Hin. unfold indexOf, rankIn.
  rewrite indexOfFrom_sorted.
  - rewrite (filter_length_perm _ _ _ (sortBy_perm _ numbers)). lia.
  - apply sortBy_sorted.
  - eapply Permutation_in; [symmetry; apply sortBy_perm | assumption].
Qed.

Lemma rankIn_position numbers n :
  In n numbers -> positionInSorted numbers n (rankIn numbers n).
Proof.
  intros Hin. exists (sortBy (fun a b => a - b) numbers).
  split; [apply sortBy_perm|]. split; [apply sortBy_sorted|].
  unfold rankIn. split; [lia|].
  replace (Z.to_nat (1 + Z.of_nat (length (filter (fun m => m <? n) numbers)) - 1))
    with (length (filter (fun m => m <? n) numbers)) by lia.
  rewrite <- (filter_length_perm _ _ _ (sortBy_perm (fun a b => a - b) numbers)).
  apply nth_error_sorted; [apply sortBy_sorted|].
  eapply Permutation_in; [symmetry; apply sortBy_perm | assumption].
Qed.

Lemma filter_length_le {A : Type} (f g : A -> bool) l :
  (forall x, f x = true -> g x = true) ->
  (length (filter f l) <= length (filter g l))%nat.
Proof.
  intros H. induction l as [|x l IH]; simpl; [lia|].
  destruct (f x) eqn:E.
  - rewrite (H x E). simpl. lia.
  - destruct (g x); simpl; lia.
Qed.

Lemma filter_length_lt {A : Type} (f g : A -> bool) l a :
  (forall x, f x = true -> g x = true) ->
  In a l -> f a = false -> g a = true ->
  (length (filter f l) < length (filter g l))%nat.
Proof.
  intros H Hin Hf Hg. induction l as [|x l IH]; [destruct Hin|]. simpl.
  destruct Hin as [->|Hin].
  - rewrite Hf, Hg. simpl. pose proof (filter_length_le f g l H). lia.
  - specialize (IH Hin). destruct (f x) eqn:E.
    + rewrite (H x E). simpl. lia.
    + destruct (g x); simpl; lia.
Qed.

Lemma rankIn_lt numbers n m :
  In n numbers -> n < m -> rankIn numbers n < rankIn numbers m.
Proof.
  intros Hin Hlt. unfold rankIn.
  apply Z.add_lt_mono_l, Nat2Z.inj_lt.
  apply (filter_length_lt _ _ _ n); auto.
  - intros x Hx. apply Z.ltb_lt in Hx. apply Z.ltb_lt. lia.
  - apply Z.ltb_irrefl.
  - now apply Z.ltb_lt.
Qed.

Lemma rankIn_inj numbers n m :
  In n numbers -> In m numbers -> rankIn numbers n = rankIn numbers m -> n = m.
Proof.
  intros Hn Hm E. destruct (Z.lt_trichotomy n m) as [H|[H|H]]; [|assumption|].
  - pose proof (rankIn_lt numbers n m Hn H). lia.
  - pose proof (rankIn_lt numbers m n Hm H). lia.
Qed.

(** ** Lists without repetition *)

Lemma NoDup_map_injective {A B : Type} (f : A -> B) l x y :
  NoDup (map f l) -> In x l -> In y l -> f x = f y -> x = y.
Proof.
  induction l as [|a l IH]; intros Hnd Hx Hy E; [destruct Hx|].
  simpl in Hnd. inversion Hnd as [|? ? Hnotin Hnd']; subst.
  destruct Hx as [->|Hx]; destruct Hy as [->|Hy]; auto.
  - exfalso. apply Hnotin. rewrite E. now apply in_map.
  - exfalso. apply Hnotin. rewrite <- E. now apply in_map.
Qed.

Lemma NoDup_map_filter {A B : Type} (f : A -> B) (p : A -> bool) l :
  NoDup (map f l) -> NoDup (map f (filter p l)).
Proof.
  induction l as [|a l IH]; simpl; intros H; [constructor|].
  inversion H as [|? ? Hnotin Hnd]; subst.
  destruct (p a); simpl; [|auto].
  constructor; [|auto]. intros Hin. apply Hnotin.
  apply in_map_iff in Hin. destruct Hin as (x & E & Hx).
  apply filter_In in Hx. apply in_map_iff. exists x. tauto.
Qed.

Lemma NoDup_two {A : Type} (l : list A) a b :
  NoDup l -> In a l -> In b l -> a <> b -> (2 <= length l)%nat.
Proof.
  intros Hnd Ha Hb Hne.
  assert (H : NoDup [a; b]).
  { constructor; [intros [E|[]]; congruence | repeat constructor; intros []]. }
  apply (NoDup_incl_length H). intros x [<-|[<-|[]]]; assumption.
Qed.

Lemma NoDup_all_equal {A : Type} (l : list A) a :
  NoDup l -> In a l -> (forall x, In x l -> x = a) -> length l = 1%nat.
Proof.
  intros Hnd Hin Hall. destruct l as [|x [|y l]]; [destruct Hin | reflexivity |].
  exfalso. inversion Hnd as [|? ? Hnotin _]; subst. apply Hnotin.
  rewrite (Hall x), (Hall y); simpl; auto.
Qed.

(* ================================================================== *)
(** * The slugs of a batch *)
(* ================================================================== *)

Lemma baseSlugCounts_get questions b :
  Map_get sameString (fold_left recordBaseSlug questions []) b =
  match sharers questions b with [] => None | l => Some l end.
Proof.
  apply (fileItems_groupedBy (fun q => Some (buildBaseSlug q)) questionNumber questions).
Qed.

Lemma sharers_In questions q :
  In q questions -> In (questionNumber q) (sharers questions (buildBaseSlug q)).
Proof.
  intros H. unfold sharers. apply in_map. apply filter_In. split; [assumption|].
  unfold hasKey. apply streq_refl.
Qed.

Lemma sharers_elim questions b n :
  In n (sharers questions b) ->
  exists q, In q questions /\ buildBaseSlug q = b /\ questionNumber q = n.
Proof.
  unfold sharers. intros H. apply in_map_iff in H. destruct H as (q & E & H).
  apply filter_In in H. destruct H as [Hq Hk]. unfold hasKey in Hk.
  apply streq_true_iff in Hk. eauto.
Qed.

Lemma sharers_NoDup questions b :
  NoDup (map questionNumber questions) -> NoDup (sharers questions b).
Proof. apply NoDup_map_filter. Qed.

Lemma assignSlug_eq counts m q numbers :
  Map_get sameString counts (buildBaseSlug q) = Some numbers ->
  assignSlug counts m q =
  Map_set Z.eqb m (questionNumber q)
    (slugFor numbers (buildBaseSlug q) (questionNumber q)).
Proof.
  intros H. unfold assignSlug, slugFor. rewrite H.
  now destruct (length numbers =? 1)%nat.
Qed.

Lemma assignSlug_other counts m q n :
  questionNumber q <> n ->
  Map_get Z.eqb (assignSlug counts m q) n = Map_get Z.eqb m n.
Proof.
  intros Hne. unfold assignSlug.
  destruct (Map_get sameString counts (buildBaseSlug q)); [|reflexivity].
  destruct (length l =? 1)%nat; now apply (Map_get_set_other Z.eqb Zeqb_spec).
Qed.

Lemma fold_assignSlug_other counts qs : forall m n,
  ~ In n (map questionNumber qs) ->
  Map_get Z.eqb (fold_left (assignSlug counts) qs m) n = Map_get Z.eqb m n.
Proof.
  induction qs as [|q qs IH]; intros m n Hn; simpl; [reflexivity|].
  simpl in Hn. rewrite IH by tauto. apply assignSlug_other. tauto.
Qed.

Lemma fold_assignSlug_get counts qs : forall m q numbers,
  NoDup (map questionNumber qs) -> In q qs ->
  Map_get sameString counts (buildBaseSlug q) = Some numbers ->
  Map_get Z.eqb (fold_left (assignSlug counts) qs m) (questionNumber q) =
  Some (slugFor numbers (buildBaseSlug q) (questionNumber q)).
Proof.
  induction qs as [|q0 qs IH]; intros m q numbers Hnd Hin Hget; [destruct Hin|].
  simpl in Hnd. inversion Hnd as [|? ? Hnotin Hnd']; subst. simpl.
  destruct Hin as [->|Hin].
  - rewrite fold_assignSlug_other by assumption.
    rewrite (assignSlug_eq _ _ _ _ Hget).
    apply (Map_get_set_same Z.eqb Zeqb_spec).
  - now apply IH.
Qed.

(** The slug of a question of a list with distinct numbers. *)
Lemma generateAllSlugs_get questions q :
  NoDup (map questionNumber questions) -> In q questions ->
  Map_get Z.eqb (generateAllSlugs questions) (questionNumber q) =
  Some (slugFor (sharers questions (buildBaseSlug q)) (buildBaseSlug q)
          (questionNumber q)).
Proof.
  intros Hnd Hin. unfold generateAllSlugs.
  apply fold_assignSlug_get; try assumption.
  rewrite baseSlugCounts_get.
  pose proof (sharers_In questions q Hin) as H.
  destruct (sharers questions (buildBaseSlug q)); [destruct H | reflexivity].
Qed.

Lemma slugFor_shared numbers base n :
  In n numbers -> (2 <= length numbers)%nat ->
  slugFor numbers base n = base ++ lit "-" ++ numToString (rankIn numbers n).
Proof.
  intros Hin Hlen. unfold slugFor.
  destruct (length numbers =? 1)%nat eqn:E; [apply Nat.eqb_eq in E; lia|].
  now rewrite indexOf_sorted_rank.
Qed.

Lemma slugFor_alone numbers base n :
  length numbers = 1%nat -> slugFor numbers base n = base.
Proof. intros H. unfold slugFor. now rewrite H. Qed.

(** ** Slugs that differ *)

Lemma hyphen_prefix_split (a a' b b' : jsstring) h :
  isHyphen h = true ->
  Forall (fun c => isHyphen c = false) a ->
  Forall (fun c => isHyphen c = false) a' ->
  a ++ h :: b = a' ++ h :: b' -> a = a' /\ b = b'.
Proof.
  intros Hh Ha. revert a'. induction Ha as [|c a Hc Ha IH]; intros a' Ha' E.
  - destruct Ha' as [|c' a' Hc' Ha']; simpl in E.
    + injection E as E. auto.
    + injection E as E _. congruence.
  - destruct Ha' as [|c' a' Hc' Ha']; simpl in E.
    + injection E as E _. congruence.
    + injection E as E1 E2. destruct (IH a' Ha' E2). subst. auto.
Qed.

Lemma positive_hyphenFree r :
  1 <= r -> Forall (fun c => isHyphen c = false) (numToString r).
Proof.
  intros H. rewrite numToString_nonneg by lia. apply posToString_hyphenFree.
Qed.

(** Two slugs with a rank agree only when base slug and rank agree. *)
Lemma suffixed_inj b1 b2 r1 r2 :
  1 <= r1 -> 1 <= r2 ->
  b1 ++ lit "-" ++ numToString r1 = b2 ++ lit "-" ++ numToString r2 ->
  b1 = b2 /\ r1 = r2.
Proof.
  intros H1 H2 E.
  apply (f_equal (@rev ascii)) in E.
  rewrite !rev_app_distr in E. simpl in E. rewrite <- !app_assoc in E. simpl in E.
  apply hyphen_prefix_split in E; [|reflexivity| |].
  - destruct E as [Er Eb].
    apply (f_equal (@rev ascii)) in Er, Eb. rewrite !rev_involutive in Er, Eb.
    split; [assumption | now apply numToString_inj].
  - apply Forall_rev, positive_hyphenFree. assumption.
  - apply Forall_rev, positive_hyphenFree. assumption.
Qed.

Lemma questionFallback_inj q1 q2 :
  questionFallback q1 = questionFallback q2 -> questionNumber q1 = questionNumber q2.
Proof.
  unfold questionFallback. intros E. apply app_inv_head in E.
  now apply numToString_inj.
Qed.

(** A printed number has no hyphen after its first character, so the
    fallback of one question is not the fallback of another with a rank. *)
Lemma questionFallback_not_suffixed q1 q2 r :
  questionFallback q1 <> questionFallback q2 ++ lit "-" ++ numToString r.
Proof.
  unfold questionFallback. intros E.
  rewrite <- app_assoc in E. apply app_inv_head in E.
  destruct (numToString_shape (questionNumber q1)) as (c1 & t1 & E1 & Ht1).
  destruct (numToString_shape (questionNumber q2)) as (c2 & t2 & E2 & _).
  rewrite E1, E2 in E. simpl in E. injection E as _ E.
  rewrite E in Ht1. apply Forall_app in Ht1. destruct Ht1 as [_ Ht1].
  inversion Ht1 as [|? ? Hd _]; subst. discriminate.
Qed.

(** The base slug depends on the question number only where it falls back
    to it. *)
Lemma buildBaseSlug_same_fields q1 q2 :
  statement q1 = statement q2 -> exam q1 = exam q2 -> topic q1 = topic q2 ->
  subExam q1 = subExam q2 ->
  buildBaseSlug q1 = buildBaseSlug q2
  \/ (buildBaseSlug q1 = questionFallback q1 /\ buildBaseSlug q2 = questionFallback q2).
Proof.
  intros Hs He Ht Hsub.
  assert (Hj : joinedSlug q1 = joinedSlug q2).
  { unfold joinedSlug. now rewrite Hs, He, Ht, Hsub. }
  rewrite !buildBaseSlug_eq, Hs, He, Ht, Hj.
  destruct (negb (nonEmpty (statement q2)) || negb (truthy (exam q2))
            || negb (truthy (topic q2))); [now right|].
  destruct (nonEmpty (sanitizeSlug (joinedSlug q2))); [now left | now right].
Qed.

(** The slug of a question is its base slug, alone or with a rank. *)
Lemma generateAllSlugs_forms questions q :
  NoDup (map questionNumber questions) -> In q questions ->
  exists s, Map_get Z.eqb (generateAllSlugs questions) (questionNumber q) = Some s
            /\ (s = buildBaseSlug q
                \/ exists r, 1 <= r /\ s = buildBaseSlug q ++ lit "-" ++ numToString r).
Proof.
  intros Hnd Hin. rewrite (generateAllSlugs_get _ _ Hnd Hin).
  eexists. split; [reflexivity|].
  unfold slugFor. destruct (length _ =? 1)%nat; [now left|].
  right. rewrite indexOf_sorted_rank by now apply sharers_In.
  eexists. split; [|reflexivity]. unfold rankIn. lia.
Qed.

(** C1. In a list of questions with distinct numbers, a question whose
    base slug another question of the list has too gets the base slug,
    a hyphen and its rank, the 1-based position of its number in the
    ascending arrangement of the numbers with this base slug (one more
    than the number of smaller ones, so 1 for the lowest); a question
    whose base slug no other has gets the base slug as it is.  Hence two
    questions of the list with the same statement, exam and topic and no
    sub-exam get different slugs. *)
Theorem generateAllSlugs_ranks (questions : list Question)
  (Hdistinct : NoDup (map questionNumber questions)) :
  (forall q, In q questions ->
     let base := buildBaseSlug q in
     let numbers := sharers questions base in
     let n := questionNumber q in
     ((exists q', In q' questions /\ q' <> q /\ buildBaseSlug q' = base) ->
      Map_get Z.eqb (generateAllSlugs questions) n
        = Some (base ++ lit "-" ++ numToString (rankIn numbers n))
      /\ positionInSorted numbers n (rankIn numbers n)
      /\ ((forall m, In m numbers -> n <= m) -> rankIn numbers n = 1))
     /\ ((forall q', In q' questions -> buildBaseSlug q' = base -> q' = q) ->
         Map_get Z.eqb (generateAllSlugs questions) n = Some base))
  /\ (forall q1 q2, In q1 questions -> In q2 questions -> q1 <> q2 ->
        statement q1 = statement q2 -> exam q1 = exam q2 -> topic q1 = topic q2 ->
        subExam q1 = None -> subExam q2 = None ->
        exists s1 s2,
          Map_get Z.eqb (generateAllSlugs questions) (questionNumber q1) = Some s1
          /\ Map_get Z.eqb (generateAllSlugs questions) (questionNumber q2) = Some s2
          /\ s1 <> s2).
Proof.
  split.
  - intros q Hin. cbv zeta.
    rewrite (generateAllSlugs_get _ _ Hdistinct Hin).
    set (base := buildBaseSlug q).
    set (numbers := sharers questions base).
    set (n := questionNumber q).
    assert (Hn : In n numbers) by now apply sharers_In.
    assert (Hnd : NoDup numbers) by now apply sharers_NoDup.
    split.
    + intros (q' & Hin' & Hne & Hb).
      assert (Hn' : In (questionNumber q') numbers).
      { subst numbers. rewrite <- Hb. now apply sharers_In. }
      assert (Hnn : questionNumber q' <> n).
      { intros E. apply Hne.
        exact (NoDup_map_injective questionNumber _ _ _ Hdistinct Hin' Hin E). }
      assert (Hlen : (2 <= length numbers)%nat) by exact (NoDup_two _ _ _ Hnd Hn' Hn Hnn).
      rewrite slugFor_shared by assumption.
      split; [reflexivity|]. split; [now apply rankIn_position|].
      intros Hmin. unfold rankIn.
      rewrite filter_below_none; [reflexivity|].
      apply Forall_forall. exact Hmin.
    + intros Halone. rewrite slugFor_alone; [reflexivity|].
      apply (NoDup_all_equal _ n Hnd Hn).
      intros m Hm. apply sharers_elim in Hm. destruct Hm as (q' & Hin' & Hb & <-).
      now rewrite (Halone q' Hin' Hb).
  - intros q1 q2 Hin1 Hin2 Hne Hs He Ht Hsub1 Hsub2.
    assert (Hnn : questionNumber q1 <> questionNumber q2).
    { intros E. apply Hne.
      exact (NoDup_map_injective questionNumber _ _ _ Hdistinct Hin1 Hin2 E). }
    destruct (buildBaseSlug_same_fields q1 q2 Hs He Ht) as [Hb|[Hb1 Hb2]];
      [congruence| |].
    + (* one base slug for both: two ranks *)
      set (numbers := sharers questions (buildBaseSlug q1)).
      assert (Hn1 : In (questionNumber q1) numbers) by now apply sharers_In.
      assert (Hn2 : In (questionNumber q2) numbers).
      { subst numbers. rewrite Hb. now apply sharers_In. }
      assert (Hlen : (2 <= length numbers)%nat).
      { apply (NoDup_two _ _ _ (sharers_NoDup _ _ Hdistinct) Hn1 Hn2 Hnn). }
      do 2 eexists.
      split; [apply (generateAllSlugs_get _ _ Hdistinct Hin1)|].
      split; [apply (generateAllSlugs_get _ _ Hdistinct Hin2)|].
      rewrite <- Hb. fold numbers. rewrite !slugFor_shared by assumption.
      intros E. apply app_inv_head, app_inv_head in E.
      apply numToString_inj in E. apply Hnn.
      exact (rankIn_inj numbers _ _ Hn1 Hn2 E).
    + (* each falls back to its own number *)
      destruct (generateAllSlugs_forms _ _ Hdistinct Hin1) as (s1 & G1 & F1).
      destruct (generateAllSlugs_forms _ _ Hdistinct Hin2) as (s2 & G2 & F2).
      exists s1, s2. split; [assumption|]. split; [assumption|].
      rewrite Hb1 in F1. rewrite Hb2 in F2. intros E. subst s2.
      destruct F1 as [->|(r1 & Hr1 & ->)]; destruct F2 as [F2|(r2 & Hr2 & F2)].
      * now apply questionFallback_inj in F2.
      * exact (questionFallback_not_suffixed _ _ _ F2).
      * symmetry in F2. exact (questionFallback_not_suffixed _ _ _ F2).
      * apply suffixed_inj in F2; [|assumption|assumption].
        destruct F2 as [F2 _]. now apply questionFallback_inj in F2.
Qed.

Lemma generateAllSlugs_ranks_witness :
  Map_get Z.eqb (generateAllSlugs [qCat 9; q7; qCat 3]) 3
    = Some (lit "what-is-22-cat-arithmetic-1")
  /\ Map_get Z.eqb (generateAllSlugs [qCat 9; q7; qCat 3]) 9
    = Some (lit "what-is-22-cat-arithmetic-2")
  /\ Map_get Z.eqb (generateAllSlugs [qCat 9; q7; qCat 3]) 7
    = Some (lit "find-hcf-of-12-and-18-ssc-number-system").
Proof.
  assert (Hnd : NoDup (map questionNumber [qCat 9; q7; qCat 3])).
  { simpl. repeat constructor; simpl; intuition discriminate. }
  destruct (generateAllSlugs_ranks [qCat 9; q7; qCat 3] Hnd) as [H _].
  assert (H3 : In (qCat 3) [qCat 9; q7; qCat 3]) by (simpl; auto).
  assert (H9 : In (qCat 9) [qCat 9; q7; qCat 3]) by (simpl; auto).
  assert (H7 : In q7 [qCat 9; q7; qCat 3]) by (simpl; auto).
  split; [|split].
  - refine (proj1 (proj1 (H (qCat 3) H3) _)).
    exists (qCat 9). split; [exact H9|]. split; [discriminate | reflexivity].
  - refine (proj1 (proj1 (H (qCat 9) H9) _)).
    exists (qCat 3). split; [exact H3|]. split; [discriminate | reflexivity].
  - refine (proj2 (H q7 H7) _).
    intros q' [<-|[<-|[<-|[]]]]; intros E; try reflexivity; vm_compute in E; discriminate.
Defined.

(* ================================================================== *)
(** * The question fetcher *)
(* ================================================================== *)

Lemma Requests_page_positive backend maxQuestions page allQuestions :
  Requests backend maxQuestions page allQuestions -> 1 <= page.
Proof. induction 1; lia. Qed.

Lemma fetchPages_failure backend maxQuestions fuel page allQuestions e :
  failureOf (backend page) = Some e ->
  fetchPages backend maxQuestions (S fuel) page allQuestions = Thrown e.
Proof.
  simpl. unfold failureOf. destruct (backend page) as [|ok status body].
  - now intros [= ->].
  - destruct ok; simpl; [|now intros [= ->]].
    destruct body; now intros [= ->].
Qed.

Lemma fetchPages_full_page backend maxQuestions fuel page allQuestions questions :
  servesPage backend page questions ->
  isCap maxQuestions
    && (arrayLength (allQuestions ++ questions) >=? capOf maxQuestions) = false ->
  arrayLength questions = limit ->
  fetchPages backend maxQuestions (S fuel) page allQuestions =
  fetchPages backend maxQuestions fuel (page + 1) (allQuestions ++ questions).
Proof.
  intros (status & E) Hcap Hlen. simpl. rewrite E. simpl.
  rewrite Hcap, Hlen. reflexivity.
Qed.

(** The run from page 1 comes to every page it requests. *)
Lemma fetchPages_requests backend maxQuestions page allQuestions :
  Requests backend maxQuestions page allQuestions ->
  forall fuel,
    fetchPages backend maxQuestions (Z.to_nat (page - 1) + fuel) 1 [] =
    fetchPages backend maxQuestions fuel page allQuestions.
Proof.
  induction 1 as [|page allQuestions questions Hreq IH Hserves Hcap Hlen];
    intros fuel; [reflexivity|].
  pose proof (Requests_page_positive _ _ _ _ Hreq) as Hpos.
  replace (Z.to_nat (page + 1 - 1) + fuel)%nat
    with (Z.to_nat (page - 1) + S fuel)%nat by lia.
  rewrite IH. now apply fetchPages_full_page.
Qed.

Lemma fetchPages_requested_failure backend maxQuestions fuel page allQuestions e :
  Requests backend maxQuestions page allQuestions ->
  failureOf (backend page) = Some e ->
  (Z.to_nat page <= fuel)%nat ->
  fetchPages backend maxQuestions fuel 1 [] = Thrown e.
Proof.
  intros Hreq Hfail Hfuel.
  pose proof (Requests_page_positive _ _ _ _ Hreq) as Hpos.
  replace fuel with (Z.to_nat (page - 1) + S (fuel - Z.to_nat page))%nat by lia.
  rewrite (fetchPages_requests _ _ _ _ Hreq).
  now apply fetchPages_failure.
Qed.

Lemma readArray_alloc_new st arr :
  readArray (snd (alloc st arr)) (fst (alloc st arr)) = arr.
Proof.
  unfold readArray, alloc. simpl. rewrite app_nth2 by lia.
  now rewrite Nat.sub_diag.
Qed.

Lemma readArray_alloc_old st arr a :
  (a < length (heap st))%nat -> readArray (snd (alloc st arr)) a = readArray st a.
Proof.
  intros H. unfold readArray, alloc. simpl. now apply app_nth1.
Qed.

(** C2. Against a backend all of whose pages hold 1000 questions, the call
    [fetchAllQuestions(50)] returns, after the one request of page 1, a new
    array with exactly 50 records, the first 50 of page 1, whatever the
    caches hold; it leaves [questionsCache] and [fetchPromise] as they
    were, and the arrays handed out before too. *)
Theorem fetchAllQuestions_capped_50 (backend : Z -> Response) (st : State) (fuel : nat)
  (Hpages : forall page, exists questions,
      servesPage backend page questions /\ arrayLength questions = 1000)
  (Hfuel : (1 <= fuel)%nat) :
  exists page1 st',
    servesPage backend 1 page1
    /\ fetchAllQuestions backend (Some 50) fuel st = (Returned (length (heap st)), st')
    /\ readArray st' (length (heap st)) = firstn 50 page1
    /\ length (readArray st' (length (heap st))) = 50%nat
    /\ questionsCache st' = questionsCache st
    /\ fetchPromise st' = fetchPromise st
    /\ (forall a, (a < length (heap st))%nat -> readArray st' a = readArray st a).
Proof.
  destruct (Hpages 1) as (page1 & Hserves & Hlen).
  exists page1, (snd (alloc st (firstn 50 page1))).
  assert (Hl : length page1 = 1000%nat) by (unfold arrayLength in Hlen; lia).
  assert (Hrun : fetchPages backend (Some 50) fuel 1 [] = Returned page1).
  { destruct fuel as [|fuel]; [lia|]. destruct Hserves as (status & E).
    simpl. rewrite E. simpl. unfold arrayLength. rewrite Hl. reflexivity. }
  assert (Hslice : slice0 page1 50 = firstn 50 page1).
  { unfold slice0. rewrite Hl. reflexivity. }
  split; [assumption|]. split.
  - unfold fetchAllQuestions, fetchLogic. rewrite Hrun. simpl. rewrite Hslice.
    destruct (questionsCache st); destruct (fetchPromise st); reflexivity.
  - split; [apply (readArray_alloc_new st)|].
    split; [rewrite (readArray_alloc_new st), length_firstn; lia|].
    split; [reflexivity|]. split; [reflexivity|].
    intros a Ha. now apply readArray_alloc_old.
Qed.

Lemma fetchAllQuestions_capped_50_witness :
  exists page1 st',
    servesPage fullPagesBackend 1 page1
    /\ fetchAllQuestions fullPagesBackend (Some 50) 1 initialState = (Returned 0%nat, st')
    /\ readArray st' 0%nat = firstn 50 page1
    /\ length (readArray st' 0%nat) = 50%nat
    /\ questionsCache st' = None
    /\ fetchPromise st' = None
    /\ (forall a, (a < 0)%nat -> readArray st' a = readArray initialState a).
Proof.
  apply (fetchAllQuestions_capped_50 fullPagesBackend initialState 1).
  - intros page. exists (repeat q7 1000). split.
    + exists 200. reflexivity.
    + unfold arrayLength. rewrite repeat_length. reflexivity.
  - lia.
Defined.

Lemma fetchAllQuestions_after_clear heapNow backend maxQuestions fuel :
  fst (fetchAllQuestions backend maxQuestions fuel (mkState heapNow None None)) =
  freshFetchOutcome backend maxQuestions fuel (length heapNow).
Proof.
  unfold fetchAllQuestions, fetchLogic, freshFetchOutcome. simpl.
  destruct (isCap maxQuestions); simpl;
    destruct (fetchPages backend maxQuestions fuel 1 []); reflexivity.
Qed.

(** C3, as the code has it. When a page that a run of [fetchAllQuestions]
    requests is answered with a status that is no success or with a body
    without an array of questions (or not at all), the call throws the
    error of this page; [questionsCache] keeps the value it had, so nothing
    partial is cached, and no array is handed out.  A call without a cap
    then has [fetchPromise] null, and as it found both caches null a
    later call starts a fetch of its own at page 1; a call with a cap
    leaves [fetchPromise] as it was. *)
Theorem fetchAllQuestions_failure (backend : Z -> Response) (maxQuestions : option Z)
  (fuel : nat) (st : State) (page : Z) (allQuestions : list Question) (e : Error)
  (Hruns : fetchesItself maxQuestions st)
  (Hreq : Requests backend maxQuestions page allQuestions)
  (Hfail : failureOf (backend page) = Some e)
  (Hfuel : (Z.to_nat page <= fuel)%nat) :
  exists st',
    fetchAllQuestions backend maxQuestions fuel st = (Thrown e, st')
    /\ heap st' = heap st
    /\ questionsCache st' = questionsCache st
    /\ (isCap maxQuestions = false ->
        fetchPromise st' = None
        /\ forall backend' maxQuestions' fuel',
            fst (fetchAllQuestions backend' maxQuestions' fuel' st') =
            freshFetchOutcome backend' maxQuestions' fuel' (length (heap st)))
    /\ (isCap maxQuestions = true -> fetchPromise st' = fetchPromise st).
Proof.
  pose proof (fetchPages_requested_failure _ _ _ _ _ _ Hreq Hfail Hfuel) as Hrun.
  destruct (isCap maxQuestions) eqn:Hcap.
  - exists st. split.
    + unfold fetchAllQuestions, fetchLogic. rewrite Hcap, Hrun.
      now destruct (questionsCache st); destruct (fetchPromise st).
    + split; [reflexivity|]. split; [reflexivity|].
      split; [intros H; discriminate H | intros _; reflexivity].
  - destruct Hruns as [Hruns|[Hc Hp]]; [congruence|].
    exists (setPromise st None). split.
    + unfold fetchAllQuestions, fetchLogic. now rewrite Hcap, Hrun, Hc, Hp.
    + split; [reflexivity|]. split; [reflexivity|].
      split; [intros _ | intros H; discriminate H].
      split; [reflexivity|].
      intros backend' maxQuestions' fuel'.
      unfold setPromise. rewrite Hc. apply fetchAllQuestions_after_clear.
Qed.

Lemma fetchAllQuestions_failure_witness :
  exists st',
    fetchAllQuestions downBackend None 1 initialState = (Thrown (HttpError 500), st')
    /\ heap st' = []
    /\ questionsCache st' = None
    /\ (isCap None = false ->
        fetchPromise st' = None
        /\ forall backend' maxQuestions' fuel',
            fst (fetchAllQuestions backend' maxQuestions' fuel' st') =
            freshFetchOutcome backend' maxQuestions' fuel' 0%nat)
    /\ (isCap None = true -> fetchPromise st' = None).
Proof.
  apply (fetchAllQuestions_failure downBackend None 1 initialState 1 []
           (HttpError 500)).
  - right. split; reflexivity.
  - constructor.
  - reflexivity.
  - simpl. lia.
Defined.

(** C3, as stated, fails for a call with a cap that follows a call without
    one: the first call cached the one page of the backend and left its
    promise, the backend then went down, and the call with cap 50 throws
    and leaves both variables as they were, neither of them null. *)
Lemma fetchAllQuestions_failure_counterexample :
  stateAfterFetch = mkState [[q7]] (Some 0%nat) (Some (Fulfilled 0%nat))
  /\ fetchAllQuestions downBackend (Some 50) 1 stateAfterFetch
     = (Thrown (HttpError 500), stateAfterFetch)
  /\ ~ failedFetchLeavesCachesNull.
Proof.
  split; [reflexivity|]. split; [reflexivity|].
  intros H.
  destruct (H downBackend (Some 50) 1%nat stateAfterFetch 1 [] (HttpError 500))
    as (_ & Hc & _).
  - left. reflexivity.
  - constructor.
  - reflexivity.
  - simpl. lia.
  - discriminate Hc.
Qed.

(* ================================================================== *)
(** * The sitemap *)
(* ================================================================== *)

Lemma nth_replaceNth {A : Type} (l : list A) : forall n x d,
  (n < length l)%nat -> nth n (replaceNth n x l) d = x.
Proof.
  induction l as [|y l IH]; intros n x d H; simpl in *; [lia|].
  destruct n as [|n]; simpl; [reflexivity | apply IH; lia].
Qed.

Lemma nth_replaceNth_other {A : Type} (l : list A) : forall n m x d,
  n <> m -> nth m (replaceNth n x l) d = nth m l d.
Proof.
  induction l as [|y l IH]; intros n m x d H; [now destruct n|].
  destruct n as [|n]; destruct m as [|m]; simpl; try reflexivity; try lia.
  apply IH. lia.
Qed.

(** What [GET] does to the heap when the dates are valid: the array
    [fetchAllQuestions] returned, which is the array of the cache, holds
    its questions in the order of the sort afterwards, a permutation of
    what it held; the other arrays and the two variables stay. *)
Lemma GET_sorts_in_place getTime backend fuel st questions st1 seoMap :
  fetchAllQuestions backend None fuel st = (Returned questions, st1) ->
  (questions < length (heap st1))%nat ->
  generateAllQuestionSEO (readArray st1 questions) = Some seoMap ->
  (forall q, In q (readArray st1 questions) -> getTime (updatedAt q) <> None) ->
  exists urls st2,
    GET getTime backend fuel st = (Returned urls, st2)
    /\ readArray st2 questions
       = sortBy (byUpdatedAtDesc getTime) (readArray st1 questions)
    /\ Permutation (readArray st2 questions) (readArray st1 questions)
    /\ (forall a, a <> questions -> readArray st2 a = readArray st1 a)
    /\ questionsCache st2 = questionsCache st1
    /\ fetchPromise st2 = fetchPromise st1.
Proof.
  intros Hfetch Hlt Hseo _. unfold GET. rewrite Hfetch, Hseo.
  do 2 eexists. split; [reflexivity|].
  assert (E : readArray
                (writeArray st1 questions
                   (sortBy (byUpdatedAtDesc getTime) (readArray st1 questions)))
                questions
              = sortBy (byUpdatedAtDesc getTime) (readArray st1 questions)).
  { unfold readArray at 1, writeArray. simpl. now apply nth_replaceNth. }
  split; [exact E|]. split; [rewrite E; apply sortBy_perm|].
  split; [|split; reflexivity].
  intros a Ha. unfold readArray, writeArray. simpl.
  apply nth_replaceNth_other. congruence.
Qed.

(** C4 on an example. The backend has one page with a question updated in
    January and then one updated in June.  A first call of
    [fetchAllQuestions] returns the array at address 0 with the two in
    this order, and caches it.  [GET] then sorts this array where it is:
    after it the cache still is the array at address 0, and a later call
    of [fetchAllQuestions] returns this array, which now holds the two
    questions in the other order. *)
Theorem GET_reorders_cached_questions :
  fetchAllQuestions (onePageBackend [qOld; qNew]) None 1 initialState
    = (Returned 0%nat, stateWithTwo)
  /\ questionsCache stateWithTwo = Some 0%nat
  /\ readArray stateWithTwo 0%nat = [qOld; qNew]
  /\ fst (GET exampleTime (onePageBackend [qOld; qNew]) 1 stateWithTwo)
     = Returned ([lit "cat"],
                 [(lit "what-is-33-cat-arithmetic", 1717200000000);
                  (lit "what-is-22-cat-arithmetic", 1704067200000)])
  /\ questionsCache
       (snd (GET exampleTime (onePageBackend [qOld; qNew]) 1 stateWithTwo))
     = Some 0%nat
  /\ fst (fetchAllQuestions (onePageBackend [qOld; qNew]) None 1
            (snd (GET exampleTime (onePageBackend [qOld; qNew]) 1 stateWithTwo)))
     = Returned 0%nat
  /\ readArray (snd (GET exampleTime (onePageBackend [qOld; qNew]) 1 stateWithTwo))
       0%nat
     = [qNew; qOld].
Proof.
  repeat split; vm_compute; reflexivity.
Qed.

(* ================================================================== *)
(** * Further properties of [seoGenerator.ts] *)
(* ================================================================== *)

Lemma inRange_true_iff lo hi c :
  inRange lo hi c = true <-> (lo <= code c /\ code c <= hi)%N.
Proof.
  unfold inRange. rewrite andb_true_iff, !N.leb_le. tauto.
Qed.

Lemma inRange_false_iff lo hi c :
  inRange lo hi c = false <-> (code c < lo \/ hi < code c)%N.
Proof.
  unfold inRange. rewrite andb_false_iff, !N.leb_gt. tauto.
Qed.

Lemma isSlugChar_code c :
  isSlugChar c = true ->
  ((97 <= code c /\ code c <= 122) \/ (48 <= code c /\ code c <= 57) \/ code c = 45)%N.
Proof.
  unfold isSlugChar, isLowerAZ, isDigit, isHyphen.
  rewrite !orb_true_iff, !inRange_true_iff, N.eqb_eq. tauto.
Qed.

Lemma lowerChar_slugChar c : isSlugChar c = true -> lowerChar c = c.
Proof.
  intros H. apply isSlugChar_code in H. unfold lowerChar.
  assert (E1 : inRange 65 90 c = false) by (apply inRange_false_iff; lia).
  assert (E2 : inRange 192 222 c = false) by (apply inRange_false_iff; lia).
  now rewrite E1, E2.
Qed.

Lemma isSpace_slugChar c : isSlugChar c = true -> isSpace c = false.
Proof.
  intros H. apply isSlugChar_code in H. unfold isSpace.
  rewrite !orb_false_iff, inRange_false_iff, !N.eqb_neq. lia.
Qed.

Lemma replaceRuns_none p r s :
  Forall (fun c => p c = false) s -> replaceRuns p r s = s.
Proof.
  induction 1 as [|c s Hc Hs IH]; simpl; [reflexivity|]. now rewrite Hc, IH.
Qed.

Lemma filter_keeps_all {A : Type} (f : A -> bool) l :
  Forall (fun x => f x = true) l -> filter f l = l.
Proof.
  induction 1 as [|x l Hx Hl IH]; simpl; [reflexivity|]. now rewrite Hx, IH.
Qed.

Lemma filter_Forall {A : Type} (f : A -> bool) l :
  Forall (fun x => f x = true) (filter f l).
Proof.
  apply Forall_forall. intros x H. now apply filter_In in H.
Qed.

Lemma map_fixed {A : Type} (f : A -> A) l :
  Forall (fun x => f x = x) l -> map f l = l.
Proof.
  induction 1 as [|x l Hx Hl IH]; simpl; [reflexivity|]. now rewrite Hx, IH.
Qed.

(** X1. [createSlug] gives only characters of [a-z0-9-], and a string of
    such characters is left as it is, so slugifying a slug changes
    nothing. *)
Theorem createSlug_idempotent (text : jsstring) :
  Forall (fun c => isSlugChar c = true) (createSlug text)
  /\ (Forall (fun c => isSlugChar c = true) text -> createSlug text = text)
  /\ createSlug (createSlug text) = createSlug text.
Proof.
  assert (Hfix : forall s, Forall (fun c => isSlugChar c = true) s -> createSlug s = s).
  { intros s Hs. unfold createSlug, toLowerCase, removeOutside.
    rewrite map_fixed.
    - rewrite replaceRuns_none.
      + now apply filter_keeps_all.
      + eapply Forall_impl; [|exact Hs]. intros c. apply isSpace_slugChar.
    - eapply Forall_impl; [|exact Hs]. intros c. apply lowerChar_slugChar. }
  assert (Hchars : Forall (fun c => isSlugChar c = true) (createSlug text)).
  { unfold createSlug, removeOutside. apply filter_Forall. }
  split; [exact Hchars|]. split; [apply Hfix | apply Hfix, Hchars].
Qed.

Lemma createSlug_idempotent_witness :
  createSlug (lit "number-system") = lit "number-system".
Proof.
  apply (proj1 (proj2 (createSlug_idempotent (lit "number-system")))).
  repeat constructor.
Defined.

Lemma buildBaseSlug_nonempty q : buildBaseSlug q <> [].
Proof.
  rewrite buildBaseSlug_eq.
  destruct (negb (nonEmpty (statement q)) || negb (truthy (exam q))
            || negb (truthy (topic q))); [apply questionFallback_nonempty|].
  destruct (nonEmpty (sanitizeSlug (joinedSlug q))) eqn:E.
  - now apply nonEmpty_true_iff.
  - apply questionFallback_nonempty.
Qed.

(** X2. [generateSlug] never returns the empty string, whatever map it is
    given: a number the map does not have, or has with the empty string,
    gives [question-<questionNumber>].  Without a map it returns what
    [buildBaseSlug] returns, for every question, as does
    [generateQuickSlug]. *)
Theorem generateSlug_never_empty (question : Question)
  (slugMap : option (JsMap Z jsstring)) :
  generateSlug question slugMap <> []
  /\ generateSlug question None = buildBaseSlug question
  /\ generateQuickSlug question = buildBaseSlug question
  /\ (forall m : JsMap Z jsstring,
        Map_get Z.eqb m (questionNumber question) = None
        \/ Map_get Z.eqb m (questionNumber question) = Some ([] : jsstring) ->
                generateSlug question (Some m)
                = lit "question-" ++ numToString (questionNumber question)).
Proof.
  assert (Hnone : generateSlug question None = buildBaseSlug question).
  { unfold generateSlug. rewrite buildBaseSlug_eq.
    destruct (negb (nonEmpty (statement question)) || negb (truthy (exam question))
              || negb (truthy (topic question))) eqn:E; reflexivity. }
  split.
  - destruct slugMap as [m|].
    + unfold generateSlug.
      destruct (Map_get Z.eqb m (questionNumber question)) as [s|];
        [|apply questionFallback_nonempty].
      destruct (nonEmpty s) eqn:E;
        [now apply nonEmpty_true_iff | apply questionFallback_nonempty].
    + rewrite Hnone. apply buildBaseSlug_nonempty.
  - split; [exact Hnone|]. split.
    + unfold generateQuickSlug. rewrite buildBaseSlug_eq.
      destruct (negb (nonEmpty (statement question)) || negb (truthy (exam question))
                || negb (truthy (topic question))) eqn:E; reflexivity.
    + intros m [H|H]; unfold generateSlug; rewrite H; reflexivity.
Qed.

Lemma generateSlug_never_empty_witness :
  generateSlug q7 (Some [(7, ([] : jsstring))]) = lit "question-7".
Proof.
  apply (proj2 (proj2 (proj2 (generateSlug_never_empty q7 None)))).
  right. reflexivity.
Defined.

Lemma slugFor_nonempty numbers base n : base <> [] -> slugFor numbers base n <> [].
Proof.
  intros H. unfold slugFor. destruct (length numbers =? 1)%nat; [assumption|].
  destruct base; [congruence | discriminate].
Qed.

Lemma assignSlug_valuesNonEmpty counts m q :
  valuesNonEmpty m -> valuesNonEmpty (assignSlug counts m q).
Proof.
  intros Hm k v.
  destruct (Map_get sameString counts (buildBaseSlug q)) as [numbers|] eqn:E.
  2:{ unfold assignSlug. rewrite E. apply Hm. }
  rewrite (assignSlug_eq _ _ _ _ E).
  destruct (Z.eq_dec (questionNumber q) k) as [->|Hne].
  - rewrite (Map_get_set_same Z.eqb Zeqb_spec). intros [= <-].
    apply slugFor_nonempty, buildBaseSlug_nonempty.
  - rewrite (Map_get_set_other Z.eqb Zeqb_spec) by assumption. apply Hm.
Qed.

Lemma fold_assignSlug_valuesNonEmpty counts qs : forall m,
  valuesNonEmpty m -> valuesNonEmpty (fold_left (assignSlug counts) qs m).
Proof.
  induction qs as [|q qs IH]; intros m Hm; simpl; [assumption|].
  apply IH. now apply assignSlug_valuesNonEmpty.
Qed.

Lemma fold_assignSlug_present counts qs : forall m n,
  (forall q, In q qs -> Map_get sameString counts (buildBaseSlug q) <> None) ->
  In n (map questionNumber qs) ->
  Map_get Z.eqb (fold_left (assignSlug counts) qs m) n <> None.
Proof.
  induction qs as [|q qs IH]; intros m n Hc Hn; [destruct Hn|]. simpl.
  destruct (in_dec Z.eq_dec n (map questionNumber qs)) as [Hin|Hnotin].
  - apply IH; [|assumption]. intros q' Hq'. apply Hc. now right.
  - rewrite fold_assignSlug_other by assumption.
    destruct Hn as [<-|Hn]; [|contradiction].
    destruct (Map_get sameString counts (buildBaseSlug q)) as [numbers|] eqn:E.
    + rewrite (assignSlug_eq _ _ _ _ E).
      rewrite (Map_get_set_same Z.eqb Zeqb_spec). discriminate.
    + exfalso. apply (Hc q); [now left | assumption].
Qed.

Lemma baseSlugCounts_present questions q :
  In q questions ->
  Map_get sameString (fold_left recordBaseSlug questions []) (buildBaseSlug q) <> None.
Proof.
  intros Hin. rewrite baseSlugCounts_get.
  pose proof (sharers_In questions q Hin) as H.
  destruct (sharers questions (buildBaseSlug q)); [destruct H | discriminate].
Qed.

Lemma generateAllSlugs_listed questions q :
  In q questions ->
  exists s,
    Map_get Z.eqb (generateAllSlugs questions) (questionNumber q) = Some s
    /\ s <> []
    /\ generateSlug q (Some (generateAllSlugs questions)) = s.
Proof.
  intros Hin.
  assert (Hpresent :
    Map_get Z.eqb (generateAllSlugs questions) (questionNumber q) <> None).
  { unfold generateAllSlugs. apply fold_assignSlug_present.
    - intros q' Hq'. now apply baseSlugCounts_present.
    - now apply in_map. }
  assert (Hvalues : valuesNonEmpty (generateAllSlugs questions)).
  { unfold generateAllSlugs. apply fold_assignSlug_valuesNonEmpty.
    intros k v H. discriminate H. }
  destruct (Map_get Z.eqb (generateAllSlugs questions) (questionNumber q))
    as [s|] eqn:E; [|congruence].
  exists s. split; [reflexivity|].
  assert (Hs : s <> []) by exact (Hvalues _ _ E).
  split; [assumption|].
  unfold generateSlug. rewrite E.
  apply nonEmpty_true_iff in Hs. now rewrite Hs.
Qed.

(** X3. [generateAllSlugs] gives every question of the list a slug that is
    not empty, so [generateSlug] with this map never falls back for a
    question of the list, also when numbers repeat; and it has no entry
    for any other number. *)
Theorem generateAllSlugs_total (questions : list Question) :
  (forall q, In q questions ->
     exists s,
       Map_get Z.eqb (generateAllSlugs questions) (questionNumber q) = Some s
       /\ s <> []
       /\ generateSlug q (Some (generateAllSlugs questions)) = s)
  /\ (forall n, ~ In n (map questionNumber questions) ->
        Map_get Z.eqb (generateAllSlugs questions) n = None).
Proof.
  split.
  - intros q Hin. now apply generateAllSlugs_listed.
  - intros n Hn. unfold generateAllSlugs.
    now rewrite fold_assignSlug_other.
Qed.

Lemma generateAllSlugs_total_witness :
  exists s,
    Map_get Z.eqb (generateAllSlugs [qCat 3; qCat 3; q7]) 3 = Some s
    /\ s <> []
    /\ generateSlug (qCat 3) (Some (generateAllSlugs [qCat 3; qCat 3; q7])) = s.
Proof.
  apply (proj1 (generateAllSlugs_total [qCat 3; qCat 3; q7]) (qCat 3)).
  simpl. auto.
Defined.

Lemma filter_perm {A : Type} (f : A -> bool) l l' :
  Permutation l l' -> Permutation (filter f l) (filter f l').
Proof.
  induction 1 as [|x l l' _ IH|x y l|l l' l'' _ IH1 _ IH2]; simpl.
  - constructor.
  - destruct (f x); [now constructor | assumption].
  - destruct (f x); destruct (f y); try reflexivity. apply perm_swap.
  - now transitivity (filter f l').
Qed.

Lemma sharers_perm questions questions' b :
  Permutation questions questions' ->
  Permutation (sharers questions b) (sharers questions' b).
Proof.
  intros H. unfold sharers. now apply Permutation_map, filter_perm.
Qed.

Lemma slugFor_perm numbers numbers' base n :
  Permutation numbers numbers' -> In n numbers ->
  slugFor numbers base n = slugFor numbers' base n.
Proof.
  intros Hp Hin. unfold slugFor.
  rewrite (Permutation_length Hp).
  rewrite !indexOf_sorted_rank;
    [| eapply Permutation_in; eassumption | assumption].
  unfold rankIn. now rewrite (filter_length_perm _ _ _ Hp).
Qed.

(** X4. The slugs do not depend on the order of the list: two lists with
    distinct numbers that hold the same questions give every number the
    same slug. *)
Theorem generateAllSlugs_order_independent (questions questions' : list Question)
  (Hdistinct : NoDup (map questionNumber questions))
  (Hperm : Permutation questions questions') :
  forall n, Map_get Z.eqb (generateAllSlugs questions) n
            = Map_get Z.eqb (generateAllSlugs questions') n.
Proof.
  intros n.
  assert (Hdistinct' : NoDup (map questionNumber questions')).
  { eapply Permutation_NoDup; [apply Permutation_map; exact Hperm | assumption]. }
  destruct (in_dec Z.eq_dec n (map questionNumber questions)) as [Hin|Hnotin].
  - apply in_map_iff in Hin. destruct Hin as (q & <- & Hq).
    assert (Hq' : In q questions') by (eapply Permutation_in; eassumption).
    rewrite (generateAllSlugs_get _ _ Hdistinct Hq).
    rewrite (generateAllSlugs_get _ _ Hdistinct' Hq').
    f_equal. apply slugFor_perm.
    + now apply sharers_perm.
    + now apply sharers_In.
  - assert (Hnotin' : ~ In n (map questionNumber questions')).
    { intros H. apply Hnotin. eapply Permutation_in; [|exact H].
      apply Permutation_map. now symmetry. }
    unfold generateAllSlugs. now rewrite !fold_assignSlug_other.
Qed.

Lemma generateAllSlugs_order_independent_witness :
  Map_get Z.eqb (generateAllSlugs [qCat 9; q7; qCat 3]) 3
  = Map_get Z.eqb (generateAllSlugs [qCat 3; qCat 9; q7]) 3.
Proof.
  apply (generateAllSlugs_order_independent [qCat 9; q7; qCat 3]
           [qCat 3; qCat 9; q7]).
  - simpl. repeat constructor; simpl; intuition discriminate.
  - symmetry. apply (Permutation_cons_append [qCat 9; q7] (qCat 3)).
Defined.

(** X5. In a list with distinct numbers, two questions with the same base
    slug get different slugs: the base slug with two different ranks. *)
Theorem generateAllSlugs_same_base_differ (questions : list Question)
  (q1 q2 : Question)
  (Hdistinct : NoDup (map questionNumber questions))
  (Hin1 : In q1 questions) (Hin2 : In q2 questions) (Hne : q1 <> q2)
  (Hbase : buildBaseSlug q1 = buildBaseSlug q2) :
  exists r1 r2,
    Map_get Z.eqb (generateAllSlugs questions) (questionNumber q1)
      = Some (buildBaseSlug q1 ++ lit "-" ++ numToString r1)
    /\ Map_get Z.eqb (generateAllSlugs questions) (questionNumber q2)
      = Some (buildBaseSlug q1 ++ lit "-" ++ numToString r2)
    /\ 1 <= r1 /\ 1 <= r2 /\ r1 <> r2
    /\ buildBaseSlug q1 ++ lit "-" ++ numToString r1
       <> buildBaseSlug q1 ++ lit "-" ++ numToString r2.
Proof.
  assert (Hnn : questionNumber q1 <> questionNumber q2).
  { intros E. apply Hne.
    exact (NoDup_map_injective questionNumber _ _ _ Hdistinct Hin1 Hin2 E). }
  set (numbers := sharers questions (buildBaseSlug q1)).
  assert (Hn1 : In (questionNumber q1) numbers) by now apply sharers_In.
  assert (Hn2 : In (questionNumber q2) numbers).
  { subst numbers. rewrite Hbase. now apply sharers_In. }
  assert (Hlen : (2 <= length numbers)%nat).
  { apply (NoDup_two _ _ _ (sharers_NoDup _ _ Hdistinct) Hn1 Hn2 Hnn). }
  assert (Hr : rankIn numbers (questionNumber q1) <> rankIn numbers (questionNumber q2)).
  { intros E. apply Hnn. exact (rankIn_inj numbers _ _ Hn1 Hn2 E). }
  exists (rankIn numbers (questionNumber q1)), (rankIn numbers (questionNumber q2)).
  split; [|split; [|split; [|split; [|split]]]].
  - rewrite (generateAllSlugs_get _ _ Hdistinct Hin1). fold numbers.
    now rewrite slugFor_shared.
  - rewrite (generateAllSlugs_get _ _ Hdistinct Hin2). rewrite <- Hbase. fold numbers.
    now rewrite slugFor_shared.
  - unfold rankIn. lia.
  - unfold rankIn. lia.
  - exact Hr.
  - intros E. apply app_inv_head, app_inv_head, numToString_inj in E. contradiction.
Qed.

Lemma generateAllSlugs_same_base_differ_witness :
  exists r1 r2,
    Map_get Z.eqb (generateAllSlugs [qCat 9; q7; qCat 3]) 9
      = Some (buildBaseSlug (qCat 9) ++ lit "-" ++ numToString r1)
    /\ Map_get Z.eqb (generateAllSlugs [qCat 9; q7; qCat 3]) 3
      = Some (buildBaseSlug (qCat 9) ++ lit "-" ++ numToString r2)
    /\ 1 <= r1 /\ 1 <= r2 /\ r1 <> r2
    /\ buildBaseSlug (qCat 9) ++ lit "-" ++ numToString r1
       <> buildBaseSlug (qCat 9) ++ lit "-" ++ numToString r2.
Proof.
  apply (generateAllSlugs_same_base_differ [qCat 9; q7; qCat 3] (qCat 9) (qCat 3)).
  - simpl. repeat constructor; simpl; intuition discriminate.
  - simpl. auto.
  - simpl. auto.
  - discriminate.
  - reflexivity.
Defined.

(** X6. Distinct numbers do not make the slugs of a list distinct: a base
    slug that ends like a rank meets the ranked slug of another group.
    Of three questions with the statement [x] and the exam [cat], two
    with the topic [t] and one with the topic [t 1], the first and the
    third both get [x-cat-t-1]. *)
Theorem generateAllSlugs_not_injective :
  exists questions q1 q2 s,
    NoDup (map questionNumber questions)
    /\ In q1 questions /\ In q2 questions
    /\ questionNumber q1 <> questionNumber q2
    /\ buildBaseSlug q1 <> buildBaseSlug q2
    /\ Map_get Z.eqb (generateAllSlugs questions) (questionNumber q1) = Some s
    /\ Map_get Z.eqb (generateAllSlugs questions) (questionNumber q2) = Some s.
Proof.
  exists [qTopic 1 "t"; qTopic 2 "t"; qTopic 3 "t 1"],
         (qTopic 1 "t"), (qTopic 3 "t 1"), (lit "x-cat-t-1").
  split; [simpl; repeat constructor; simpl; intuition discriminate|].
  split; [simpl; auto|]. split; [simpl; auto|].
  split; [discriminate|].
  split; [vm_compute; discriminate|].
  split; vm_compute; reflexivity.
Qed.

Lemma replaceRuns_app_clean p r g x :
  Forall (fun c => p c = false) g ->
  replaceRuns p r (g ++ x) = g ++ replaceRuns p r x.
Proof.
  induction 1 as [|c g Hc Hg IH]; simpl; [reflexivity|]. now rewrite Hc, IH.
Qed.

Lemma dropFirstHyphen_keeps_end y g :
  g <> [] -> headNotHyphen g ->
  exists y', dropFirstHyphen (y ++ g) = y' ++ g.
Proof.
  intros Hg Hhead. destruct y as [|c t]; simpl.
  - exists []. destruct g as [|c g]; [congruence|]. simpl.
    now rewrite (Hhead c g eq_refl).
  - destruct (isHyphen c); [now exists t | now exists (c :: t)].
Qed.

(** The stripping of the ends keeps a front that neither starts nor ends
    with a hyphen. *)
Lemma stripEndHyphens_keeps_front g y :
  g <> [] -> headNotHyphen g -> lastNotHyphen g ->
  exists y', stripEndHyphens (g ++ y) = g ++ y'.
Proof.
  intros Hg Hhead Hlast. unfold stripEndHyphens.
  assert (E1 : dropFirstHyphen (g ++ y) = g ++ y).
  { destruct g as [|c g]; [congruence|]. simpl. now rewrite (Hhead c g eq_refl). }
  rewrite E1, rev_app_distr.
  destruct (dropFirstHyphen_keeps_end (rev y) (rev g)) as (y' & E2).
  - intros E. apply Hg. apply (f_equal (@rev ascii)) in E.
    now rewrite rev_involutive in E.
  - now apply rev_last_head.
  - rewrite E2, rev_app_distr, rev_involutive. now exists (rev y').
Qed.

Lemma sanitizeSlug_keeps_front g y :
  g <> [] ->
  Forall (fun c => isSlugChar c = true) g ->
  Forall (fun c => isHyphen c = false) g ->
  exists y', sanitizeSlug (g ++ y) = g ++ y'.
Proof.
  intros Hg Hchars Hclean. unfold sanitizeSlug, replaceOutside.
  rewrite map_app.
  assert (E : map (fun c => if isSlugChar c then c else "-"%char) g = g).
  { apply map_fixed. eapply Forall_impl; [|exact Hchars].
    intros c Hc. now rewrite Hc. }
  rewrite E, replaceRuns_app_clean by assumption.
  apply stripEndHyphens_keeps_front; [assumption| |].
  - intros c r Ec. subst g. now inversion Hclean.
  - intros l c Ec. subst g. apply Forall_app in Hclean.
    destruct Hclean as [_ Hc]. now inversion Hc.
Qed.

Lemma joinedSlug_image q :
  isImageUrl (statement q) = true ->
  exists rest, joinedSlug q = lit "visualquestion" ++ lit "-" ++ rest.
Proof.
  intros H. unfold joinedSlug. rewrite H.
  change (statementSlugOf (lit "visual-question")) with (lit "visualquestion").
  set (ex := examSlugOf _). set (tp := topicSlugOf _).
  set (sub := match subExam q with Some _ => _ | None => _ end).
  clearbody ex tp sub.
  destruct (nonEmpty sub); destruct (nonEmpty tp); cbn [join app];
    eexists; reflexivity.
Qed.

Lemma isImageUrl_nonempty s : isImageUrl s = true -> nonEmpty s = true.
Proof. destruct s; [discriminate | reflexivity]. Qed.

(** X7. For a statement that [isImageUrl] takes as an image, the base slug
    does not depend on the statement: with exam and topic present it
    starts with [visualquestion] (the hyphen of the token
    [visual-question] is removed with the other punctuation), and two such
    questions with the same exam, sub-exam and topic have the same base
    slug. *)
Theorem buildBaseSlug_image (q1 q2 : Question)
  (Himage1 : isImageUrl (statement q1) = true)
  (Himage2 : isImageUrl (statement q2) = true)
  (He : truthy (exam q1) = true) (Ht : truthy (topic q1) = true)
  (Hexam : exam q1 = exam q2) (Hsub : subExam q1 = subExam q2)
  (Htopic : topic q1 = topic q2) :
  (exists rest, buildBaseSlug q1 = lit "visualquestion" ++ rest)
  /\ buildBaseSlug q1 = buildBaseSlug q2.
Proof.
  assert (Hj : joinedSlug q1 = joinedSlug q2).
  { unfold joinedSlug. now rewrite Himage1, Himage2, Hexam, Hsub, Htopic. }
  destruct (joinedSlug_image q1 Himage1) as (rest & Ej).
  destruct (sanitizeSlug_keeps_front (lit "visualquestion") (lit "-" ++ rest))
    as (y & Es).
  - discriminate.
  - repeat constructor.
  - repeat constructor.
  - rewrite <- Ej in Es.
    assert (E1 : buildBaseSlug q1 = sanitizeSlug (joinedSlug q1)).
    { rewrite buildBaseSlug_eq, (isImageUrl_nonempty _ Himage1), He, Ht, Es.
      reflexivity. }
    assert (E2 : buildBaseSlug q2 = sanitizeSlug (joinedSlug q1)).
    { rewrite buildBaseSlug_eq, (isImageUrl_nonempty _ Himage2).
      rewrite <- Hexam, <- Htopic, He, Ht, <- Hj, Es. reflexivity. }
    split; [exists y; now rewrite E1 | now rewrite E1, E2].
Qed.

Lemma buildBaseSlug_image_witness :
  (exists rest, buildBaseSlug qImageUrl = lit "visualquestion" ++ rest)
  /\ buildBaseSlug qImageUrl = buildBaseSlug qImageName.
Proof.
  apply (buildBaseSlug_image qImageUrl qImageName); reflexivity.
Defined.

(** ** The parts of a title *)

Lemma prefixOf_firstn {A : Type} (k : nat) (s : list A) :
  exists rest, s = firstn k s ++ rest.
Proof. exists (skipn k s). symmetry. apply firstn_skipn. Qed.

(** X8. When the end [ | <exam> <difficulty> | <topic>] of a title has at
    most 116 characters, the cap at 120 never cuts it.  A statement text
    that fits before it is there in full; a longer one is cut to a
    front part that fits, followed by three dots. *)
Theorem generateTitle_keeps_suffix (q : Question)
  (Hfit : jslength (titleSuffix q) <= 116) :
  (jslength (titleStatement q) <= 116 - jslength (titleSuffix q) ->
   generateTitle q = titleStatement q ++ titleSuffix q)
  /\ (116 - jslength (titleSuffix q) < jslength (titleStatement q) ->
      exists front,
        prefixOf front (titleStatement q)
        /\ jslength front <= 116 - jslength (titleSuffix q)
        /\ generateTitle q = front ++ lit "..." ++ titleSuffix q).
Proof.
  assert (Eg : generateTitle q = titleFrom (titleStatement q) q) by reflexivity.
  rewrite Eg. unfold titleFrom. fold (titleSuffix q).
  set (sfx := titleSuffix q) in *. set (st := titleStatement q).
  replace (120 - jslength sfx - 4) with (116 - jslength sfx) by lia.
  set (mx := 116 - jslength sfx). assert (Hmx : 0 <= mx) by (subst mx; lia).
  clearbody sfx st. unfold jslength in *.
  split.
  - intros Hle.
    assert (E : (Z.of_nat (length st) >? mx) = false).
    { rewrite Z.gtb_ltb. apply Z.ltb_ge. lia. }
    rewrite E. apply substring_0_all. rewrite length_app. lia.
  - intros Hgt.
    assert (E : (Z.of_nat (length st) >? mx) = true).
    { rewrite Z.gtb_ltb. apply Z.ltb_lt. lia. }
    rewrite E. rewrite (substring_0_firstn st mx Hmx).
    set (t1 := firstn (Z.to_nat mx) st).
    assert (Hl1 : Z.of_nat (length t1) <= mx).
    { subst t1. rewrite length_firstn. lia. }
    assert (Hp1 : prefixOf t1 st) by apply prefixOf_firstn.
    set (ls := lastIndexOf t1 " "%char). clearbody ls.
    assert (Hfront : exists front,
              (if ls >? 0 then substring t1 0 ls else t1) = front
              /\ prefixOf front st /\ Z.of_nat (length front) <= mx).
    { destruct (ls >? 0) eqn:El.
      - rewrite Z.gtb_ltb in El. apply Z.ltb_lt in El.
        rewrite substring_0_firstn by lia.
        exists (firstn (Z.to_nat ls) t1). split; [reflexivity|]. split.
        + destruct Hp1 as (r1 & E1).
          destruct (prefixOf_firstn (Z.to_nat ls) t1) as (r2 & E2).
          exists (r2 ++ r1). rewrite app_assoc, <- E2. exact E1.
        + rewrite length_firstn. lia.
      - exists t1. auto. }
    destruct Hfront as (front & -> & Hp & Hl).
    exists front. split; [assumption|]. split; [assumption|].
    rewrite <- app_assoc. apply substring_0_all.
    rewrite !length_app. change (length (lit "...")) with 3%nat. lia.
Qed.

Lemma generateTitle_keeps_suffix_witness :
  generateTitle q7 = titleStatement q7 ++ titleSuffix q7.
Proof.
  assert (Hfit : jslength (titleSuffix q7) <= 116) by (vm_compute; discriminate).
  apply (proj1 (generateTitle_keeps_suffix q7 Hfit)).
  vm_compute. discriminate.
Defined.

(** ** Keywords that cannot be listed *)

Lemma inheritedMethod_not_own e :
  isInheritedMethod e = true -> Map_get sameString EXAM_KEYWORD_MAP e = None.
Proof.
  intros H. unfold isInheritedMethod in H. apply existsb_sameString in H.
  simpl in H.
  repeat (destruct H as [<-|H]; [vm_compute; reflexivity|]). destruct H.
Qed.

Lemma getExamSpecificKeywords_inherited e sub :
  isInheritedMethod e = true -> getExamSpecificKeywords e sub = InheritedMethod.
Proof.
  intros H. unfold getExamSpecificKeywords, examEntry.
  rewrite (inheritedMethod_not_own e H). unfold inheritedMember. now rewrite H.
Qed.

Lemma generateKeywords_inherited q e :
  exam q = Some e -> isInheritedMethod e = true -> generateKeywords q = None.
Proof.
  intros He H. unfold generateKeywords, examKeywordsOf. rewrite He.
  assert (Hne : nonEmpty e = true) by (destruct e; [discriminate H | reflexivity]).
  now rewrite Hne, (getExamSpecificKeywords_inherited e _ H).
Qed.

Lemma generateAllQuestionSEO_fold questions :
  generateAllQuestionSEO questions
  = fold_left (recordSEO (generateAllSlugs questions)) questions (Some []).
Proof. reflexivity. Qed.

Lemma fold_recordSEO_None slugMap qs : fold_left (recordSEO slugMap) qs None = None.
Proof. induction qs as [|q qs IH]; simpl; [reflexivity | exact IH]. Qed.

Lemma fold_recordSEO_fails slugMap qs : forall acc q,
  In q qs -> generateQuestionSEO q (Some slugMap) = None ->
  fold_left (recordSEO slugMap) qs acc = None.
Proof.
  induction qs as [|q0 qs IH]; intros acc q Hin Hq; [destruct Hin|]. simpl.
  destruct Hin as [->|Hin].
  - unfold recordSEO at 2. rewrite Hq.
    destruct acc; apply fold_recordSEO_None.
  - now apply (IH _ q).
Qed.

(** X9. A question whose exam is the name of a method every object
    inherits ([constructor], [toString], ...) makes [generateKeywords]
    throw, and with it [generateAllQuestionSEO] for every list that holds
    the question, and [GET] for every fetch that returns it: [GET] throws
    after the fetch, with the array fetched as it is. *)
Theorem inherited_exam_name_throws (questions : list Question) (q : Question)
  (e : jsstring)
  (Hin : In q questions) (Hexam : exam q = Some e)
  (Hname : isInheritedMethod e = true) :
  generateKeywords q = None
  /\ generateAllQuestionSEO questions = None
  /\ forall getTime backend fuel st a st1,
       fetchAllQuestions backend None fuel st = (Returned a, st1) ->
       readArray st1 a = questions ->
       GET getTime backend fuel st = (Thrown TypeError, st1).
Proof.
  assert (Hk : generateKeywords q = None) by exact (generateKeywords_inherited q e Hexam Hname).
  assert (Hall : generateAllQuestionSEO questions = None).
  { rewrite generateAllQuestionSEO_fold. apply (fold_recordSEO_fails _ _ _ q Hin).
    unfold generateQuestionSEO. now rewrite Hk. }
  split; [exact Hk|]. split; [exact Hall|].
  intros getTime backend fuel st a st1 Hfetch Hread.
  unfold GET. now rewrite Hfetch, Hread, Hall.
Qed.

Lemma inherited_exam_name_throws_witness :
  generateKeywords qConstructor = None
  /\ generateAllQuestionSEO [q7; qConstructor] = None
  /\ forall getTime backend fuel st a st1,
       fetchAllQuestions backend None fuel st = (Returned a, st1) ->
       readArray st1 a = [q7; qConstructor] ->
       GET getTime backend fuel st = (Thrown TypeError, st1).
Proof.
  apply (inherited_exam_name_throws [q7; qConstructor] qConstructor (lit "constructor")).
  - simpl. auto.
  - reflexivity.
  - reflexivity.
Defined.

Lemma generateKeywords_plain q : plainNames q -> generateKeywords q <> None.
Proof.
  intros Hplain. unfold generateKeywords.
  destruct (examKeywordsOf_cases q) as [(kws & ->)|(e & He & H)]; [discriminate|].
  exfalso. destruct (Hplain e He) as [H1 H2].
  destruct H as [H|(s & Hs & H)]; [congruence|].
  destruct (H2 s Hs) as [H3 H4]. destruct H; congruence.
Qed.

Lemma fold_recordSEO_get slugMap qs :
  (forall q, In q qs -> generateQuestionSEO q (Some slugMap) <> None) ->
  exists m,
    fold_left (recordSEO slugMap) qs (Some []) = Some m
    /\ (NoDup (map questionNumber qs) ->
        forall q, In q qs ->
          Map_get Z.eqb m (questionNumber q) = generateQuestionSEO q (Some slugMap))
    /\ (forall n, ~ In n (map questionNumber qs) -> Map_get Z.eqb m n = None).
Proof.
  induction qs as [|x qs IH] using rev_ind; intros Hall.
  - exists []. split; [reflexivity|]. split; [intros _ q []|reflexivity].
  - destruct IH as (m & Em & Hget & Hnone).
    { intros q Hq. apply Hall. apply in_or_app. now left. }
    destruct (generateQuestionSEO x (Some slugMap)) as [seo|] eqn:Ex.
    2:{ exfalso. apply (Hall x); [apply in_or_app; right; now left | assumption]. }
    exists (Map_set Z.eqb m (questionNumber x) seo).
    split; [|split].
    + rewrite fold_left_app, Em. simpl. unfold recordSEO. now rewrite Ex.
    + intros Hnd q Hq. rewrite map_app in Hnd. simpl in Hnd.
      apply in_app_or in Hq. destruct Hq as [Hq|[<-|[]]].
      * assert (Hne : questionNumber x <> questionNumber q).
        { intros E. apply NoDup_remove_2 in Hnd. apply Hnd.
          rewrite app_nil_r, E. now apply in_map. }
        rewrite (Map_get_set_other Z.eqb Zeqb_spec) by assumption.
        apply Hget; [|assumption].
        apply NoDup_remove_1 in Hnd. now rewrite app_nil_r in Hnd.
      * rewrite (Map_get_set_same Z.eqb Zeqb_spec). now rewrite Ex.
    + intros n Hn. rewrite map_app, in_app_iff in Hn. simpl in Hn.
      rewrite (Map_get_set_other Z.eqb Zeqb_spec) by tauto.
      apply Hnone. tauto.
Qed.

(** X10. When no question of a list has an exam or a sub-exam with the
    name of an inherited member, [generateAllQuestionSEO] returns a map.
    The numbers being distinct, the map has for every question of the
    list the record with the slug [generateAllSlugs] gives it, its title,
    its keywords and the canonical address made of the slug; it has no
    entry for another number. *)
Theorem generateAllQuestionSEO_total (questions : list Question)
  (Hplain : forall q, In q questions -> plainNames q)
  (Hdistinct : NoDup (map questionNumber questions)) :
  exists seoMap,
    generateAllQuestionSEO questions = Some seoMap
    /\ (forall q, In q questions ->
          exists s kws,
            Map_get Z.eqb (generateAllSlugs questions) (questionNumber q) = Some s
            /\ generateKeywords q = Some kws
            /\ Map_get Z.eqb seoMap (questionNumber q)
               = Some (mkSEO s (generateTitle q) kws
                         (lit "https://aptidude.in/questions/" ++ s)))
    /\ (forall n, ~ In n (map questionNumber questions) ->
          Map_get Z.eqb seoMap n = None).
Proof.
  destruct (fold_recordSEO_get (generateAllSlugs questions) questions)
    as (m & Em & Hget & Hnone).
  { intros q Hq. unfold generateQuestionSEO.
    pose proof (generateKeywords_plain q (Hplain q Hq)) as Hk.
    destruct (generateKeywords q); [discriminate | congruence]. }
  exists m. split; [exact Em|]. split; [|exact Hnone].
  intros q Hq.
  destruct (generateAllSlugs_listed questions q Hq) as (s & Es & _ & Eg).
  pose proof (generateKeywords_plain q (Hplain q Hq)) as Hk.
  destruct (generateKeywords q) as [kws|] eqn:Ek; [|congruence].
  exists s, kws. split; [exact Es|]. split; [reflexivity|].
  rewrite (Hget Hdistinct q Hq). unfold generateQuestionSEO. now rewrite Ek, Eg.
Qed.

Lemma generateAllQuestionSEO_total_witness :
  exists seoMap,
    generateAllQuestionSEO [q7; qCat 3] = Some seoMap
    /\ (forall q, In q [q7; qCat 3] ->
          exists s kws,
            Map_get Z.eqb (generateAllSlugs [q7; qCat 3]) (questionNumber q) = Some s
            /\ generateKeywords q = Some kws
            /\ Map_get Z.eqb seoMap (questionNumber q)
               = Some (mkSEO s (generateTitle q) kws
                         (lit "https://aptidude.in/questions/" ++ s)))
    /\ (forall n, ~ In n (map questionNumber [q7; qCat 3]) ->
          Map_get Z.eqb seoMap n = None).
Proof.
  apply generateAllQuestionSEO_total.
  - intros q [<-|[<-|[]]]; intros e [= <-];
      (split; [reflexivity | intros s H; discriminate H]).
  - simpl. repeat constructor; simpl; intuition discriminate.
Defined.

(* ================================================================== *)
(** * Further properties of [dataFetcher.ts] *)
(* ================================================================== *)

(** ** The buckets of the indexes *)

Lemma allBuckets_set_empty {A : Type} (m : JsMap jsstring (list A)) k :
  Map_get sameString m k = None ->
  allBuckets (Map_set sameString m k []) = allBuckets m.
Proof.
  unfold allBuckets. induction m as [|[k' b] m IH]; simpl; [reflexivity|].
  destruct (sameString k' k); [discriminate|]. intros H. simpl. now rewrite IH.
Qed.

Lemma allBuckets_set_push {A : Type} (m : JsMap jsstring (list A)) k b x :
  Map_get sameString m k = Some b ->
  Permutation (allBuckets (Map_set sameString m k (b ++ [x]))) (x :: allBuckets m).
Proof.
  unfold allBuckets. induction m as [|[k' b'] m IH]; simpl; [discriminate|].
  destruct (sameString k' k).
  - intros [= ->]. simpl. rewrite <- app_assoc. simpl.
    symmetry. apply Permutation_middle.
  - intros H. simpl. rewrite (IH H). symmetry. apply Permutation_middle.
Qed.

Lemma allBuckets_pushInto {A : Type} (m : JsMap jsstring (list A)) k x :
  Permutation (allBuckets (pushInto m k x)) (x :: allBuckets m).
Proof.
  unfold pushInto, Map_has.
  destruct (Map_get sameString m k) as [b|] eqn:E; simpl.
  - rewrite E. now apply allBuckets_set_push.
  - rewrite (Map_get_set_same sameString streq_true_iff).
    rewrite <- (allBuckets_set_empty m k E).
    replace (@nil A ++ [x]) with ((@nil A) ++ [x]) by reflexivity.
    apply allBuckets_set_push.
    apply (Map_get_set_same sameString streq_true_iff).
Qed.

Lemma allBuckets_fileItems {T A : Type} (key : T -> option jsstring) (val : T -> A)
  items : forall m,
  Permutation (allBuckets (fold_left (fileItem key val) items m))
    (allBuckets m ++ map val (filter (keyed key) items)).
Proof.
  induction items as [|t items IH]; intros m; simpl.
  - now rewrite app_nil_r.
  - rewrite IH. unfold fileItem, keyed. destruct (key t) as [k|]; [|reflexivity].
    simpl. rewrite allBuckets_pushInto. apply Permutation_middle.
Qed.

Lemma keyed_topicKey q : keyed topicKey q = truthy (topic q).
Proof. unfold keyed, topicKey. destruct (topic q) as [t|]; simpl; [|reflexivity]. now destruct (nonEmpty t). Qed.

Lemma keyed_categoryKey q : keyed categoryKey q = truthy (category q).
Proof. unfold keyed, categoryKey. destruct (category q) as [t|]; simpl; [|reflexivity]. now destruct (nonEmpty t). Qed.

Lemma keyed_examKey q : keyed examKey q = truthy (exam q).
Proof. unfold keyed, examKey. destruct (exam q) as [t|]; simpl; [|reflexivity]. now destruct (nonEmpty t). Qed.

Lemma keyed_examTopicKey q :
  keyed examTopicKey q = truthy (exam q) && truthy (topic q).
Proof. unfold keyed, examTopicKey. now destruct (truthy (exam q) && truthy (topic q)). Qed.

Lemma byTopic_fold questions :
  byTopic (buildQuestionIndexes questions)
  = fold_left (fileItem topicKey (fun q => q)) questions [].
Proof.
  unfold buildQuestionIndexes.
  now rewrite (fold_left_projection indexQuestion byTopic _ indexQuestion_byTopic).
Qed.

Lemma byCategory_fold questions :
  byCategory (buildQuestionIndexes questions)
  = fold_left (fileItem categoryKey (fun q => q)) questions [].
Proof.
  unfold buildQuestionIndexes.
  now rewrite (fold_left_projection indexQuestion byCategory _ indexQuestion_byCategory).
Qed.

Lemma byExam_fold questions :
  byExam (buildQuestionIndexes questions)
  = fold_left (fileItem examKey (fun q => q)) questions [].
Proof.
  unfold buildQuestionIndexes.
  now rewrite (fold_left_projection indexQuestion byExam _ indexQuestion_byExam).
Qed.

Lemma byExamAndTopic_fold questions :
  byExamAndTopic (buildQuestionIndexes questions)
  = fold_left (fileItem examTopicKey (fun q => q)) questions [].
Proof.
  unfold buildQuestionIndexes.
  now rewrite (fold_left_projection indexQuestion byExamAndTopic _
                 indexQuestion_byExamAndTopic).
Qed.

Lemma byQuestionNumber_fold questions :
  byQuestionNumber (buildQuestionIndexes questions)
  = fold_left (fun m q => Map_set Z.eqb m (questionNumber q) q) questions [].
Proof.
  unfold buildQuestionIndexes.
  now rewrite (fold_left_projection indexQuestion byQuestionNumber
                 (fun m q => Map_set Z.eqb m (questionNumber q) q)
                 indexQuestion_byQuestionNumber).
Qed.

(** X11. The buckets of each grouping table hold every question that has
    the key field, once: taken together they are a permutation of the
    questions with a topic, with a category, with an exam, and with both
    an exam and a topic; a question without the field is in no bucket. *)
Theorem buildQuestionIndexes_partition (questions : list Question) :
  Permutation (allBuckets (byTopic (buildQuestionIndexes questions)))
    (filter (fun q => truthy (topic q)) questions)
  /\ Permutation (allBuckets (byCategory (buildQuestionIndexes questions)))
       (filter (fun q => truthy (category q)) questions)
  /\ Permutation (allBuckets (byExam (buildQuestionIndexes questions)))
       (filter (fun q => truthy (exam q)) questions)
  /\ Permutation (allBuckets (byExamAndTopic (buildQuestionIndexes questions)))
       (filter (fun q => truthy (exam q) && truthy (topic q)) questions).
Proof.
  rewrite byTopic_fold, byCategory_fold, byExam_fold, byExamAndTopic_fold.
  repeat split.
  - rewrite allBuckets_fileItems. simpl. rewrite map_id.
    now rewrite (filter_ext _ _ keyed_topicKey).
  - rewrite allBuckets_fileItems. simpl. rewrite map_id.
    now rewrite (filter_ext _ _ keyed_categoryKey).
  - rewrite allBuckets_fileItems. simpl. rewrite map_id.
    now rewrite (filter_ext _ _ keyed_examKey).
  - rewrite allBuckets_fileItems. simpl. rewrite map_id.
    now rewrite (filter_ext _ _ keyed_examTopicKey).
Qed.

Lemma fold_Map_set_keys (qs : list Question) :
  NoDup (map questionNumber qs) ->
  Map_keys (fold_left (fun m q => Map_set Z.eqb m (questionNumber q) q) qs [])
  = map questionNumber qs.
Proof.
  induction qs as [|q qs IH] using rev_ind; intros Hnd; [reflexivity|].
  rewrite map_app in Hnd. simpl in Hnd.
  rewrite fold_left_app, map_app. simpl.
  rewrite (Map_keys_set Z.eqb).
  assert (Hpre : NoDup (map questionNumber qs)).
  { apply NoDup_remove_1 in Hnd. now rewrite app_nil_r in Hnd. }
  rewrite IH by assumption.
  destruct (Map_has Z.eqb _ (questionNumber q)) eqn:E; [|reflexivity].
  exfalso. apply (Map_get_In_keys Z.eqb Zeqb_spec) in E.
  rewrite IH in E by assumption.
  apply NoDup_remove_2 in Hnd. apply Hnd. now rewrite app_nil_r.
Qed.

(** X12. With distinct numbers, [byQuestionNumber] finds every question of
    the list under its number, has the numbers of the list as its keys in
    the order of the list, and so as many entries as the list has
    questions; under another number it finds nothing. *)
Theorem byQuestionNumber_lookup (questions : list Question)
  (Hdistinct : NoDup (map questionNumber questions)) :
  (forall q, In q questions ->
     Map_get Z.eqb (byQuestionNumber (buildQuestionIndexes questions))
       (questionNumber q) = Some q)
  /\ Map_keys (byQuestionNumber (buildQuestionIndexes questions))
     = map questionNumber questions
  /\ length (byQuestionNumber (buildQuestionIndexes questions)) = length questions
  /\ (forall n, ~ In n (map questionNumber questions) ->
        Map_get Z.eqb (byQuestionNumber (buildQuestionIndexes questions)) n = None).
Proof.
  rewrite byQuestionNumber_fold.
  assert (Hkeys := fold_Map_set_keys questions Hdistinct).
  split; [|split; [exact Hkeys|split]].
  - intros q Hq. rewrite fold_Map_set_get.
    destruct (find (fun q0 => questionNumber q0 =? questionNumber q) (rev questions))
      as [q'|] eqn:E.
    + apply find_some in E. destruct E as [Hin E]. apply Z.eqb_eq in E.
      apply in_rev in Hin. f_equal.
      exact (NoDup_map_injective questionNumber _ _ _ Hdistinct Hin Hq E).
    + exfalso. pose proof (find_none _ _ E q) as Hf. simpl in Hf.
      rewrite Z.eqb_refl in Hf. discriminate Hf. now apply -> in_rev.
  - apply (f_equal (@length Z)) in Hkeys. unfold Map_keys in Hkeys.
    now rewrite !length_map in Hkeys.
  - intros n Hn. rewrite fold_Map_set_get.
    destruct (find (fun q0 => questionNumber q0 =? n) (rev questions)) as [q'|] eqn:E;
      [|reflexivity].
    exfalso. apply find_some in E. destruct E as [Hin E]. apply Z.eqb_eq in E.
    apply Hn. subst n. apply in_map. now apply in_rev.
Qed.

Lemma byQuestionNumber_lookup_witness :
  Map_get Z.eqb (byQuestionNumber (buildQuestionIndexes [qCat 9; q7])) 7 = Some q7.
Proof.
  assert (Hnd : NoDup (map questionNumber [qCat 9; q7])).
  { simpl. repeat constructor; simpl; intuition discriminate. }
  apply (proj1 (byQuestionNumber_lookup [qCat 9; q7] Hnd) q7).
  simpl. auto.
Defined.

(** ** Related questions *)

Lemma Map_set_entries {V : Type} (P : Z * V -> Prop) (m : JsMap Z V) k v :
  Forall P m -> P (k, v) -> Forall P (Map_set Z.eqb m k v).
Proof.
  intros Hm Hkv. induction Hm as [|[k' v'] m Hx Hm IH]; simpl.
  - now constructor.
  - destruct (k' =? k) eqn:E.
    + apply Z.eqb_eq in E. subst k'. now constructor.
    + now constructor.
Qed.

Lemma Map_set_keys_NoDup {V : Type} (m : JsMap Z V) k v :
  NoDup (Map_keys m) -> NoDup (Map_keys (Map_set Z.eqb m k v)).
Proof.
  intros H. rewrite (Map_keys_set Z.eqb).
  destruct (Map_has Z.eqb m k) eqn:E; [assumption|].
  apply NoDup_app; [assumption | repeat constructor; intros [] |].
  intros x Hx [<-|[]].
  apply (Map_get_In_keys Z.eqb Zeqb_spec) in Hx. congruence.
Qed.

Lemma fold_set_entries (all qs : list Question) : forall m,
  incl qs all -> entriesFrom all m ->
  entriesFrom all (fold_left (fun m q => Map_set Z.eqb m (questionNumber q) q) qs m).
Proof.
  induction qs as [|q qs IH]; intros m Hincl Hm; simpl; [assumption|].
  apply IH.
  - intros x Hx. apply Hincl. now right.
  - apply Map_set_entries; [assumption|]. simpl. split; [reflexivity|].
    apply Hincl. now left.
Qed.

Lemma fold_set_keys_NoDup (qs : list Question) : forall m : JsMap Z Question,
  NoDup (Map_keys m) ->
  NoDup (Map_keys (fold_left (fun m q => Map_set Z.eqb m (questionNumber q) q) qs m)).
Proof.
  induction qs as [|q qs IH]; intros m Hm; simpl; [assumption|].
  apply IH. now apply Map_set_keys_NoDup.
Qed.

Lemma uniqueByNumber_In candidates q :
  In q (uniqueByNumber candidates) -> In q candidates.
Proof.
  unfold uniqueByNumber. intros H. apply in_map_iff in H.
  destruct H as ([k v] & <- & H).
  pose proof (fold_set_entries candidates candidates [] (incl_refl _)
                (Forall_nil _)) as He.
  unfold entriesFrom in He. rewrite Forall_forall in He.
  exact (proj2 (He _ H)).
Qed.

Lemma uniqueByNumber_NoDup candidates :
  NoDup (map questionNumber (uniqueByNumber candidates)).
Proof.
  unfold uniqueByNumber.
  pose proof (fold_set_entries candidates candidates [] (incl_refl _)
                (Forall_nil _)) as He.
  pose proof (fold_set_keys_NoDup candidates [] (NoDup_nil _)) as Hk.
  set (m := fold_left (fun m q => Map_set Z.eqb m (questionNumber q) q)
              candidates []) in *.
  clearbody m.
  unfold Map_keys in Hk. rewrite map_map.
  replace (map (fun kv => questionNumber (snd kv)) m) with (map fst m); [assumption|].
  unfold entriesFrom in He. induction He as [|[k v] m [Hkv _] Hm IH]; simpl.
  - reflexivity.
  - simpl in Hkv. inversion Hk; subst. f_equal. now apply IH.
Qed.

Lemma firstn_incl {A : Type} (n : nat) (l : list A) x : In x (firstn n l) -> In x l.
Proof.
  intros H. rewrite <- (firstn_skipn n l). apply in_or_app. now left.
Qed.

Lemma firstn_NoDup {A : Type} (n : nat) (l : list A) : NoDup l -> NoDup (firstn n l).
Proof.
  intros H. rewrite <- (firstn_skipn n l) in H. now apply NoDup_app_remove_r in H.
Qed.

Lemma slice0_incl {A : Type} (l : list A) e x : In x (slice0 l e) -> In x l.
Proof. unfold slice0. apply firstn_incl. Qed.

Lemma relatedCandidates_other question indexes q :
  In q (relatedCandidates question indexes) ->
  questionNumber q <> questionNumber question.
Proof.
  unfold relatedCandidates. intros H.
  assert (Hf : otherThan question q = true).
  { destruct (truthy (topic question)); destruct (truthy (category question));
      simpl in H; repeat (apply in_app_or in H; destruct H as [H|H]);
      try (apply filter_In in H; tauto); try destruct H. }
  unfold otherThan in Hf. apply negb_true_iff, Z.eqb_neq in Hf. exact Hf.
Qed.

(** X13. Whatever the indexes hold, [getRelatedQuestions] never returns a
    question with the number of the question itself, never two questions
    with one number, and, for a limit that is not negative (or none,
    which is 6), never more questions than the limit. *)
Theorem getRelatedQuestions_sound (question : Question) (indexes : Indexes)
  (limit : option Z) :
  (forall q, In q (getRelatedQuestions question indexes limit) ->
     questionNumber q <> questionNumber question)
  /\ NoDup (map questionNumber (getRelatedQuestions question indexes limit))
  /\ (forall l, limit = Some l -> 0 <= l ->
        Z.of_nat (length (getRelatedQuestions question indexes limit)) <= l)
  /\ (limit = None ->
        (length (getRelatedQuestions question indexes limit) <= 6)%nat).
Proof.
  unfold getRelatedQuestions.
  split; [|split; [|split]].
  - intros q H. apply slice0_incl, uniqueByNumber_In in H.
    now apply relatedCandidates_other in H.
  - unfold slice0. rewrite <- firstn_map. apply firstn_NoDup, uniqueByNumber_NoDup.
  - intros l -> Hl. unfold slice0. cbv zeta. rewrite length_firstn.
    destruct (l <? 0) eqn:E; [apply Z.ltb_lt in E; lia|]. lia.
  - intros ->. unfold slice0. cbv zeta. rewrite length_firstn.
    change (6 <? 0) with false. cbv iota. lia.
Qed.

Lemma getRelatedQuestions_sound_witness :
  Z.of_nat (length (getRelatedQuestions (qCat 3)
                      (buildQuestionIndexes [qCat 3; qCat 9; qOld; qNew]) (Some 2)))
  <= 2.
Proof.
  apply (proj1 (proj2 (proj2 (getRelatedQuestions_sound (qCat 3)
           (buildQuestionIndexes [qCat 3; qCat 9; qOld; qNew]) (Some 2)))) 2);
    [reflexivity | lia].
Defined.

Lemma bucketOrEmpty_built (key : Question -> option jsstring)
  (questions : list Question) k :
  bucketOrEmpty (fold_left (fileItem key (fun q => q)) questions []) k
  = filter (hasKey key k) questions.
Proof.
  unfold bucketOrEmpty.
  rewrite (proj2 (fileItems_groupedBy key (fun q => q) questions) k).
  rewrite map_id. now destruct (filter (hasKey key k) questions).
Qed.

(** X14. With the indexes [buildQuestionIndexes] builds of a list, every
    question [getRelatedQuestions] returns is a question of the list with
    another number that has the topic of the question, or its category. *)
Theorem getRelatedQuestions_related (questions : list Question)
  (question : Question) (limit : option Z) :
  forall q,
    In q (getRelatedQuestions question (buildQuestionIndexes questions) limit) ->
    In q questions
    /\ questionNumber q <> questionNumber question
    /\ ((truthy (topic question) = true /\ topic q = topic question)
        \/ (truthy (category question) = true /\ category q = category question)).
Proof.
  intros q H. unfold getRelatedQuestions in H.
  apply slice0_incl, uniqueByNumber_In in H.
  split; [|split; [now apply relatedCandidates_other in H|]];
    unfold relatedCandidates in H;
    rewrite byTopic_fold, byCategory_fold in H;
    rewrite !bucketOrEmpty_built in H.
  - destruct (truthy (topic question)); destruct (truthy (category question));
      simpl in H; repeat (apply in_app_or in H; destruct H as [H|H]);
      try (apply filter_In in H; destruct H as [H _];
           apply filter_In in H; tauto); try destruct H.
  - assert (Ht : truthy (topic question) = true ->
                 In q (filter (otherThan question)
                         (filter (hasKey topicKey (tmpl (topic question))) questions)) ->
                 topic q = topic question).
    { intros Htr Hq. apply filter_In in Hq. destruct Hq as [Hq _].
      apply filter_In in Hq. destruct Hq as [_ Hk]. unfold hasKey, topicKey in Hk.
      destruct (truthy (topic q)); [|discriminate].
      destruct (topic q) as [t|]; [|discriminate].
      apply streq_true_iff in Hk. subst t.
      destruct (topic question); [reflexivity | discriminate]. }
    assert (Hc : truthy (category question) = true ->
                 In q (filter (otherThan question)
                         (filter (hasKey categoryKey (tmpl (category question)))
                            questions)) ->
                 category q = category question).
    { intros Htr Hq. apply filter_In in Hq. destruct Hq as [Hq _].
      apply filter_In in Hq. destruct Hq as [_ Hk]. unfold hasKey, categoryKey in Hk.
      destruct (truthy (category q)); [|discriminate].
      destruct (category q) as [t|]; [|discriminate].
      apply streq_true_iff in Hk. subst t.
      destruct (category question); [reflexivity | discriminate]. }
    destruct (truthy (topic question)) eqn:Et;
      destruct (truthy (category question)) eqn:Ec;
      simpl in H; repeat (apply in_app_or in H; destruct H as [H|H]);
      try destruct H; auto.
Qed.

Lemma getRelatedQuestions_related_witness :
  In (qCat 9) [qCat 3; q7; qCat 9]
  /\ questionNumber (qCat 9) <> questionNumber (qCat 3)
  /\ ((truthy (topic (qCat 3)) = true /\ topic (qCat 9) = topic (qCat 3))
      \/ (truthy (category (qCat 3)) = true
          /\ category (qCat 9) = category (qCat 3))).
Proof.
  apply (getRelatedQuestions_related [qCat 3; q7; qCat 9] (qCat 3) None (qCat 9)).
  vm_compute. left. reflexivity.
Defined.

(** ** The question fetcher, further *)

Lemma Requests_length backend maxQuestions page allQuestions :
  Requests backend maxQuestions page allQuestions ->
  arrayLength allQuestions = (page - 1) * limit.
Proof.
  induction 1 as [|page allQuestions questions Hreq IH Hserves Hcap Hlen];
    [reflexivity|].
  unfold arrayLength in *. rewrite length_app. lia.
Qed.

Lemma fetchPages_last_page backend maxQuestions fuel page allQuestions questions :
  servesPage backend page questions ->
  isCap maxQuestions = false ->
  arrayLength questions < limit ->
  fetchPages backend maxQuestions (S fuel) page allQuestions
  = Returned (allQuestions ++ questions).
Proof.
  intros (status & E) Hcap Hlen. simpl. rewrite E, Hcap. simpl.
  assert (Hne : arrayLength questions <> limit) by lia.
  apply Z.eqb_neq in Hne. now rewrite Hne.
Qed.

Lemma fetchPages_all_full backend maxQuestions :
  isCap maxQuestions = false ->
  (forall page, exists questions,
      servesPage backend page questions /\ arrayLength questions = limit) ->
  forall fuel page allQuestions,
    fetchPages backend maxQuestions fuel page allQuestions = Unsettled.
Proof.
  intros Hcap Hpages. induction fuel as [|fuel IH]; intros page allQuestions;
    [reflexivity|].
  destruct (Hpages page) as (questions & Hserves & Hlen).
  rewrite (fetchPages_full_page _ _ _ _ _ questions Hserves);
    [apply IH | now rewrite Hcap | assumption].
Qed.

Lemma fetchPages_zero_cap backend : forall fuel page allQuestions,
  fetchPages backend (Some 0) fuel page allQuestions
  = fetchPages backend None fuel page allQuestions.
Proof.
  induction fuel as [|fuel IH]; intros page allQuestions; [reflexivity|].
  simpl. destruct (backend page) as [|ok status body]; [reflexivity|].
  destruct (negb ok); [reflexivity|].
  destruct body as [| | |questions]; try reflexivity.
  destruct (arrayLength questions =? limit); [apply IH | reflexivity].
Qed.

(** X15. Once a call of [fetchAllQuestions] without a cap has returned an
    array, every later call without a cap returns this same array and
    changes nothing, whatever the backend answers by then and without a
    single request. *)
Theorem fetchAllQuestions_memoized (backend : Z -> Response) (maxQuestions : option Z)
  (fuel : nat) (st st' : State) (a : addr)
  (Hcap : isCap maxQuestions = false)
  (Hret : fetchAllQuestions backend maxQuestions fuel st = (Returned a, st')) :
  forall backend' maxQuestions' fuel',
    isCap maxQuestions' = false ->
    fetchAllQuestions backend' maxQuestions' fuel' st' = (Returned a, st').
Proof.
  intros backend' maxQuestions' fuel' Hcap'.
  unfold fetchAllQuestions in *. rewrite Hcap in Hret. rewrite Hcap'.
  destruct (questionsCache st) as [cached|] eqn:Ec.
  - injection Hret as <- <-. now rewrite Ec.
  - destruct (fetchPromise st) as [p|] eqn:Ep.
    + injection Hret as Hp <-. rewrite Ec, Ep. now rewrite Hp.
    + simpl in Hret. unfold fetchLogic in Hret. rewrite Hcap in Hret.
      destruct (fetchPages backend maxQuestions fuel 1 []);
        simpl in Hret; try discriminate Hret.
      injection Hret as <- <-. reflexivity.
Qed.

Lemma fetchAllQuestions_memoized_witness :
  fetchAllQuestions downBackend (Some 0) 0 stateAfterFetch
  = (Returned 0%nat, stateAfterFetch).
Proof.
  apply (fetchAllQuestions_memoized (onePageBackend [q7]) None 1 initialState
           stateAfterFetch 0%nat); reflexivity.
Defined.

(** X16. A call of [fetchAllQuestions] without a cap that finds nothing
    cached and no fetch under way asks for page after page as long as the
    pages hold exactly 1000 questions; the first page with fewer is the
    last one.  Before page [page] it has 1000 questions of each of the
    [page - 1] pages before; it returns a new array of all questions in the
    order of the pages, caches it and keeps the fulfilled promise, and
    leaves the arrays handed out before as they were. *)
Theorem fetchAllQuestions_all_pages (backend : Z -> Response) (maxQuestions : option Z)
  (fuel : nat) (st : State) (page : Z) (allQuestions questions : list Question)
  (Hcap : isCap maxQuestions = false)
  (Hcache : questionsCache st = None)
  (Hpromise : fetchPromise st = None)
  (Hreq : Requests backend maxQuestions page allQuestions)
  (Hlast : servesPage backend page questions)
  (Hshort : arrayLength questions < limit)
  (Hfuel : (Z.to_nat page <= fuel)%nat) :
  arrayLength allQuestions = (page - 1) * 1000
  /\ exists st',
       fetchAllQuestions backend maxQuestions fuel st
       = (Returned (length (heap st)), st')
       /\ readArray st' (length (heap st)) = allQuestions ++ questions
       /\ questionsCache st' = Some (length (heap st))
       /\ fetchPromise st' = Some (Fulfilled (length (heap st)))
       /\ (forall a, (a < length (heap st))%nat -> readArray st' a = readArray st a).
Proof.
  split; [exact (Requests_length _ _ _ _ Hreq)|].
  pose proof (Requests_page_positive _ _ _ _ Hreq) as Hpos.
  assert (Hrun : fetchPages backend maxQuestions fuel 1 []
                 = Returned (allQuestions ++ questions)).
  { replace fuel with (Z.to_nat (page - 1) + S (fuel - Z.to_nat page))%nat by lia.
    rewrite (fetchPages_requests _ _ _ _ Hreq).
    now apply fetchPages_last_page. }
  eexists. split.
  - unfold fetchAllQuestions, fetchLogic. rewrite Hcap, Hcache, Hpromise, Hrun.
    simpl. reflexivity.
  - split; [apply (readArray_alloc_new st)|].
    split; [reflexivity|]. split; [reflexivity|].
    intros a Ha. unfold readArray. simpl. now apply app_nth1.
Qed.

Lemma fetchAllQuestions_all_pages_witness :
  arrayLength (repeat q7 1000) = (2 - 1) * 1000
  /\ exists st',
       fetchAllQuestions twoPagesBackend None 2 (mkState [[q7]] None None)
       = (Returned 1%nat, st')
       /\ readArray st' 1%nat
          = repeat q7 1000 ++ [qOld; qNew]
       /\ questionsCache st' = Some 1%nat
       /\ fetchPromise st' = Some (Fulfilled 1%nat)
       /\ (forall a, (a < length (heap (mkState [[q7]] None None)))%nat ->
             readArray st' a = readArray (mkState [[q7]] None None) a).
Proof.
  apply (fetchAllQuestions_all_pages twoPagesBackend None 2
           (mkState [[q7]] None None) 2 (repeat q7 1000) [qOld; qNew]).
  - reflexivity.
  - reflexivity.
  - reflexivity.
  - exact (Requests_next twoPagesBackend None 1 [] (repeat q7 1000)
             (Requests_first twoPagesBackend None)
             (ex_intro _ 200 eq_refl) eq_refl eq_refl).
  - exists 200. reflexivity.
  - vm_compute. reflexivity.
  - simpl. lia.
Defined.

(** X17. A call of [fetchAllQuestions] with a cap, however it ends, leaves
    [questionsCache], [fetchPromise] and every array handed out before as
    they were; when it returns, it returns a new array, of at most as many
    questions as the cap when the cap is positive. *)
Theorem fetchAllQuestions_capped_frame (backend : Z -> Response)
  (maxQuestions : option Z) (fuel : nat) (st st' : State) (o : Outcome addr)
  (Hcap : isCap maxQuestions = true)
  (Hcall : fetchAllQuestions backend maxQuestions fuel st = (o, st')) :
  questionsCache st' = questionsCache st
  /\ fetchPromise st' = fetchPromise st
  /\ (forall a, (a < length (heap st))%nat -> readArray st' a = readArray st a)
  /\ (forall a, o = Returned a ->
        a = length (heap st)
        /\ (0 < capOf maxQuestions ->
            arrayLength (readArray st' a) <= capOf maxQuestions)).
Proof.
  assert (E : fetchAllQuestions backend maxQuestions fuel st
              = fetchLogic backend maxQuestions fuel st).
  { unfold fetchAllQuestions. rewrite Hcap.
    now destruct (questionsCache st); destruct (fetchPromise st). }
  rewrite E in Hcall. unfold fetchLogic in Hcall. rewrite Hcap in Hcall.
  destruct (fetchPages backend maxQuestions fuel 1 []) as [result| |];
    simpl in Hcall; injection Hcall as <- <-;
    try (repeat split; try reflexivity; intros; discriminate).
  split; [reflexivity|]. split; [reflexivity|]. split.
  - intros a Ha. unfold readArray. simpl. now apply app_nth1.
  - intros a [= <-]. split; [reflexivity|]. intros Hpos.
    unfold readArray. simpl. rewrite app_nth2 by lia. rewrite Nat.sub_diag. simpl.
    unfold arrayLength, slice0. cbv zeta. rewrite length_firstn.
    destruct (capOf maxQuestions <? 0) eqn:El; [apply Z.ltb_lt in El; lia|]. lia.
Qed.

Lemma fetchAllQuestions_capped_frame_witness :
  questionsCache (snd (fetchAllQuestions fullPagesBackend (Some 3) 1 stateAfterFetch))
  = questionsCache stateAfterFetch
  /\ fetchPromise (snd (fetchAllQuestions fullPagesBackend (Some 3) 1 stateAfterFetch))
     = fetchPromise stateAfterFetch
  /\ (forall a, (a < length (heap stateAfterFetch))%nat ->
        readArray (snd (fetchAllQuestions fullPagesBackend (Some 3) 1 stateAfterFetch)) a
        = readArray stateAfterFetch a)
  /\ (forall a, Returned 1%nat = Returned a ->
        a = length (heap stateAfterFetch)
        /\ (0 < capOf (Some 3) ->
            arrayLength
              (readArray
                 (snd (fetchAllQuestions fullPagesBackend (Some 3) 1 stateAfterFetch)) a)
            <= capOf (Some 3))).
Proof.
  apply (fetchAllQuestions_capped_frame fullPagesBackend (Some 3) 1 stateAfterFetch);
    reflexivity.
Defined.

(** X18. A cap of 0 is no cap: [fetchAllQuestions(0)] does what
    [fetchAllQuestions()] does, in every state and against every
    backend. *)
Theorem fetchAllQuestions_zero_cap (backend : Z -> Response) (fuel : nat)
  (st : State) :
  fetchAllQuestions backend (Some 0) fuel st = fetchAllQuestions backend None fuel st.
Proof.
  unfold fetchAllQuestions, fetchLogic. simpl.
  now rewrite fetchPages_zero_cap.
Qed.

(** X19. Against a backend all of whose pages hold exactly 1000 questions,
    a call of [fetchAllQuestions] without a cap that starts a fetch never
    settles, however many requests it is allowed: its promise stays
    pending, nothing is cached, and every later call without a cap waits
    for this promise. *)
Theorem fetchAllQuestions_full_pages_forever (backend : Z -> Response)
  (maxQuestions : option Z) (st : State)
  (Hcap : isCap maxQuestions = false)
  (Hcache : questionsCache st = None)
  (Hpromise : fetchPromise st = None)
  (Hpages : forall page, exists questions,
      servesPage backend page questions /\ arrayLength questions = limit) :
  forall fuel,
    fetchAllQuestions backend maxQuestions fuel st
    = (Unsettled, mkState (heap st) None (Some Pending))
    /\ forall backend' maxQuestions' fuel',
         isCap maxQuestions' = false ->
         fetchAllQuestions backend' maxQuestions' fuel'
           (mkState (heap st) None (Some Pending))
         = (Unsettled, mkState (heap st) None (Some Pending)).
Proof.
  intros fuel. split.
  - unfold fetchAllQuestions, fetchLogic.
    rewrite Hcap, Hcache, Hpromise. simpl.
    rewrite (fetchPages_all_full backend maxQuestions Hcap Hpages).
    unfold setPromise. simpl. now rewrite Hcache.
  - intros backend' maxQuestions' fuel' Hcap'.
    unfold fetchAllQuestions. simpl. now rewrite Hcap'.
Qed.

Lemma fetchAllQuestions_full_pages_forever_witness :
  fetchAllQuestions fullPagesBackend None 7 initialState
  = (Unsettled, mkState [] None (Some Pending)).
Proof.
  apply (fetchAllQuestions_full_pages_forever fullPagesBackend None initialState).
  - reflexivity.
  - reflexivity.
  - reflexivity.
  - intros page. exists (repeat q7 1000). split.
    + exists 200. reflexivity.
    + unfold arrayLength. rewrite repeat_length. reflexivity.
Defined.

(** ** The learning content *)

Lemma fetchCourse_fold {Course : Type} (backend : jsstring -> LearningResponse Course)
  (slugs : list jsstring) : forall courses,
  (length (fold_left (fetchCourse backend) slugs courses)
   <= length courses + length slugs)%nat
  /\ forall c, In c (fold_left (fetchCourse backend) slugs courses) ->
       In c courses
       \/ exists slug status,
            In slug slugs /\ backend slug = Answer true status (BodyJson c).
Proof.
  induction slugs as [|slug slugs IH]; intros courses; simpl.
  - split; [lia | now left].
  - destruct (IH (fetchCourse backend courses slug)) as [Hlen Hin].
    assert (Hstep : (length (fetchCourse backend courses slug) <= S (length courses))%nat
                    /\ forall c, In c (fetchCourse backend courses slug) ->
                         In c courses
                         \/ exists status,
                              backend slug = Answer true status (BodyJson c)).
    { unfold fetchCourse. destruct (backend slug) as [|ok status body].
      - split; [lia | now left].
      - destruct ok; simpl; [|split; [lia | now left]].
        destruct body as [|course]; [split; [lia | now left]|].
        split; [rewrite length_app; simpl; lia|].
        intros c Hc. apply in_app_or in Hc. destruct Hc as [Hc|[<-|[]]].
        + now left.
        + right. now exists status. }
    destruct Hstep as [Hlen1 Hin1]. split; [lia|].
    intros c Hc. destruct (Hin c Hc) as [H|(slug' & status & Hs & E)].
    + destruct (Hin1 c H) as [H1|(status & E)]; [now left|].
      right. exists slug, status. split; [now left | exact E].
    + right. exists slug', status. split; [now right | exact E].
Qed.

(** X20. Whatever a call of [fetchAllCourses] returns is in the cache
    afterwards, the empty list too: every later call returns it again
    without asking the backend.  The call leaves [topicsCache] alone; when
    it found no cache, it returns at most five courses, each the body of a
    successful answer for one of the five slugs. *)
Theorem fetchAllCourses_memoized {Course Topic : Type}
  (backend : jsstring -> LearningResponse Course)
  (st st' : @LearningState Course Topic) (courses : list (option Course))
  (Hcall : fetchAllCourses backend st = (courses, st')) :
  (forall backend', fetchAllCourses backend' st' = (courses, st'))
  /\ topicsCache st' = topicsCache st
  /\ (coursesCache st = None ->
      (length courses <= 5)%nat
      /\ forall c, In c courses ->
           exists slug status,
             In slug coreCoursesSlugs
             /\ backend slug = Answer true status (BodyJson c)).
Proof.
  unfold fetchAllCourses in Hcall.
  destruct (coursesCache st) as [cached|] eqn:Ec.
  - injection Hcall as <- <-. split.
    + intros backend'. unfold fetchAllCourses. now rewrite Ec.
    + split; [reflexivity | discriminate].
  - injection Hcall as <- <-. split; [reflexivity|]. split; [reflexivity|].
    intros _. destruct (fetchCourse_fold backend coreCoursesSlugs []) as [Hlen Hin].
    split; [exact Hlen|].
    intros c Hc. destruct (Hin c Hc) as [[]|H]. exact H.
Qed.

Lemma fetchAllCourses_memoized_witness :
  fetchAllCourses (fun _ => Answer true 200 (BodyJson (Some tt)))
    (mkLearningState (Topic := unit) (Some []) None)
  = ([], mkLearningState (Some []) None).
Proof.
  apply (proj1 (fetchAllCourses_memoized (fun _ => NoResponse)
                  (mkLearningState None None)
                  (mkLearningState (Some []) None) [] eq_refl)).
Defined.

(** X21. [fetchAllTopics] caches a list it got from the backend and
    nothing else.  When [topicsCache] is null after a call, the call
    returned the empty list and changed nothing, so the next call asks
    the backend again; when it is a list, the call returned this list, and
    so does every later call.  [coursesCache] is left alone. *)
Theorem fetchAllTopics_caches_answers_only {Course Topic : Type}
  (backend : LearningResponse (list Topic))
  (st st' : @LearningState Course Topic) (topics : list Topic)
  (Hcall : fetchAllTopics backend st = (topics, st')) :
  coursesCache st' = coursesCache st
  /\ (topicsCache st' = None -> topics = [] /\ st' = st)
  /\ (forall cached, topicsCache st' = Some cached ->
        topics = cached
        /\ forall backend', fetchAllTopics backend' st' = (cached, st')).
Proof.
  unfold fetchAllTopics in Hcall.
  destruct (topicsCache st) as [cached0|] eqn:Et.
  - injection Hcall as <- <-. split; [reflexivity|].
    split; [congruence|].
    intros cached Hc. assert (cached = cached0) by congruence. subst cached.
    split; [reflexivity|]. intros backend'. unfold fetchAllTopics. now rewrite Et.
  - assert (Hfail : (topics, st') = ([], st) ->
                    coursesCache st' = coursesCache st
                    /\ (topicsCache st' = None -> topics = [] /\ st' = st)
                    /\ (forall cached, topicsCache st' = Some cached ->
                          topics = cached
                          /\ forall backend',
                               fetchAllTopics backend' st' = (cached, st'))).
    { intros [= -> ->]. split; [reflexivity|]. split; [now split|].
      intros cached Hc. congruence. }
    destruct backend as [|ok status body]; [now apply Hfail|].
    destruct ok; simpl in Hcall; [|now apply Hfail].
    destruct body as [|[found|]]; try (now apply Hfail).
    injection Hcall as <- <-. split; [reflexivity|].
    split; [discriminate|].
    intros cached [= <-]. split; [reflexivity|]. reflexivity.
Qed.

Lemma fetchAllTopics_caches_answers_only_witness :
  coursesCache (mkLearningState (Course := unit) (Topic := Z) None None) = None
  /\ (topicsCache (mkLearningState (Course := unit) (Topic := Z) None None) = None ->
      ([] : list Z) = []
      /\ mkLearningState (Course := unit) (Topic := Z) None None
         = mkLearningState None None)
  /\ (forall cached,
        topicsCache (mkLearningState (Course := unit) (Topic := Z) None None)
        = Some cached ->
        [] = cached
        /\ forall backend',
             fetchAllTopics backend' (mkLearningState (Course := unit) None None)
             = (cached, mkLearningState None None)).
Proof.
  apply (fetchAllTopics_caches_answers_only (Answer false 503 BodyNotJson)
           (mkLearningState None None)).
  reflexivity.
Defined.

(* ================================================================== *)
(** * Further properties of [sitemap.xml.ts] *)
(* ================================================================== *)

Lemma insertBy_latest_first getTime x l :
  getTime (updatedAt x) <> None ->
  (forall q, In q l -> getTime (updatedAt q) <> None) ->
  StronglySorted Z.ge (map (timeOf getTime) l) ->
  StronglySorted Z.ge (map (timeOf getTime) (insertBy (byUpdatedAtDesc getTime) x l)).
Proof.
  intros Hx. induction l as [|y l IH]; intros Hl Hs; simpl.
  - repeat constructor.
  - inversion Hs as [|? ? Hs' Hall]; subst.
    assert (Hy : getTime (updatedAt y) <> None) by (apply Hl; now left).
    assert (E : byUpdatedAtDesc getTime x y = timeOf getTime y - timeOf getTime x).
    { unfold byUpdatedAtDesc, timeOf.
      destruct (getTime (updatedAt x)); [|congruence].
      destruct (getTime (updatedAt y)); [reflexivity | congruence]. }
    rewrite E. destruct (timeOf getTime y - timeOf getTime x <=? 0) eqn:Ele.
    + apply Z.leb_le in Ele. simpl. constructor; [exact Hs|].
      constructor; [lia|]. eapply Forall_impl; [|exact Hall].
      intros t Ht. simpl in Ht. lia.
    + apply Z.leb_gt in Ele. simpl. constructor.
      * apply IH; [|assumption]. intros q Hq. apply Hl. now right.
      * eapply Permutation_Forall;
          [apply Permutation_map; symmetry; apply insertBy_perm|].
        simpl. constructor; [lia | assumption].
Qed.

Lemma sortBy_latest_first getTime l :
  (forall q, In q l -> getTime (updatedAt q) <> None) ->
  StronglySorted Z.ge (map (timeOf getTime) (sortBy (byUpdatedAtDesc getTime) l)).
Proof.
  induction l as [|x l IH]; intros Hl; simpl; [constructor|].
  apply insertBy_latest_first.
  - apply Hl. now left.
  - intros q Hq. apply Hl. right.
    eapply Permutation_in; [apply sortBy_perm | exact Hq].
  - apply IH. intros q Hq. apply Hl. now right.
Qed.

Lemma fold_recordSEO_has slugMap qs : forall acc m,
  fold_left (recordSEO slugMap) qs acc = Some m ->
  (forall m0 n, acc = Some m0 -> Map_get Z.eqb m0 n <> None ->
                Map_get Z.eqb m n <> None)
  /\ forall q, In q qs -> Map_get Z.eqb m (questionNumber q) <> None.
Proof.
  induction qs as [|q qs IH]; intros acc m Hfold; simpl in Hfold.
  - split; [|intros q []]. intros m0 n E. congruence.
  - destruct acc as [m0|]; [|simpl in Hfold; now rewrite fold_recordSEO_None in Hfold].
    unfold recordSEO at 2 in Hfold.
    destruct (generateQuestionSEO q (Some slugMap)) as [seo|];
      [|now rewrite fold_recordSEO_None in Hfold].
    destruct (IH _ _ Hfold) as [Hkeep Hall].
    assert (Hset : forall n, Map_get Z.eqb m0 n <> None \/ n = questionNumber q ->
                     Map_get Z.eqb m n <> None).
    { intros n Hn. apply (Hkeep _ n eq_refl).
      destruct (Z.eq_dec (questionNumber q) n) as [<-|Hne].
      - rewrite (Map_get_set_same Z.eqb Zeqb_spec). discriminate.
      - rewrite (Map_get_set_other Z.eqb Zeqb_spec) by assumption.
        destruct Hn as [Hn|Hn]; [exact Hn | congruence]. }
    split.
    + intros m1 n [= <-] Hn. apply Hset. now left.
    + intros q' [<-|Hq']; [apply Hset; now right | now apply Hall].
Qed.

Lemma questionEntries_times getTime seoMap l :
  (forall q, In q l ->
     getTime (updatedAt q) <> None
     /\ Map_get Z.eqb seoMap (questionNumber q) <> None) ->
  map snd (keepSome (map (questionEntry getTime seoMap) l)) = map (timeOf getTime) l.
Proof.
  induction l as [|q l IH]; intros Hl; simpl; [reflexivity|].
  destruct (Hl q (or_introl eq_refl)) as [Ht Hm].
  unfold questionEntry at 1, timeOf at 1.
  destruct (Map_get Z.eqb seoMap (questionNumber q)); [|congruence].
  destruct (getTime (updatedAt q)); [|congruence].
  simpl. f_equal. apply IH. intros q' Hq'. apply Hl. now right.
Qed.

(** X22. When the fetch returns the questions, none of them has an exam or
    sub-exam named like an inherited member, and all their dates are
    valid, [GET] lists one entry for every question, and the entries come
    latest first: no entry has a later date than an entry before it. *)
Theorem GET_entries_latest_first (getTime : jsstring -> option Z)
  (backend : Z -> Response) (fuel : nat) (st st1 : State) (questions : addr)
  (Hfetch : fetchAllQuestions backend None fuel st = (Returned questions, st1))
  (Haddr : (questions < length (heap st1))%nat)
  (Hplain : forall q, In q (readArray st1 questions) -> plainNames q)
  (Hdates : forall q, In q (readArray st1 questions) ->
                      getTime (updatedAt q) <> None) :
  exists exams entries st2,
    GET getTime backend fuel st = (Returned (exams, entries), st2)
    /\ StronglySorted Z.ge (map snd entries)
    /\ Permutation (map snd entries)
         (map (timeOf getTime) (readArray st1 questions))
    /\ length entries = length (readArray st1 questions).
Proof.
  destruct (fold_recordSEO_get (generateAllSlugs (readArray st1 questions))
              (readArray st1 questions)) as (seoMap & Em & _).
  { intros q Hq. unfold generateQuestionSEO.
    pose proof (generateKeywords_plain q (Hplain q Hq)) as Hk.
    destruct (generateKeywords q); [discriminate | congruence]. }
  rewrite <- generateAllQuestionSEO_fold in Em.
  pose proof Em as Hhas. rewrite generateAllQuestionSEO_fold in Hhas.
  apply fold_recordSEO_has in Hhas. destruct Hhas as [_ Hhas].
  unfold GET. rewrite Hfetch, Em.
  do 3 eexists. split; [reflexivity|].
  assert (E : readArray
                (writeArray st1 questions
                   (sortBy (byUpdatedAtDesc getTime) (readArray st1 questions)))
                questions
              = sortBy (byUpdatedAtDesc getTime) (readArray st1 questions)).
  { unfold readArray at 1, writeArray. simpl. now apply nth_replaceNth. }
  rewrite E.
  assert (Et : map snd
                 (keepSome
                    (map (questionEntry getTime seoMap)
                       (sortBy (byUpdatedAtDesc getTime) (readArray st1 questions))))
               = map (timeOf getTime)
                   (sortBy (byUpdatedAtDesc getTime) (readArray st1 questions))).
  { apply questionEntries_times. intros q Hq.
    assert (Hin : In q (readArray st1 questions))
      by (eapply Permutation_in; [apply sortBy_perm | exact Hq]).
    split; [now apply Hdates | now apply Hhas]. }
  split; [rewrite Et; now apply sortBy_latest_first|].
  split; [rewrite Et; apply Permutation_map, sortBy_perm|].
  rewrite <- (length_map snd), Et, length_map.
  apply Permutation_length, sortBy_perm.
Qed.

Lemma GET_entries_latest_first_witness :
  exists exams entries st2,
    GET exampleTime (onePageBackend [qOld; qNew]) 1 initialState
    = (Returned (exams, entries), st2)
    /\ StronglySorted Z.ge (map snd entries)
    /\ Permutation (map snd entries)
         (map (timeOf exampleTime) (readArray stateWithTwo 0%nat))
    /\ length entries = length (readArray stateWithTwo 0%nat).
Proof.
  apply (GET_entries_latest_first exampleTime (onePageBackend [qOld; qNew]) 1
           initialState stateWithTwo 0%nat).
  - reflexivity.
  - simpl. lia.
  - intros q [<-|[<-|[]]]; intros e [= <-];
      (split; [reflexivity | intros s H; discriminate H]).
  - intros q [<-|[<-|[]]]; discriminate.
Defined.
